(** * TimeZap: the tracking core, its storage and its formatters

    A shallow embedding of the TypeScript sources of the TimeZap editor
    add-on (timeService.ts, storage.ts, statusBar.ts, the commands of
    commands.ts that touch the data, and the script of the dashboard
    webview), with the properties of the specification stated and proved
    over it, followed by further properties of the code.

    Conventions.
    - A JavaScript number that the code only ever uses as an integer
      (epoch milliseconds, whole seconds) is a [Z].
    - A JavaScript object used as a dictionary is a [gmap string _] of
      its own properties; an optional property is an [option]. Where a
      key comes from a name in the file system (the bucket maps), the
      properties that a plain object inherits from [Object.prototype]
      are part of the model; workspace keys are URIs or ['untitled'] and
      day keys are dates, which never name such a property.
    - A reading of the clock ([Date.now()], [new Date()]) is an argument
      of the function that takes it. What else the add-on obtains from
      its host (the local time zone, [path.relative], [vscode.Uri.parse],
      [localeCompare], the properties of [Object.prototype], the
      conversion of a string to a number) is a field of a class, so that
      a statement holds for every host unless it names one. *)

From Stdlib Require Import ZArith Lia Ascii String List.
From Stdlib Require Import DecimalString DecimalZ DecimalPos DecimalFacts.
From stdpp Require Import base tactics option numbers list strings gmap fin_maps sorting.

Local Open Scope string_scope.
Local Open Scope Z_scope.

(** ** JavaScript odds and ends *)

Module Js.

(** [a || b] on strings: the empty string is falsy. *)
Definition str_or (a b : string) : string :=
  match a with
  | EmptyString => b
  | _ => a
  end.

(** [a || b] where [a] may be [undefined]. *)
Definition opt_str_or (a : option string) (b : string) : string :=
  match a with
  | Some s => str_or s b
  | None => b
  end.

(** [a || 0] where [a] is a number or [undefined]. *)
Definition num_or0 (a : option Z) : Z := default 0 a.

(** [s.split(sep)[0]] for a one-character separator: the part of [s]
    before the first occurrence of [sep], and all of [s] when there is
    none. *)
Fixpoint split_head (sep : ascii) (s : string) : string :=
  match s with
  | EmptyString => EmptyString
  | String c rest =>
      if Ascii.eqb c sep then EmptyString else String c (split_head sep rest)
  end.

(** [String(n)] for an integer [n] below 10^21 in size. *)
Definition num_to_string (n : Z) : string := NilZero.string_of_int (Z.to_int n).

(** Left padding with zeros, as [toISOString] does for its fields. *)
Fixpoint zeros (n : nat) : string :=
  match n with
  | O => EmptyString
  | S k => String "0" (zeros k)
  end.

Definition pad_left (width : nat) (n : Z) : string :=
  let digits := num_to_string (Z.abs n) in
  zeros (width - String.length digits) ++ digits.

End Js.

(** ** Dates, after ECMA-262 (Date objects)

    A time value is a number of milliseconds since the epoch, in UTC.
    The host's local time zone is given by its two offset functions. *)

Module JsDate.

Definition msPerDay : Z := 86400000.

Definition Day (t : Z) : Z := t / msPerDay.
Definition TimeWithinDay (t : Z) : Z := t mod msPerDay.

(** The civil date of a day number, proleptic Gregorian calendar. *)
Record Civil := { c_year : Z; c_month : Z; c_date : Z }.

Definition civil_of_day (day : Z) : Civil :=
  let z := day + 719468 in
  let era := z / 146097 in
  let doe := z - era * 146097 in
  let yoe := (doe - doe / 1460 + doe / 36524 - doe / 146096) / 365 in
  let doy := doe - (365 * yoe + yoe / 4 - yoe / 100) in
  let mp := (5 * doy + 2) / 153 in
  let d := doy - (153 * mp + 2) / 5 + 1 in
  let m := if mp <? 10 then mp + 3 else mp - 9 in
  {| c_year := yoe + era * 400 + (if m <=? 2 then 1 else 0);
     c_month := m;
     c_date := d |}.

(** The day number of the first day of month [m] (1..12) of year [y],
    plus [d - 1]: this is [MakeDay(y, m - 1, d)], and [d] may lie outside
    the month. *)
Definition day_of_civil (y m d : Z) : Z :=
  let y' := if m <=? 2 then y - 1 else y in
  let era := y' / 400 in
  let yoe := y' - era * 400 in
  let mp := if 2 <? m then m - 3 else m + 9 in
  let doy1 := (153 * mp + 2) / 5 in
  let doe1 := yoe * 365 + yoe / 4 - yoe / 100 + doy1 in
  era * 146097 + doe1 - 719468 + (d - 1).

Definition YearFromTime (t : Z) : Z := c_year (civil_of_day (Day t)).
(** [MonthFromTime] counts from 0. *)
Definition MonthFromTime (t : Z) : Z := c_month (civil_of_day (Day t)) - 1.
Definition DateFromTime (t : Z) : Z := c_date (civil_of_day (Day t)).

Definition MakeDay (year month date : Z) : Z :=
  let ym := year + month / 12 in
  let mn := month mod 12 in
  day_of_civil ym (mn + 1) date.

Definition MakeDate (day time : Z) : Z := day * msPerDay + time.

(** The host's time zone: the offset of local time from UTC, in
    milliseconds, at a UTC instant ([LocalTZA(t, true)]) and at a local
    time value ([LocalTZA(t, false)]). *)
Class TimeZone := {
  tza_utc : Z → Z;
  tza_local : Z → Z
}.

Section local_time.
Context {tz : TimeZone}.

Definition LocalTime (t : Z) : Z := t + tza_utc t.
Definition UTC (t : Z) : Z := t - tza_local t.

(** [d.getDate()] *)
Definition getDate (t : Z) : Z := DateFromTime (LocalTime t).

(** [d.setDate(dt)], returning the new time value of [d]. *)
Definition setDate (t dt : Z) : Z :=
  let tl := LocalTime t in
  let newDate :=
    MakeDate (MakeDay (YearFromTime tl) (MonthFromTime tl) dt) (TimeWithinDay tl) in
  UTC newDate.
End local_time.

(** [toISOString().slice(0, 10)], from the day number of the time value:
    for the years 0 to 9999 the ISO string starts with YYYY-MM-DD; other
    years are written with a sign and six digits, of which the slice
    keeps the first ten characters. *)
Definition iso_date_of_day (day : Z) : string :=
  let c := civil_of_day day in
  let y := c_year c in
  let md := "-" ++ Js.pad_left 2 (c_month c) ++ "-" ++ Js.pad_left 2 (c_date c) in
  if (0 <=? y) && (y <=? 9999) then Js.pad_left 4 y ++ md
  else String.substring 0 10 ((if y <? 0 then "-" else "+") ++ Js.pad_left 6 y ++ md).

Definition iso_date_prefix (t : Z) : string := iso_date_of_day (Day t).

End JsDate.

(** Helper of timeService.ts: returns YYYY-MM-DD for a time value. *)
Definition dateKeyFor (ts : Z) : string := JsDate.iso_date_prefix ts.

#[global] Arguments dateKeyFor : simpl never.
#[global] Arguments JsDate.iso_date_of_day : simpl never.
#[global] Arguments JsDate.civil_of_day : simpl never.
#[global] Arguments JsDate.day_of_civil : simpl never.

(** ** The persisted aggregation data (storage.ts, timeService.ts)

    [PersistedData] is declared as an open dictionary; the shape below is
    the one [onTick] builds and the readers expect:
    [data.workspaceFolders[ws].dates[day] = { totalSeconds, byFile, byFolder }].
    A property that may be missing is an [option]: the two maps of a
    bucket are there in every bucket that [onTick] made, and missing in
    the buckets of the repository's own test, which stored or imported
    data can hold as well. *)

(** An entry of a bucket map. [onTick] stores numbers, and strings where
    it met a string or an inherited property. *)
Inductive Count :=
  | CNum (n : Z)
  | CStr (s : string).

Record DayBucket := {
  totalSeconds : option Z;
  byFile : option (gmap string Count);
  byFolder : option (gmap string Count)
}.

Record WorkspaceEntry := {
  meta_path : string;
  dates : option (gmap string DayBucket)
}.

Record PersistedData := {
  workspaceFolders : option (gmap string WorkspaceEntry)
}.

(** The literal [{}]. *)
Definition emptyData : PersistedData := {| workspaceFolders := None |}.

(** The literal [{ totalSeconds: 0, byFile: {}, byFolder: {} }]. *)
Definition emptyBucket : DayBucket :=
  {| totalSeconds := Some 0; byFile := Some ∅; byFolder := Some ∅ |}.

(** [data.workspaceFolders && data.workspaceFolders[ws]], then
    [ws.dates[day]], as the readers of timeService.ts chain them. *)
Definition lookupBucket (d : PersistedData) (ws day : string) : option DayBucket :=
  wfs ← workspaceFolders d;
  w ← wfs !! ws;
  ds ← dates w;
  ds !! day.

(** The seconds that an entry holds: a string holds none. *)
Definition countValue (c : Count) : Z :=
  match c with
  | CNum n => n
  | CStr _ => 0
  end.

(** Sum of the seconds in a bucket map. *)
Definition sumValues (m : gmap string Count) : Z :=
  map_fold (λ _ v acc, countValue v + acc) 0 m.

(** Every entry of the map is a number. *)
Definition allNumbers (m : gmap string Count) : Prop :=
  map_Forall (λ _ c, ∃ n, c = CNum n) m.

(** ** TimeService (timeService.ts) *)

Inductive AggregateBy := folder | file.

Record TimeServiceConfig := {
  idleTimeoutSeconds : Z;
  persistIntervalSeconds : Z;
  aggregateBy : AggregateBy;
  autoStart : bool
}.

(** The defaults of the constructor. *)
Definition defaultConfig : TimeServiceConfig :=
  {| idleTimeoutSeconds := 300;
     persistIntervalSeconds := 30;
     aggregateBy := folder;
     autoStart := true |}.

(** What the code meets of the JavaScript engine when it uses a plain
    object as a map and a stored value as a number. *)
Class JsEngine := {
  (* [String(Object.prototype[k])] when [Object.prototype] has a
     property [k]: its properties are functions, and the prototype
     itself under ['__proto__'], all of them truthy; [None] for a name
     that it does not have *)
  inherited : string → option string;
  (* whether [o[k] = v], for a primitive [v] and a plain object [o]
     without a property [k] of its own, is taken by an inherited setter
     and stores nothing, as for ['__proto__'] *)
  intercepted : string → bool;
  (* [ToNumber(s)] of a string: the whole number it converts to, [None]
     when it converts to [NaN]; a count that is not a whole number is
     outside this model *)
  to_number : string → option Z
}.

(** What the service needs from Node, from the editor and from the
    engine to name a folder bucket and to write its entry. *)
Class PathHost := {
  (* [require('path').sep] *)
  path_sep : ascii;
  (* [require('path').relative(from, to)] *)
  path_relative : string → string → string;
  (* [vscode.Uri.parse(s).fsPath]; [None] when [parse] throws *)
  uri_fsPath : string → option string;
  path_engine :: JsEngine
}.

(** The payloads of the 'update' events of the service's emitter. *)
Inductive UpdateEvent :=
  | UpdRunning (running : bool)
  | UpdActive (activeFile activeWorkspace : option string)
  | UpdIdle (idle : bool)
  | UpdTick (workspace day : string) (deltaSec total : Z).

(** The fields of the class. A timer is the period it was installed
    with, in milliseconds. *)
Record TimeService := {
  config : TimeServiceConfig;
  running : bool;
  data : PersistedData;
  lastActivity : Z;
  lastTick : Z;
  activeFile : option string;
  activeWorkspace : option string;
  idle : bool;
  tickTimer : option Z;
  persistTimer : option Z
}.

Definition set_data (d : PersistedData) (s : TimeService) : TimeService :=
  {| config := config s; running := running s; data := d;
     lastActivity := lastActivity s; lastTick := lastTick s;
     activeFile := activeFile s; activeWorkspace := activeWorkspace s;
     idle := idle s; tickTimer := tickTimer s; persistTimer := persistTimer s |}.

Definition set_lastActivity (t : Z) (s : TimeService) : TimeService :=
  {| config := config s; running := running s; data := data s;
     lastActivity := t; lastTick := lastTick s;
     activeFile := activeFile s; activeWorkspace := activeWorkspace s;
     idle := idle s; tickTimer := tickTimer s; persistTimer := persistTimer s |}.

Definition set_lastTick (t : Z) (s : TimeService) : TimeService :=
  {| config := config s; running := running s; data := data s;
     lastActivity := lastActivity s; lastTick := t;
     activeFile := activeFile s; activeWorkspace := activeWorkspace s;
     idle := idle s; tickTimer := tickTimer s; persistTimer := persistTimer s |}.

Definition set_idle (b : bool) (s : TimeService) : TimeService :=
  {| config := config s; running := running s; data := data s;
     lastActivity := lastActivity s; lastTick := lastTick s;
     activeFile := activeFile s; activeWorkspace := activeWorkspace s;
     idle := b; tickTimer := tickTimer s; persistTimer := persistTimer s |}.

Definition set_active (f w : option string) (s : TimeService) : TimeService :=
  {| config := config s; running := running s; data := data s;
     lastActivity := lastActivity s; lastTick := lastTick s;
     activeFile := f; activeWorkspace := w;
     idle := idle s; tickTimer := tickTimer s; persistTimer := persistTimer s |}.

(** The state the constructor leaves, at clock reading [now], before the
    stored data has been loaded; [onLoaded] is the callback of its
    [storage.load()]. *)
Definition newTimeService (cfg : TimeServiceConfig) (now : Z) : TimeService :=
  {| config := cfg; running := false; data := emptyData;
     lastActivity := now; lastTick := now;
     activeFile := None; activeWorkspace := None;
     idle := false; tickTimer := None; persistTimer := None |}.

Definition onLoaded (d : PersistedData) (s : TimeService) : TimeService :=
  set_data d s.

(** [start()]. [t1] and [t2] are its two readings of [Date.now()]. *)
Definition start (t1 t2 : Z) (s : TimeService) : TimeService * list UpdateEvent :=
  if running s then (s, [])
  else
    ({| config := config s; running := true; data := data s;
        lastActivity := t1; lastTick := t2;
        activeFile := activeFile s; activeWorkspace := activeWorkspace s;
        idle := false;
        tickTimer := Some 1000;
        persistTimer := Some (persistIntervalSeconds (config s) * 1000) |},
     [UpdRunning true]).

(** [markActivity()]. [t1] and [t2] are its two readings of [Date.now()];
    the second is taken only when the session was idle. *)
Definition markActivity (t1 t2 : Z) (s : TimeService) : TimeService * list UpdateEvent :=
  let s1 := set_lastActivity t1 s in
  if idle s1 then (set_lastTick t2 (set_idle false s1), [UpdIdle false])
  else (s1, []).

(** [onActivityForEditor(editor)]. An editor with a document is given by
    the file-system path of the document and the URI of its workspace
    folder, when it has one. *)
Definition onActivityForEditor (editor : option (string * option string))
    (t1 t2 : Z) (s : TimeService) : TimeService * list UpdateEvent :=
  match editor with
  | None => markActivity t1 t2 (set_active None None s)
  | Some (fsPath, wf) =>
      let w := Some (default "untitled" wf) in
      let '(s', evs) := markActivity t1 t2 (set_active (Some fsPath) w s) in
      (s', (evs ++ [UpdActive (Some fsPath) w])%list)
  end.

Section onTick.
Context {host : PathHost}.

(** The folder bucket of a file: the first segment of its path relative
    to the workspace, ['.'] when that is empty, and the file key itself
    when computing it throws. *)
Definition folderKeyFor (workspaceKey fileKey : string) : string :=
  let from :=
    if String.prefix "file://" workspaceKey then uri_fsPath workspaceKey
    else Some workspaceKey in
  match from with
  | Some root =>
      let folderPath := path_relative root fileKey in
      Js.str_or (Js.split_head path_sep folderPath) "."
  | None => fileKey
  end.

(** [(obj[k] || 0) + deltaSec] for a bucket map [obj]: a property of
    its own comes first, then one that it inherits. A number grows by
    [deltaSec]; a string that is not empty, and an inherited function or
    object, take the digits of [deltaSec] at their end. *)
Definition bumped (m : gmap string Count) (k : string) (deltaSec : Z) : Count :=
  match m !! k with
  | Some (CNum n) => CNum (n + deltaSec)
  | Some (CStr EmptyString) => CNum deltaSec
  | Some (CStr s) => CStr (s ++ Js.num_to_string deltaSec)
  | None =>
      match inherited k with
      | Some text => CStr (text ++ Js.num_to_string deltaSec)
      | None => CNum deltaSec
      end
  end.

(** [obj[k] = v] for a bucket map [obj] and a number or string [v]. *)
Definition assigned (m : gmap string Count) (k : string) (v : Count)
    : gmap string Count :=
  match m !! k with
  | Some _ => <[k := v]> m
  | None => if intercepted k then m else <[k := v]> m
  end.

(** The key of the entry that a tick writes. *)
Definition entryKeyFor (cfg : TimeServiceConfig) (workspaceKey fileKey : string)
    : string :=
  match aggregateBy cfg with
  | file => fileKey
  | folder => folderKeyFor workspaceKey fileKey
  end.

(** Adding [deltaSec] to a day bucket: to its total, and then to one
    entry of one of its maps. Where that map is missing the second
    assignment throws, and the bucket keeps the new total. *)
Definition addDelta (cfg : TimeServiceConfig) (workspaceKey fileKey : string)
    (deltaSec : Z) (dayBucket : DayBucket) : DayBucket :=
  let total := Js.num_or0 (totalSeconds dayBucket) + deltaSec in
  match aggregateBy cfg with
  | file =>
      {| totalSeconds := Some total;
         byFile :=
           (λ m, assigned m fileKey (bumped m fileKey deltaSec)) <$> byFile dayBucket;
         byFolder := byFolder dayBucket |}
  | folder =>
      let folderKey := folderKeyFor workspaceKey fileKey in
      {| totalSeconds := Some total;
         byFile := byFile dayBucket;
         byFolder :=
           (λ m, assigned m folderKey (bumped m folderKey deltaSec))
             <$> byFolder dayBucket |}
  end.

(** Whether that second assignment throws: the map it writes to is
    missing. *)
Definition addDeltaThrows (cfg : TimeServiceConfig) (dayBucket : DayBucket) : bool :=
  match aggregateBy cfg with
  | file => bool_decide (byFile dayBucket = None)
  | folder => bool_decide (byFolder dayBucket = None)
  end.

(** A key that names no property of [Object.prototype]. *)
Definition plainKey (k : string) : Prop :=
  inherited k = None ∧ intercepted k = false.

#[global] Instance plainKey_dec k : Decision (plainKey k).
Proof. unfold plainKey. apply _. Defined.

(** The number that [obj[k] || 0] is, when it is one: the entry of [k]
    when it is a number, and 0 for an empty string and for a key that
    the map does not have and that names no property of
    [Object.prototype]. *)
Definition entryNumber (m : gmap string Count) (k : string) : option Z :=
  match m !! k with
  | Some (CNum n) => Some n
  | Some (CStr EmptyString) => Some 0
  | Some (CStr _) => None
  | None => if decide (plainKey k) then Some 0 else None
  end.

(** The part of [onTick] after [this.lastTick = now]: make sure the
    path to the day bucket exists, then add [deltaSec]. *)
Definition accumulate (cfg : TimeServiceConfig) (workspaceKey fileKey day : string)
    (deltaSec : Z) (d : PersistedData) : PersistedData :=
  let wfs := default ∅ (workspaceFolders d) in
  let ws := default {| meta_path := workspaceKey; dates := Some ∅ |} (wfs !! workspaceKey) in
  let ds := default ∅ (dates ws) in
  let dayBucket := default emptyBucket (ds !! day) in
  let dayBucket' := addDelta cfg workspaceKey fileKey deltaSec dayBucket in
  {| workspaceFolders :=
       Some (<[workspaceKey := {| meta_path := meta_path ws; dates := Some (<[day := dayBucket']> ds) |}]> wfs) |}.

Definition workspaceKeyOf (s : TimeService) : string :=
  Js.opt_str_or (activeWorkspace s) "untitled".

Definition fileKeyOf (s : TimeService) : string :=
  Js.opt_str_or (activeFile s) "untitled".

(** The idle test of [onTick]. *)
Definition idleCondition (now : Z) (s : TimeService) : bool :=
  idleTimeoutSeconds (config s) * 1000 <=? now - lastActivity s.

(** [onTick()], at clock reading [now]. *)
Definition onTick (now : Z) (s : TimeService) : TimeService * list UpdateEvent :=
  if negb (running s) then (s, [])
  else if idleCondition now s then
    (set_lastTick now (set_idle true s),
     if idle s then [] else [UpdIdle true])
  else
    let deltaSec := (now - lastTick s) / 1000 in
    if deltaSec <=? 0 then (s, [])
    else
      let workspaceKey := workspaceKeyOf s in
      let fileKey := fileKeyOf s in
      let day := dateKeyFor now in
      let before := default emptyBucket (lookupBucket (data s) workspaceKey day) in
      let d' := accumulate (config s) workspaceKey fileKey day deltaSec (data s) in
      (set_data d' (set_lastTick now s),
       (* the update is emitted after the entry was written: a tick that
          throws there emits nothing *)
       if addDeltaThrows (config s) before then []
       else
         [UpdTick workspaceKey day deltaSec
            (Js.num_or0 (totalSeconds (default emptyBucket (lookupBucket d' workspaceKey day))))]).
End onTick.

(** ** The formatter of statusBar.ts and its copy in the dashboard script *)

(** What reaches the formatter, as its tests and its arithmetic see it:
    a whole number of seconds that a double holds exactly, at most
    2^53 - 1 in size (or a value that converts to one); [NaN]; a
    missing value; or a value that is truthy and converts to [NaN], such
    as a string that spells no number. The type annotation of
    statusBar.ts is erased when the code runs, and the script of the
    page has none. *)
Inductive JsNumeric :=
  | JsNum (n : Z)
  | JsNaN
  | JsUndefined
  | JsOther.

(** [!s] *)
Definition falsy (s : JsNumeric) : bool :=
  match s with
  | JsNum n => n =? 0
  | JsNaN | JsUndefined => true
  | JsOther => false
  end.

(** [s <= 0]; a comparison with [NaN] is false, and [undefined] converts
    to [NaN]. *)
Definition le_zero (s : JsNumeric) : bool :=
  match s with
  | JsNum n => n <=? 0
  | JsNaN | JsUndefined | JsOther => false
  end.

Module StatusBar.

Definition formatSecondsHuman (s : JsNumeric) : string :=
  if falsy s || le_zero s then "0s"
  else
    match s with
    | JsNum n =>
        let hours := n / 3600 in
        let minutes := Z.rem n 3600 / 60 in
        let seconds := Z.rem n 60 in
        if 0 <? hours then
          Js.num_to_string hours ++ "h " ++ Js.num_to_string minutes ++ "m"
        else if 0 <? minutes then
          Js.num_to_string minutes ++ "m " ++ Js.num_to_string seconds ++ "s"
        else Js.num_to_string seconds ++ "s"
    | JsNaN | JsUndefined | JsOther => "NaNs"
    end.

End StatusBar.

Module Webview.

(** The copy in the script of the dashboard page; it builds its results
    with [+] where the other uses template strings. *)
Definition formatSecondsHuman (s : JsNumeric) : string :=
  if falsy s || le_zero s then "0s"
  else
    match s with
    | JsNum n =>
        let hours := n / 3600 in
        let minutes := Z.rem n 3600 / 60 in
        let seconds := Z.rem n 60 in
        if 0 <? hours then
          ((Js.num_to_string hours ++ "h ") ++ Js.num_to_string minutes) ++ "m"
        else if 0 <? minutes then
          ((Js.num_to_string minutes ++ "m ") ++ Js.num_to_string seconds) ++ "s"
        else Js.num_to_string seconds ++ "s"
    | JsNaN | JsUndefined | JsOther => "NaNs"
    end.

End Webview.

(** ** JSON values, [JSON.stringify(v, null, 2)] and [JSON.parse]

    Texts are lists of characters. A number is given by its decimal
    digits: a whole number as an integer, any other as an integer
    times a negative power of ten; each stands for the double nearest to
    it. An object keeps its members in order. *)

Module Json.

#[local] Set Warnings "-register-all".

Local Open Scope char_scope.
Local Open Scope list_scope.

(** The double quote character, code 34. *)
Abbreviation dquote := (Ascii false true false false false true false false).

Inductive value :=
  | Null
  | Bool (b : bool)
  | Num (n : Z)
  (* [m] times ten to the power [e], for [e] below 0 and [m] not
     divisible by 10 *)
  | Dec (m e : Z)
  | Str (s : string)
  | Arr (items : list value)
  | Obj (members : list (string * value)).

(** *** Writing *)

Definition hex_digit (n : N) : ascii :=
  ascii_of_N (if (n <? 10)%N then 48 + n else 87 + n).

(** One character of [QuoteJSONString]. *)
Definition quote_char (c : ascii) : list ascii :=
  let n := N_of_ascii c in
  if (n =? 8)%N then ["\"; "b"]
  else if (n =? 9)%N then ["\"; "t"]
  else if (n =? 10)%N then ["\"; "n"]
  else if (n =? 12)%N then ["\"; "f"]
  else if (n =? 13)%N then ["\"; "r"]
  else if (n =? 34)%N then ["\"; dquote]
  else if (n =? 92)%N then ["\"; "\"]
  else if (n <? 32)%N then ["\"; "u"; "0"; "0"; hex_digit (n / 16); hex_digit (n mod 16)]
  else [c].

Fixpoint quote_chars (s : string) : list ascii :=
  match s with
  | EmptyString => []
  | String c rest => quote_char c ++ quote_chars rest
  end.

Definition quote (s : string) : list ascii := dquote :: quote_chars s ++ [dquote].

Definition write_num (n : Z) : list ascii :=
  list_ascii_of_string (Js.num_to_string n).

(** [Number::toString] of a number that is not whole, from its digits
    [m] and the power of ten [e]: with [k] digits and the decimal point
    after the first [n = k + e] of them, the digits with the point when
    [0 < n <= 21], zeros between the point and the digits when
    [-6 < n <= 0], and the exponent notation otherwise. These are the
    digits that the double prints when [m] has at most 15 of them. *)
Definition write_dec (m e : Z) : list ascii :=
  let body :=
    match write_num (Z.abs m) with
    | [] => ["0"]
    | d :: ds =>
        let n := (Z.of_nat (S (length ds)) + e)%Z in
        if ((0 <? n) && (n <=? 21))%Z then
          d :: take (Z.to_nat (n - 1)) ds ++ "." :: drop (Z.to_nat (n - 1)) ds
        else if ((-6 <? n) && (n <=? 0))%Z then
          "0" :: "." :: repeat "0" (Z.to_nat (- n)) ++ d :: ds
        else
          let exponent :=
            (if (n - 1 <? 0)%Z then "-" else "+") :: write_num (Z.abs (n - 1)) in
          match ds with
          | [] => d :: "e" :: exponent
          | _ => d :: "." :: ds ++ "e" :: exponent
          end
    end in
  if (m <? 0)%Z then "-" :: body else body.

(** The indentation at nesting depth [depth], with a gap of two spaces. *)
Definition indent (depth : nat) : list ascii := repeat " " (2 * depth).

(** [",\n" + indent] between items and ["\n" + indent] before the first. *)
Definition newline (depth : nat) : list ascii := ascii_of_N 10 :: indent depth.

Fixpoint join (sep : list ascii) (parts : list (list ascii)) : list ascii :=
  match parts with
  | [] => []
  | [p] => p
  | p :: rest => p ++ sep ++ join sep rest
  end.

(** [SerializeJSONProperty], at nesting depth [depth]. *)
Fixpoint write (depth : nat) (v : value) : list ascii :=
  match v with
  | Null => ["n"; "u"; "l"; "l"]
  | Bool true => ["t"; "r"; "u"; "e"]
  | Bool false => ["f"; "a"; "l"; "s"; "e"]
  | Num n => write_num n
  | Dec m e => write_dec m e
  | Str s => quote s
  | Arr [] => ["["; "]"]
  | Arr items =>
      "[" :: newline (S depth)
        ++ join ("," :: newline (S depth)) (map (write (S depth)) items)
        ++ newline depth ++ ["]"]
  | Obj [] => ["{"; "}"]
  | Obj members =>
      "{" :: newline (S depth)
        ++ join ("," :: newline (S depth))
             (map (λ kv, quote (fst kv) ++ ":" :: " " :: write (S depth) (snd kv)) members)
        ++ newline depth ++ ["}"]
  end.

Definition stringify (v : value) : string := string_of_list_ascii (write 0 v).

(** *** Reading *)

Definition is_ws (c : ascii) : bool :=
  let n := N_of_ascii c in
  (n =? 32)%N || (n =? 9)%N || (n =? 10)%N || (n =? 13)%N.

Fixpoint skip_ws (s : list ascii) : list ascii :=
  match s with
  | c :: rest => if is_ws c then skip_ws rest else s
  | [] => []
  end.

Definition is_digit (c : ascii) : bool :=
  let n := N_of_ascii c in (48 <=? n)%N && (n <=? 57)%N.

Fixpoint take_digits (s : list ascii) : list ascii * list ascii :=
  match s with
  | c :: rest =>
      if is_digit c then let '(ds, r) := take_digits rest in (c :: ds, r)
      else ([], s)
  | [] => ([], [])
  end.

(** A digit string with a superfluous leading zero. *)
Definition leading_zero (ds : list ascii) : bool :=
  match ds with
  | "0" :: _ :: _ => true
  | _ => false
  end.

(** The start of a fraction or of an exponent. *)
Definition starts_fraction (s : list ascii) : bool :=
  match s with
  | "." :: _ | "e" :: _ | "E" :: _ => true
  | _ => false
  end.

(** The fraction of a number literal: a point and at least one digit. *)
Definition read_fraction (s : list ascii) : option (list ascii * list ascii) :=
  match s with
  | "." :: r =>
      let '(fs, rest) := take_digits r in
      match fs with
      | [] => None
      | _ => Some (fs, rest)
      end
  | _ => Some ([], s)
  end.

(** The exponent of a number literal: [e] or [E], an optional sign and
    at least one digit. *)
Definition read_exponent (s : list ascii) : option (Z * list ascii) :=
  match s with
  | "e" :: r | "E" :: r =>
      let '(neg, r1) :=
        match r with
        | "-" :: r' => (true, r')
        | "+" :: r' => (false, r')
        | _ => (false, r)
        end in
      let '(xs, rest) := take_digits r1 in
      d ← NilZero.uint_of_string (string_of_list_ascii xs);
      let x := Z.of_uint d in
      Some (if neg then (- x)%Z else x, rest)
  | _ => Some (0%Z, s)
  end.

(** [m] times ten to the power [e] without the zeros at the end of [m]
    that a negative [e] makes up for. *)
Fixpoint strip_zeros (fuel : nat) (m e : Z) : Z * Z :=
  match fuel with
  | O => (m, e)
  | S fuel' =>
      if ((e <? 0) && (m mod 10 =? 0))%Z then strip_zeros fuel' (m / 10)%Z (e + 1)%Z
      else (m, e)
  end.

(** The number [m] times ten to the power [e], where [m] has [digits]
    digits. *)
Definition number (m e : Z) (digits : nat) : value :=
  if (m =? 0)%Z then Num 0
  else
    let '(m', e') := strip_zeros digits m e in
    if (0 <=? e')%Z then Num (m' * 10 ^ e') else Dec m' e'.

(** A number literal after its sign: [0] or a digit string that does
    not start with [0]; an optional fraction; an optional exponent. *)
Definition read_unsigned (neg : bool) (s : list ascii) : option (value * list ascii) :=
  let '(ds, rest) := take_digits s in
  if leading_zero ds then None
  else
    d ← NilZero.uint_of_string (string_of_list_ascii ds);
    if starts_fraction rest then
      '(fs, r2) ← read_fraction rest;
      '(x, r3) ← read_exponent r2;
      f ← NilZero.uint_of_string (string_of_list_ascii (ds ++ fs));
      let m := Z.of_uint f in
      Some (number (if neg then (- m)%Z else m) (x - Z.of_nat (length fs))
              (length (ds ++ fs)),
            r3)
    else
      let n := Z.of_uint d in
      Some (Num (if neg then (- n)%Z else n), rest).

(** The number literals of the JSON grammar. *)
Definition read_num (s : list ascii) : option (value * list ascii) :=
  match s with
  | "-" :: r => read_unsigned true r
  | _ => read_unsigned false s
  end.

Definition hex_value (c : ascii) : option N :=
  let n := N_of_ascii c in
  if (48 <=? n)%N && (n <=? 57)%N then Some (n - 48)%N
  else if (97 <=? n)%N && (n <=? 102)%N then Some (n - 87)%N
  else if (65 <=? n)%N && (n <=? 70)%N then Some (n - 55)%N
  else None.

(** The characters of the string for the code unit of a [\uXXXX]
    escape, in UTF-8. *)
Definition utf8 (code : N) : list ascii :=
  if (code <? 128)%N then [ascii_of_N code]
  else if (code <? 2048)%N then
    [ascii_of_N (192 + code / 64); ascii_of_N (128 + code mod 64)]
  else
    [ascii_of_N (224 + code / 4096); ascii_of_N (128 + (code / 64) mod 64);
     ascii_of_N (128 + code mod 64)].

(** The characters of a string after its opening quote, up to and
    including the closing one. *)
Fixpoint read_chars (fuel : nat) (s : list ascii) : option (list ascii * list ascii) :=
  match fuel with
  | O => None
  | S fuel' =>
      match s with
      | [] => None
      | dquote :: rest => Some ([], rest)
      | "\" :: e :: rest =>
          let continue (cs : list ascii) (r : list ascii) :=
            '(str, r') ← read_chars fuel' r; Some (cs ++ str, r') in
          match e with
          | dquote => continue [dquote] rest
          | "\" => continue ["\"] rest
          | "/" => continue ["/"] rest
          | "b" => continue [ascii_of_N 8] rest
          | "f" => continue [ascii_of_N 12] rest
          | "n" => continue [ascii_of_N 10] rest
          | "r" => continue [ascii_of_N 13] rest
          | "t" => continue [ascii_of_N 9] rest
          | "u" =>
              match rest with
              | h1 :: h2 :: h3 :: h4 :: rest' =>
                  a ← hex_value h1; b ← hex_value h2;
                  c ← hex_value h3; d ← hex_value h4;
                  continue (utf8 (((a * 16 + b) * 16 + c) * 16 + d)%N) rest'
              | _ => None
              end
          | _ => None
          end
      | c :: rest =>
          if (N_of_ascii c <? 32)%N then None
          else '(str, r') ← read_chars fuel' rest; Some (c :: str, r')
      end
  end.

Definition read_string (s : list ascii) : option (string * list ascii) :=
  '(cs, rest) ← read_chars (S (length s)) s;
  Some (string_of_list_ascii cs, rest).

(** Defining a property of an object: a key that is already there keeps
    its place and takes the new value. *)
Fixpoint set_member (k : string) (v : value) (members : list (string * value))
    : list (string * value) :=
  match members with
  | [] => [(k, v)]
  | (k', v') :: rest =>
      if String.eqb k k' then (k, v) :: rest else (k', v') :: set_member k v rest
  end.

(** Does the text, after optional white space, start with [c]? *)
Definition next_is (c : ascii) (s : list ascii) : bool :=
  match skip_ws s with
  | c' :: _ => Ascii.eqb c' c
  | [] => false
  end.

(** The text after its first character that is not white space. *)
Definition after_next (s : list ascii) : list ascii := tl (skip_ws s).

(** A value, after optional white space; [read_items] and [read_members]
    read the rest of an array or object that has at least one item. *)
Fixpoint read_value (fuel : nat) (s : list ascii) : option (value * list ascii) :=
  match fuel with
  | O => None
  | S fuel' =>
      match skip_ws s with
      | "n" :: "u" :: "l" :: "l" :: rest => Some (Null, rest)
      | "t" :: "r" :: "u" :: "e" :: rest => Some (Bool true, rest)
      | "f" :: "a" :: "l" :: "s" :: "e" :: rest => Some (Bool false, rest)
      | dquote :: rest => '(str, r) ← read_string rest; Some (Str str, r)
      | "[" :: rest =>
          if next_is "]" rest then Some (Arr [], after_next rest)
          else '(items, r) ← read_items fuel' rest; Some (Arr items, r)
      | "{" :: rest =>
          if next_is "}" rest then Some (Obj [], after_next rest)
          else '(members, r) ← read_members fuel' rest []; Some (Obj members, r)
      | rest => read_num rest
      end
  end
with read_items (fuel : nat) (s : list ascii) : option (list value * list ascii) :=
  match fuel with
  | O => None
  | S fuel' =>
      '(v, r) ← read_value fuel' s;
      match skip_ws r with
      | "," :: r' => '(vs, r'') ← read_items fuel' r'; Some (v :: vs, r'')
      | "]" :: r' => Some ([v], r')
      | _ => None
      end
  end
with read_members (fuel : nat) (s : list ascii) (acc : list (string * value))
    : option (list (string * value) * list ascii) :=
  match fuel with
  | O => None
  | S fuel' =>
      match skip_ws s with
      | dquote :: r0 =>
          '(k, r1) ← read_string r0;
          match skip_ws r1 with
          | ":" :: r2 =>
              '(v, r3) ← read_value fuel' r2;
              let acc' := set_member k v acc in
              match skip_ws r3 with
              | "," :: r4 => read_members fuel' r4 acc'
              | "}" :: r4 => Some (acc', r4)
              | _ => None
              end
          | _ => None
          end
      | _ => None
      end
  end.

(** [JSON.parse]: one value, with nothing but white space after it.
    [None] stands for the [SyntaxError]. *)
Definition parse (text : string) : option value :=
  let s := list_ascii_of_string text in
  '(v, rest) ← read_value (S (length s)) s;
  match skip_ws rest with
  | [] => Some v
  | _ => None
  end.

(** Following a path of keys into nested objects. *)
Fixpoint get (k : string) (members : list (string * value)) : option value :=
  match members with
  | [] => None
  | (k', v) :: rest => if String.eqb k k' then Some v else get k rest
  end.

Fixpoint get_path (path : list string) (v : value) : option value :=
  match path with
  | [] => Some v
  | k :: path' =>
      match v with
      | Obj members => get k members ≫= get_path path'
      | _ => None
      end
  end.

(** A value is a scalar when it has no parts of its own. *)
Definition is_scalar (v : value) : bool :=
  match v with
  | Arr _ | Obj _ => false
  | _ => true
  end.

(** A flat key-value map: an object all of whose values are scalars. *)
Definition is_flat (v : value) : bool :=
  match v with
  | Obj members => forallb (λ kv, is_scalar (snd kv)) members
  | _ => false
  end.

(** Values that [JSON.stringify] writes and [JSON.parse] reads back
    unchanged: every number is an integer that a double holds exactly,
    and no object has two members with the same key. *)
Definition safe_integer (n : Z) : bool :=
  ((- 9007199254740991 <=? n) && (n <=? 9007199254740991))%Z.

Definition fresh (k : string) (members : list (string * value)) : bool :=
  forallb (λ kv, negb (String.eqb k (fst kv))) members.

Fixpoint distinct_keys (members : list (string * value)) : bool :=
  match members with
  | [] => true
  | kv :: rest => fresh (fst kv) rest && distinct_keys rest
  end.

Fixpoint well_formed (v : value) : bool :=
  match v with
  | Null | Bool _ | Str _ => true
  | Num n => safe_integer n
  | Dec _ _ => false
  | Arr items => forallb well_formed items
  | Obj members =>
      distinct_keys members && forallb (λ kv, well_formed (snd kv)) members
  end.

(** What may follow a number in a text for it to be read whole. *)
Definition delimited (rest : list ascii) : bool :=
  match rest with
  | [] => true
  | c :: _ => negb (is_digit c) && negb (starts_fraction rest)
  end.

(** A bound on the depth of recursion that reading a value takes. *)
Fixpoint size (v : value) : nat :=
  match v with
  | Arr items => S (list_sum (map (λ x, S (size x)) items))
  | Obj members => S (list_sum (map (λ kv, S (size (snd kv))) members))
  | _ => 1
  end.

(** The characters a written value can start with. *)
Definition value_start (c : ascii) : bool :=
  negb (is_ws c) && negb (Ascii.eqb c "]") && negb (Ascii.eqb c "}").

(** The text of one member of an object. *)
Definition member_text (depth : nat) (kv : string * value) : list ascii :=
  quote (fst kv) ++ ":" :: " " :: write depth (snd kv).

(** Reading the text of [v], at any depth, after any white space and
    before any text that ends a number, gives [v] and the text after it. *)
Definition reads_back (v : value) : Prop :=
  well_formed v = true →
  ∀ depth pre rest fuel,
    forallb is_ws pre = true → delimited rest = true → (size v ≤ fuel)%nat →
    read_value fuel (pre ++ write depth v ++ rest) = Some (v, rest).

End Json.

(** ** The aggregation data as the JSON value that is stored *)

Definition encodeCount (c : Count) : Json.value :=
  match c with
  | CNum n => Json.Num n
  | CStr s => Json.Str s
  end.

Definition encodeCounts (m : gmap string Count) : Json.value :=
  Json.Obj (map (λ kv, (fst kv, encodeCount (snd kv))) (map_to_list m)).

Definition encodeBucket (b : DayBucket) : Json.value :=
  Json.Obj
    ((match totalSeconds b with
      | Some n => [("totalSeconds", Json.Num n)]
      | None => []
      end)
     ++ (match byFile b with
         | Some m => [("byFile", encodeCounts m)]
         | None => []
         end)
     ++ (match byFolder b with
         | Some m => [("byFolder", encodeCounts m)]
         | None => []
         end))%list.

Definition encodeWorkspace (w : WorkspaceEntry) : Json.value :=
  Json.Obj
    (("meta", Json.Obj [("path", Json.Str (meta_path w))])
     :: match dates w with
        | Some ds =>
            [("dates", Json.Obj (map (λ kv, (fst kv, encodeBucket (snd kv))) (map_to_list ds)))]
        | None => []
        end).

Definition encodeData (d : PersistedData) : Json.value :=
  Json.Obj
    match workspaceFolders d with
    | Some wfs =>
        [("workspaceFolders",
          Json.Obj (map (λ kv, (fst kv, encodeWorkspace (snd kv))) (map_to_list wfs)))]
    | None => []
    end.

(** ** Storage (storage.ts)

    The class keeps [pendingData] and [saveTimer]; the host keeps the
    key-value store ([context.globalState]) and the timers. The callback
    of a save timer runs in two parts, before and after its [await] of
    [globalState.update], and other callbacks of the event loop can run
    in between. *)

Module Storage.

Definition key : string := "timezap.data".

Record State := {
  pendingData : option Json.value;
  (* the handle held in [this.saveTimer] *)
  saveTimer : option nat;
  (* host: the timers that are armed *)
  armed : list nat;
  (* host: the timer callbacks waiting at their [await] *)
  awaiting : list nat;
  (* host: the next timer handle *)
  nextTimer : nat;
  (* host: [context.globalState] *)
  globalState : gmap string Json.value;
  (* every value passed to [globalState.update] under [key], oldest
      first; [None] is [undefined] *)
  written : list (option Json.value);
  (* the timers whose [save] promise has been resolved *)
  resolved : list nat
}.

Definition init (store : gmap string Json.value) : State :=
  {| pendingData := None; saveTimer := None; armed := []; awaiting := [];
     nextTimer := O; globalState := store; written := []; resolved := [] |}.

(** [Memento.update(key, value)]: [undefined] removes the key. *)
Definition memento_update (k : string) (v : option Json.value)
    (store : gmap string Json.value) : gmap string Json.value :=
  match v with
  | Some d => <[k := d]> store
  | None => delete k store
  end.

(** [load()]: [globalState.get(key, {})]. *)
Definition load (st : State) : Json.value :=
  default (Json.Obj []) (globalState st !! key).

(** [save(data)], up to the point where it waits for its timer. *)
Definition save (d : Json.value) (st : State) : State :=
  let armed' :=
    match saveTimer st with
    | Some t => List.filter (λ t', negb (Nat.eqb t' t)) (armed st)
    | None => armed st
    end in
  let t := nextTimer st in
  {| pendingData := Some d; saveTimer := Some t;
     armed := (armed' ++ [t])%list; awaiting := awaiting st;
     nextTimer := S t; globalState := globalState st;
     written := written st; resolved := resolved st |}.

(** The first part of the callback of timer [t]: it passes
    [this.pendingData] to [globalState.update] and waits. *)
Definition timer_fires (t : nat) (st : State) : option State :=
  if bool_decide (t ∈ armed st) then
    Some
      {| pendingData := pendingData st; saveTimer := saveTimer st;
         armed := List.filter (λ t', negb (Nat.eqb t' t)) (armed st);
         awaiting := (awaiting st ++ [t])%list;
         nextTimer := nextTimer st;
         globalState := memento_update key (pendingData st) (globalState st);
         written := (written st ++ [pendingData st])%list;
         resolved := resolved st |}
  else None.

(** The second part, after the [await]: it clears both fields and
    resolves the promise of its [save]. *)
Definition update_settles (t : nat) (st : State) : option State :=
  if bool_decide (t ∈ awaiting st) then
    Some
      {| pendingData := None; saveTimer := None;
         armed := armed st;
         awaiting := List.filter (λ t', negb (Nat.eqb t' t)) (awaiting st);
         nextTimer := nextTimer st; globalState := globalState st;
         written := written st;
         resolved := (resolved st ++ [t])%list |}
  else None.

(** What the event loop can run. *)
Inductive Event :=
  | Save (d : Json.value)
  | TimerFires (t : nat)
  | UpdateSettles (t : nat).

Definition step (e : Event) (st : State) : option State :=
  match e with
  | Save d => Some (save d st)
  | TimerFires t => timer_fires t st
  | UpdateSettles t => update_settles t st
  end.

Fixpoint run (es : list Event) (st : State) : option State :=
  match es with
  | [] => Some st
  | e :: es' => step e st ≫= run es'
  end.

(** [exportToJson()] *)
Definition exportToJson (st : State) : string := Json.stringify (load st).

(** [importFromJson(json)], up to the point where [save] waits; [None]
    when [JSON.parse] throws. *)
Definition importFromJson (json : string) (st : State) : option State :=
  d ← Json.parse json; Some (save d st).

(** The data of the [Save] that was called last in a trace. *)
Fixpoint lastSaved (es : list Event) (before : option Json.value) : option Json.value :=
  match es with
  | [] => before
  | Save d :: es' => lastSaved es' (Some d)
  | _ :: es' => lastSaved es' before
  end.

(** No write is in flight, and a timer that is armed is the one in
    [saveTimer], waiting to write the data of the last [save]. *)
Definition quiet (last : option Json.value) (st : State) : Prop :=
  awaiting st = []
  ∧ (armed st = []
     ∨ ∃ t d, armed st = [t] ∧ saveTimer st = Some t
              ∧ pendingData st = Some d ∧ last = Some d).

(** A trace in which no callback runs while a write is in flight: calls
    of [save], and timers whose write settles before anything else
    happens. *)
Inductive Action :=
  | DoSave (d : Json.value)
  | DoWrite (t : nat).

Definition events (a : Action) : list Event :=
  match a with
  | DoSave d => [Save d]
  | DoWrite t => [TimerFires t; UpdateSettles t]
  end.

(** The values such a trace is expected to write: at each write, the data
    of the [save] called last before it. *)
Fixpoint expectedWrites (acts : list Action) (last : option Json.value)
    : list (option Json.value) :=
  match acts with
  | [] => []
  | DoSave d :: rest => expectedWrites rest (Some d)
  | DoWrite _ :: rest => last :: expectedWrites rest last
  end.

Fixpoint lastSaveOf (acts : list Action) (last : option Json.value) : option Json.value :=
  match acts with
  | [] => last
  | DoSave d :: rest => lastSaveOf rest (Some d)
  | DoWrite _ :: rest => lastSaveOf rest last
  end.

End Storage.

(** [persist()] of the service: the data goes to [save]. In the source
    [save] keeps a reference to the data object of the service, so that
    its timer writes what that object holds when the timer fires; here
    [save] is given what the object holds when [persist] is called. *)
Definition persist (s : TimeService) (st : Storage.State) : Storage.State :=
  Storage.save (encodeData (data s)) st.

(** ** Time series (timeService.ts) *)

Record SeriesEntry := { date : string; seconds : Z }.

Record Ranges := {
  range7d : list SeriesEntry;
  range30d : list SeriesEntry;
  range1y : list SeriesEntry;
  rangeAll : list SeriesEntry
}.

(** [String.prototype.localeCompare] of the host. *)
Class Collation := { localeCompare : string → string → Z }.

Section series.
Context {tz : JsDate.TimeZone} {coll : Collation}.

(** [const d = new Date(today); d.setDate(d.getDate() - i); d.getTime()] *)
Definition daysBefore (today i : Z) : Z :=
  JsDate.setDate today (JsDate.getDate today - i).

#[global] Arguments daysBefore : simpl never.

(** The values of [i] in [for (let i = days - 1; i >= 0; i--)]. *)
Definition countdown (days : nat) : list Z :=
  map Z.of_nat (rev (seq 0 days)).

Definition makeRange (today : Z) (days : nat) : list SeriesEntry :=
  map (λ i, {| date := dateKeyFor (daysBefore today i); seconds := 0 |})
      (countdown days).

Definition buildContiguous (ds : gmap string DayBucket) (today : Z) (days : nat)
    : list SeriesEntry :=
  map (λ i,
         let key := dateKeyFor (daysBefore today i) in
         {| date := key;
            seconds := match ds !! key with
                       | Some found => Js.num_or0 (totalSeconds found)
                       | None => 0
                       end |})
      (countdown days).

(** The comparison given to [sort]. *)
Definition entry_le (a b : SeriesEntry) : Prop :=
  localeCompare (date a) (date b) ≤ 0.

#[global] Instance entry_le_dec : RelDecision entry_le.
Proof. intros a b. unfold entry_le. apply _. Defined.

Definition dayEntries (ds : gmap string DayBucket) : list SeriesEntry :=
  merge_sort entry_le
    (map (λ kv, {| date := fst kv; seconds := Js.num_or0 (totalSeconds (snd kv)) |})
         (map_to_list ds)).

(** [getTimeSeriesForWorkspaceRanges(workspaceUri)] on the data that
    [storage.load()] returned. [t7], [t30] and [t1y] are the readings of
    the clock by the three calls of [buildContiguous]; without a record
    for the workspace there is one reading, [t7]. *)
Definition getTimeSeriesForWorkspaceRanges (s : TimeService) (loaded : PersistedData)
    (workspaceUri : option string) (t7 t30 t1y : Z) : Ranges :=
  let wsKey := Js.opt_str_or workspaceUri (Js.opt_str_or (activeWorkspace s) "untitled") in
  match (wfs ← workspaceFolders loaded; ws ← wfs !! wsKey; dates ws) with
  | None =>
      {| range7d := makeRange t7 7; range30d := makeRange t7 30;
         range1y := makeRange t7 365; rangeAll := [] |}
  | Some ds =>
      {| range7d := buildContiguous ds t7 7;
         range30d := buildContiguous ds t30 30;
         range1y := buildContiguous ds t1y 365;
         rangeAll := dayEntries ds |}
  end.
End series.

(** ** Hosts used in the examples *)

(** A zone whose offset from UTC never changes. *)
Definition fixedZone (offset : Z) : JsDate.TimeZone :=
  {| JsDate.tza_utc := λ _, offset; JsDate.tza_local := λ _, offset |}.

(** America/Toronto in the autumn of 2025: four hours behind UTC until
    2025-11-02T06:00:00Z (02:00 local time), five hours behind from then
    on. A local time that occurs twice is read with the earlier offset. *)
Definition toronto_autumn_2025 : JsDate.TimeZone :=
  {| JsDate.tza_utc := λ t, if t <? 1762063200000 then -14400000 else -18000000;
     JsDate.tza_local := λ tl, if tl <? 1762048800000 then -14400000 else -18000000 |}.

(** Comparison by character codes. *)
Definition codeOrder : Collation :=
  {| localeCompare := λ a b,
       match String.compare a b with
       | Lt => -1
       | Eq => 0
       | Gt => 1
       end |}.

(** A POSIX host, for absolute paths without [.] and [..] segments and
    for [file://] URIs without escapes. *)
Fixpoint segments (sep : ascii) (s : string) (cur : string) : list string :=
  match s with
  | EmptyString => [cur]
  | String c rest =>
      if Ascii.eqb c sep then cur :: segments sep rest EmptyString
      else segments sep rest (cur ++ String c EmptyString)
  end.

Fixpoint drop_common (a b : list string) : list string * list string :=
  match a, b with
  | x :: a', y :: b' => if String.eqb x y then drop_common a' b' else (a, b)
  | _, _ => (a, b)
  end.

Definition posix_relative (from to : string) : string :=
  let nonempty := List.filter (λ x, negb (String.eqb x "")) in
  let '(up, down) := drop_common (nonempty (segments "/" from "")) (nonempty (segments "/" to "")) in
  String.concat "/" (map (λ _, "..") up ++ down)%list.

(** The text of a built-in function in V8, SpiderMonkey and
    JavaScriptCore. *)
Definition nativeFunction (name : string) : string :=
  "function " ++ name ++ "() { [native code] }".

(** The properties of [Object.prototype] (ECMA-262, 20.1.3 and B.2.2). *)
Definition objectPrototype : list (string * string) :=
  [("constructor", nativeFunction "Object");
   ("hasOwnProperty", nativeFunction "hasOwnProperty");
   ("isPrototypeOf", nativeFunction "isPrototypeOf");
   ("propertyIsEnumerable", nativeFunction "propertyIsEnumerable");
   ("toLocaleString", nativeFunction "toLocaleString");
   ("toString", nativeFunction "toString");
   ("valueOf", nativeFunction "valueOf");
   ("__defineGetter__", nativeFunction "__defineGetter__");
   ("__defineSetter__", nativeFunction "__defineSetter__");
   ("__lookupGetter__", nativeFunction "__lookupGetter__");
   ("__lookupSetter__", nativeFunction "__lookupSetter__");
   ("__proto__", "[object Object]")].

Fixpoint assoc (k : string) (l : list (string * string)) : option string :=
  match l with
  | [] => None
  | (k', v) :: rest => if String.eqb k k' then Some v else assoc k rest
  end.

(** [ToNumber] of a string of decimal digits, with or without a minus
    sign; the strings in the examples are of this form or spell no
    number. *)
Definition decimalNumber (s : string) : option Z :=
  let digits := match s with String "-" rest => rest | _ => s end in
  let negative := match s with String "-" _ => true | _ => false end in
  match digits with
  | EmptyString => None
  | _ =>
      if forallb (λ c, (48 <=? Z.of_N (N_of_ascii c)) && (Z.of_N (N_of_ascii c) <=? 57))
           (list_ascii_of_string digits)
      then
        let n := fold_left (λ acc c, 10 * acc + (Z.of_N (N_of_ascii c) - 48))
                   (list_ascii_of_string digits) 0 in
        Some (if negative then - n else n)
      else None
  end.

Definition nodeEngine : JsEngine :=
  {| inherited := λ k, assoc k objectPrototype;
     intercepted := λ k, String.eqb k "__proto__";
     to_number := decimalNumber |}.

Definition posixHost : PathHost :=
  {| path_sep := "/"%char;
     path_relative := posix_relative;
     uri_fsPath := λ uri, Some (String.substring 7 (String.length uri - 7) uri);
     path_engine := nodeEngine |}.

(** The bucket of a workspace and day, or the bucket [onTick] would
    create there. *)
Definition bucketOrEmpty (d : PersistedData) (ws day : string) : DayBucket :=
  default emptyBucket (lookupBucket d ws day).

(** The total of a bucket is the sum of its two maps: the bucket has
    both, their entries are numbers, and the numbers add up to the
    total. *)
Definition bucketBalanced (b : DayBucket) : Prop :=
  ∃ files folders,
    byFile b = Some files ∧ byFolder b = Some folders
    ∧ allNumbers files ∧ allNumbers folders
    ∧ totalSeconds b = Some (sumValues files + sumValues folders).

(** A service with the default configuration, started at time 0, with
    no editor open. *)
Definition exampleService : TimeService :=
  (start 0 0 (newTimeService defaultConfig 0)).1.

(** Data all of whose counts are integers that a double holds exactly. *)
Definition safeCounts (m : gmap string Count) : Prop :=
  map_Forall (λ _ c, Json.well_formed (encodeCount c) = true) m.

Definition safeBucket (b : DayBucket) : Prop :=
  from_option (λ n, Json.safe_integer n = true) True (totalSeconds b)
  ∧ from_option safeCounts True (byFile b)
  ∧ from_option safeCounts True (byFolder b).

Definition safeData (d : PersistedData) : Prop :=
  ∀ ws day b, lookupBucket d ws day = Some b → safeBucket b.

(** The value stored after the service of the example has counted two
    seconds. *)
Definition exampleStored : Json.value :=
  Json.Obj
    [("workspaceFolders",
      Json.Obj
        [("untitled",
          Json.Obj
            [("meta", Json.Obj [("path", Json.Str "untitled")]);
             ("dates",
              Json.Obj
                [("1970-01-01",
                  Json.Obj
                    [("totalSeconds", Json.Num 2);
                     ("byFile", Json.Obj []);
                     ("byFolder", Json.Obj [(".", Json.Num 2)])])])])])].

(** ** The rest of the service (timeService.ts) *)

(** What [stop()] does to the service: it stops and its timers are
    cleared. *)
Definition stopService (s : TimeService) : TimeService * list UpdateEvent :=
  if negb (running s) then (s, [])
  else
    ({| config := config s; running := false; data := data s;
        lastActivity := lastActivity s; lastTick := lastTick s;
        activeFile := activeFile s; activeWorkspace := activeWorkspace s;
        idle := idle s; tickTimer := None; persistTimer := None |},
     [UpdRunning false]).

(** [stop()]: besides, the [persist()] of a running service hands the
    data to [save] before [stop] returns. *)
Definition stop (s : TimeService) (st : Storage.State)
    : TimeService * Storage.State * list UpdateEvent :=
  let '(s', evs) := stopService s in
  (s', if running s then persist s st else st, evs).

(** The listener that [attachListeners] gives to
    [onDidChangeActiveTextEditor]: without an editor it forgets the active
    file and workspace and records no activity; the event it emits then
    carries the (undefined) active file only. *)
Definition onDidChangeActiveTextEditor (e : option (string * option string))
    (t1 t2 : Z) (s : TimeService) : TimeService * list UpdateEvent :=
  match e with
  | Some ed => onActivityForEditor (Some ed) t1 t2 s
  | None => (set_active None None s, [UpdActive None None])
  end.

(** [getTodaySummaryForWorkspace(workspaceUri)] on the data that
    [storage.load()] returned, at clock reading [now]. *)
Definition getTodaySummaryForWorkspace (s : TimeService) (loaded : PersistedData)
    (workspaceUri : option string) (now : Z) : DayBucket :=
  let wsKey := Js.opt_str_or workspaceUri (Js.opt_str_or (activeWorkspace s) "untitled") in
  let day := dateKeyFor now in
  match lookupBucket loaded wsKey day with
  | Some b => b
  | None => {| totalSeconds := Some 0; byFile := Some ∅; byFolder := Some ∅ |}
  end.

(** What the event loop delivers to the service. The listeners are
    attached by [start()] and detached by [stop()], so that editor events
    reach the service only while it runs. *)
Inductive ServiceEvent :=
  | Started (t1 t2 : Z)
  | Stopped
  | Ticked (now : Z)
  | Active (t1 t2 : Z)
  | EditorChanged (e : option (string * option string)) (t1 t2 : Z).

Section service.
Context {host : PathHost}.

Definition serviceStep (e : ServiceEvent) (s : TimeService)
    : TimeService * list UpdateEvent :=
  match e with
  | Started t1 t2 => start t1 t2 s
  | Stopped => stopService s
  | Ticked now => onTick now s
  | Active t1 t2 => if running s then markActivity t1 t2 s else (s, [])
  | EditorChanged e t1 t2 =>
      if running s then onDidChangeActiveTextEditor e t1 t2 s else (s, [])
  end.

Fixpoint runService (es : list ServiceEvent) (s : TimeService) : TimeService :=
  match es with
  | [] => s
  | e :: es' => runService es' (serviceStep e s).1
  end.

(** A run in which no tick finds, as the key of the entry it would
    write, the name of a property of [Object.prototype]. *)
Fixpoint plainRun (es : list ServiceEvent) (s : TimeService) : Prop :=
  match es with
  | [] => True
  | e :: es' =>
      match e with
      | Ticked _ => plainKey (entryKeyFor (config s) (workspaceKeyOf s) (fileKeyOf s))
      | _ => True
      end
      ∧ plainRun es' (serviceStep e s).1
  end.
End service.



(** The readings of the clock that an event brings, in the order in
    which they are taken. *)
Definition readings (e : ServiceEvent) : list Z :=
  match e with
  | Started t1 t2 | Active t1 t2 | EditorChanged _ t1 t2 => [t1; t2]
  | Ticked now => [now]
  | Stopped => []
  end.

(** Sums over the stored data. *)
Definition sumWith {A} (f : A → Z) (m : gmap string A) : Z :=
  map_fold (λ _ a acc, f a + acc) 0 m.

Definition workspaceTotal (w : WorkspaceEntry) : Z :=
  sumWith (λ b, Js.num_or0 (totalSeconds b)) (default ∅ (dates w)).

(** All the seconds in the data, over every workspace and day. *)
Definition grandTotal (d : PersistedData) : Z :=
  sumWith workspaceTotal (default ∅ (workspaceFolders d)).

(** ** The status bar (statusBar.ts) and the dashboard command
    (commands.ts) *)

(** The text that [StatusBar.refresh()] sets, from the session, the
    loaded data and the clock, when nothing throws. *)
Definition refreshText (s : TimeService) (loaded : PersistedData) (now : Z) : string :=
  let summary := getTodaySummaryForWorkspace s loaded (activeWorkspace s) now in
  let total := Js.num_or0 (totalSeconds summary) in
  let human := StatusBar.formatSecondsHuman (JsNum total) in
  let status := if running s then human ++ " (live)" else human in
  "TimeZap: " ++ status.

(** The map of a bucket that the configuration selects. *)
Definition selectedMap (cfg : TimeServiceConfig) (b : DayBucket)
    : option (gmap string Count) :=
  match aggregateBy cfg with
  | file => byFile b
  | folder => byFolder b
  end.

(** The map that 'timezap.showDashboard' posts as today's buckets:
    [buckets || {}]. *)
Definition dashboardBuckets (cfg : TimeServiceConfig) (summary : DayBucket)
    : gmap string Count :=
  default ∅ (selectedMap cfg summary).

(** ** The script of the dashboard page *)

Module Dashboard.

Record BucketsPayload := {
  labels : list string;
  values : list Count;
  formattedLabels : list string
}.

(** [buckets[k] || 0] for a key of the map: an empty string gives way
    to 0. *)
Definition orZero (c : Count) : Count :=
  match c with
  | CStr EmptyString => CNum 0
  | _ => c
  end.

(** The separator of a formatted label: a space, an em dash (three
    bytes in UTF-8) and a space. *)
Definition dash : string :=
  String " " (String (ascii_of_N 226) (String (ascii_of_N 128)
    (String (ascii_of_N 148) (String " " EmptyString)))).

Section engine.
Context {engine : JsEngine}.

(** The number that an entry converts to in [b.v - a.v]; [None] is
    [NaN]. *)
Definition barNumber (c : Count) : option Z :=
  match c with
  | CNum n => Some n
  | CStr s => to_number s
  end.

(** An entry as the formatter sees it. *)
Definition barArgument (c : Count) : JsNumeric :=
  match barNumber c with
  | Some n => JsNum n
  | None => JsOther
  end.

(** The comparison [(a, b) => b.v - a.v] given to [sort]: [a] may stand
    before [b] when it is not smaller; a difference that is [NaN] counts
    as 0. *)
Definition bar_le (a b : string * Count) : Prop :=
  match barNumber (snd a), barNumber (snd b) with
  | Some x, Some y => y - x ≤ 0
  | _, _ => True
  end.

#[global] Instance bar_le_dec : RelDecision bar_le.
Proof.
  intros a b. unfold bar_le.
  destruct (barNumber (snd a)), (barNumber (snd b)); apply _.
Defined.

(** The entries of [buildBucketsPayload], sorted. *)
Definition sortedBars (buckets : gmap string Count) : list (string * Count) :=
  merge_sort bar_le (map (λ kv, (fst kv, orZero (snd kv))) (map_to_list buckets)).

(** [buildBucketsPayload(buckets)] *)
Definition buildBucketsPayload (buckets : gmap string Count) : BucketsPayload :=
  let entries := sortedBars buckets in
  {| labels := map fst entries;
     values := map snd entries;
     formattedLabels :=
       map (λ e, fst e ++ dash ++ Webview.formatSecondsHuman (barArgument (snd e))) entries |}.
End engine.

(** [Math.round(x / 60)] for a whole number [x] of seconds: the nearest
    whole number of minutes, the upper one of two that are equally
    near. *)
Definition roundMinutes (x : Z) : Z := (x + 30) / 60.

(** The points that [renderSeries] plots. *)
Definition seriesMinutes (arr : list SeriesEntry) : list Z :=
  map (λ x, roundMinutes (seconds x)) arr.

(** The label of the tooltip of a point: [formatSecondsHuman] of
    [Math.round(minutes * 60)]. *)
Definition tooltip (minutes : Z) : string :=
  Webview.formatSecondsHuman (JsNum (minutes * 60)).

(** The number that [updateSeriesTotal] formats. *)
Definition seriesTotal (arr : list SeriesEntry) : Z :=
  fold_left (λ acc x, acc + seconds x) arr 0.

End Dashboard.

(** ** Runs of the service *)

(** Readings of the clock that never go back: each is at least the one
    before it, and the first is at least [lo]. *)
Fixpoint clockOrdered (lo : Z) (l : list Z) : bool :=
  match l with
  | [] => true
  | x :: l' => (lo <=? x) && clockOrdered x l'
  end.

Definition isStart (e : ServiceEvent) : bool :=
  match e with
  | Started _ _ => true
  | _ => false
  end.

(** A bucket as the ticks of a service configured with [cfg] leave it:
    its total is the sum of the map that the configuration selects, the
    other map is empty, and every entry has a key that is not empty and
    holds at least one second. *)
Definition countedBy (cfg : TimeServiceConfig) (b : DayBucket) : Prop :=
  ∃ m,
    selectedMap cfg b = Some m
    ∧ totalSeconds b = Some (sumValues m)
    ∧ 1 ≤ sumValues m
    ∧ match aggregateBy cfg with
      | file => byFolder b = Some ∅
      | folder => byFile b = Some ∅
      end
    ∧ map_Forall (λ k c, k ≠ "" ∧ ∃ n, c = CNum n ∧ 1 ≤ n) m.

Definition wellCounted (cfg : TimeServiceConfig) (d : PersistedData) : Prop :=
  ∀ ws day b, lookupBucket d ws day = Some b → ws ≠ "" ∧ countedBy cfg b.

(** ** Commands (commands.ts) *)

Module Commands.

(** 'timezap.resetData', once confirmed: [storage.save({})], up to the
    point where [save] waits. *)
Definition resetData (st : Storage.State) : Storage.State :=
  Storage.save (Json.Obj []) st.

(** The part [today] of the payload that 'timezap.showDashboard' posts,
    from the summary it was given. *)
Record Today := { today_totalSeconds : Z; buckets : gmap string Count }.

Definition showDashboardToday (s : TimeService) (loaded : PersistedData) (now : Z)
    : Today :=
  let summary := getTodaySummaryForWorkspace s loaded None now in
  {| today_totalSeconds := Js.num_or0 (totalSeconds summary);
     buckets := dashboardBuckets (config s) summary |}.

End Commands.

(** ** Reading a date key *)

(** The number that a string of decimal digits spells, after [acc]. *)
Fixpoint digits_value (acc : Z) (s : string) : Z :=
  match s with
  | EmptyString => acc
  | String c rest => digits_value (10 * acc + (Z.of_N (N_of_ascii c) - 48)) rest
  end.

(** The year, the month and the day of the month that a key of the form
    YYYY-MM-DD spells. *)
Definition keyFields (key : string) : Z * Z * Z :=
  (digits_value 0 (String.substring 0 4 key),
   digits_value 0 (String.substring 5 2 key),
   digits_value 0 (String.substring 8 2 key)).

(** [check] holds of the [fuel] integers from [i] on. *)
Fixpoint allFrom (check : Z → bool) (i : Z) (fuel : nat) : bool :=
  match fuel with
  | O => true
  | S fuel' => check i && allFrom check (i + 1) fuel'
  end.

(** The year, the month and the day of the month of a day number, as one
    number: later dates of the calendar have the larger one. *)
Definition dayRank (day : Z) : Z :=
  let c := JsDate.civil_of_day day in
  JsDate.c_year c * 1000000 + JsDate.c_month c * 1000 + JsDate.c_date c.

(** ** The words of the specification, for comparison with the code *)

(** 'The current calendar day' of a clock reading: the date that the
    calendar of the user shows, written as the keys are. *)
Definition calendarDayOf {tz : JsDate.TimeZone} (now : Z) : string :=
  JsDate.iso_date_of_day (JsDate.Day (JsDate.LocalTime now)).

(** 'The top-level folder of the active file relative to the workspace
    root': the first folder on the way from the root down to the file,
    and the root itself, written ['.'], for a file that lies in it. *)
Definition topLevelFolderOf {host : PathHost} (root file : string) : string :=
  match segments path_sep (path_relative root file) "" with
  | top :: _ :: _ => top
  | _ => "."
  end.

(** ** The dashboard page (script of the webview)

    What the page shows: the text of the two lines, the selected range,
    the series it was last sent, and the labels and points of the two
    charts. *)

Module Page.

Inductive RangeKey := R7d | R30d | R1y | RAll.

(** The [data-range] attribute of a button. *)
Definition rangeName (k : RangeKey) : string :=
  match k with
  | R7d => "7d"
  | R30d => "30d"
  | R1y => "1y"
  | RAll => "all"
  end.

(** [seriesData[rangeKey]] *)
Definition rangeOf (k : RangeKey) (r : Ranges) : list SeriesEntry :=
  match k with
  | R7d => range7d r
  | R30d => range30d r
  | R1y => range1y r
  | RAll => rangeAll r
  end.

(** The payload of a 'data' message; either part may be missing. *)
Record Payload := {
  today : option Commands.Today;
  series : option Ranges
}.

Record BucketsChart := { b_labels : list string; b_data : list Count }.

Record SeriesChart := { s_labels : list string; s_data : list Z; s_title : string }.

Record State := {
  (* the text of [#summary] *)
  summaryText : string;
  (* the text of [#seriesTotal] *)
  seriesTotalText : string;
  activeRange : RangeKey;
  (* [window.latestSeries] *)
  latestSeries : option Ranges;
  bucketsChart : option BucketsChart;
  seriesChart : option SeriesChart
}.

(** The horizontal ellipsis, three bytes in UTF-8. *)
Definition ellipsis : string :=
  String (ascii_of_N 226) (String (ascii_of_N 128) (String (ascii_of_N 166) EmptyString)).

(** The page as its HTML and the first run of the script leave it. *)
Definition initial : State :=
  {| summaryText := "Loading" ++ ellipsis;
     seriesTotalText := "Total (selected range): Loading" ++ ellipsis;
     activeRange := RAll;
     latestSeries := None;
     bucketsChart := None;
     seriesChart := None |}.

Section page.
Context {engine : JsEngine}.

(** [renderBuckets(payload)]: the chart is made or updated, with the
    same labels and points either way. *)
Definition renderBuckets (t : Commands.Today) (st : State) : State :=
  let prepared := Dashboard.buildBucketsPayload (Commands.buckets t) in
  {| summaryText := summaryText st; seriesTotalText := seriesTotalText st;
     activeRange := activeRange st; latestSeries := latestSeries st;
     bucketsChart :=
       Some {| b_labels := Dashboard.formattedLabels prepared;
               b_data := Dashboard.values prepared |};
     seriesChart := seriesChart st |}.

(** [renderSeries(rangeKey, seriesData)] *)
Definition renderSeries (k : RangeKey) (r : Ranges) (st : State) : State :=
  let arr := rangeOf k r in
  let title :=
    match k with
    | RAll => "All time (days)"
    | _ => rangeName k ++ " (days)"
    end in
  {| summaryText := summaryText st; seriesTotalText := seriesTotalText st;
     activeRange := activeRange st; latestSeries := latestSeries st;
     bucketsChart := bucketsChart st;
     seriesChart :=
       Some {| s_labels := map date arr;
               s_data := Dashboard.seriesMinutes arr;
               s_title := title |} |}.

(** [updateSeriesTotal(rangeKey, seriesData)] *)
Definition updateSeriesTotal (k : RangeKey) (r : Ranges) (st : State) : State :=
  {| summaryText := summaryText st;
     seriesTotalText :=
       (("Total (" ++ rangeName k) ++ "): ")
       ++ Webview.formatSecondsHuman (JsNum (Dashboard.seriesTotal (rangeOf k r)));
     activeRange := activeRange st; latestSeries := latestSeries st;
     bucketsChart := bucketsChart st; seriesChart := seriesChart st |}.

(** The handler of a 'data' message; [None] is a message without a
    payload. *)
Definition onData (p : option Payload) (st : State) : State :=
  let payload := default {| today := None; series := None |} p in
  let t := default {| Commands.today_totalSeconds := 0; Commands.buckets := ∅ |}
             (today payload) in
  let st1 :=
    {| summaryText :=
         "Total today: "
         ++ Webview.formatSecondsHuman (JsNum (Commands.today_totalSeconds t));
       seriesTotalText := seriesTotalText st;
       activeRange := activeRange st; latestSeries := latestSeries st;
       bucketsChart := bucketsChart st; seriesChart := seriesChart st |} in
  let st2 := renderBuckets t st1 in
  let st3 :=
    {| summaryText := summaryText st2; seriesTotalText := seriesTotalText st2;
       activeRange := activeRange st2; latestSeries := series payload;
       bucketsChart := bucketsChart st2; seriesChart := seriesChart st2 |} in
  match series payload with
  | Some r => renderSeries (activeRange st3) r st3
  | None =>
      match seriesChart st3 with
      | Some c =>
          {| summaryText := summaryText st3; seriesTotalText := seriesTotalText st3;
             activeRange := activeRange st3; latestSeries := latestSeries st3;
             bucketsChart := bucketsChart st3;
             seriesChart := Some {| s_labels := []; s_data := []; s_title := s_title c |} |}
      | None => st3
      end
  end.

(** The click handler of the button of range [k]. *)
Definition onClick (k : RangeKey) (st : State) : State :=
  let st1 :=
    {| summaryText := summaryText st; seriesTotalText := seriesTotalText st;
       activeRange := k; latestSeries := latestSeries st;
       bucketsChart := bucketsChart st; seriesChart := seriesChart st |} in
  match latestSeries st1 with
  | Some r => updateSeriesTotal k r (renderSeries k r st1)
  | None => st1
  end.

Inductive Event :=
  | Data (p : option Payload)
  | Click (k : RangeKey).

Definition step (e : Event) (st : State) : State :=
  match e with
  | Data p => onData p st
  | Click k => onClick k st
  end.

Fixpoint run (es : list Event) (st : State) : State :=
  match es with
  | [] => st
  | e :: es' => run es' (step e st)
  end.

(** What 'timezap.showDashboard' posts, as the page receives it. *)
Definition posted (t : Commands.Today) (r : Ranges) : option Payload :=
  Some {| today := Some t; series := Some r |}.

End page.

End Page.

(** * Properties *)

(** ** Accumulation *)

Lemma sumValues_empty : sumValues ∅ = 0.
Proof. unfold sumValues. by rewrite map_fold_empty. Qed.

Lemma sumValues_insert_fresh (m : gmap string Count) k v :
  m !! k = None → sumValues (<[k := v]> m) = countValue v + sumValues m.
Proof.
  intros Hk. unfold sumValues.
  rewrite map_fold_insert_L; [done | | done].
  intros. lia.
Qed.

(** Writing an entry changes the sum by what the entry gains. *)
Lemma sumValues_insert (m : gmap string Count) k v :
  sumValues (<[k := v]> m)
  = sumValues m - from_option countValue 0 (m !! k) + countValue v.
Proof.
  destruct (m !! k) as [c|] eqn:Hk; simpl.
  - rewrite <- (insert_delete_eq m k v).
    rewrite sumValues_insert_fresh by apply lookup_delete_eq.
    rewrite <- (insert_id m k c) at 2 by done.
    rewrite <- (insert_delete_eq m k c).
    rewrite sumValues_insert_fresh by apply lookup_delete_eq.
    lia.
  - rewrite sumValues_insert_fresh by done. lia.
Qed.

Lemma allNumbers_insert (m : gmap string Count) k n :
  allNumbers m → allNumbers (<[k := CNum n]> m).
Proof. intros Hm. apply map_Forall_insert_2; eauto. Qed.

Lemma allNumbers_empty : allNumbers ∅.
Proof. apply map_Forall_empty. Qed.

Section tick.
Context {host : PathHost}.

Lemma lookupBucket_accumulate cfg ws fk day δ d :
  lookupBucket (accumulate cfg ws fk day δ d) ws day
  = Some (addDelta cfg ws fk δ (bucketOrEmpty d ws day)).
Proof.
  unfold lookupBucket, accumulate, bucketOrEmpty, lookupBucket. simpl.
  rewrite lookup_insert_eq. simpl. rewrite lookup_insert_eq.
  do 2 f_equal.
  destruct (workspaceFolders d) as [wfs|]; simpl; [|done].
  destruct (wfs !! ws) as [w|]; simpl; [|done].
  by destruct (dates w).
Qed.

Lemma lookupBucket_accumulate_other cfg ws fk day δ d ws' day' :
  (ws', day') ≠ (ws, day) →
  lookupBucket (accumulate cfg ws fk day δ d) ws' day' = lookupBucket d ws' day'.
Proof.
  intros Hne. unfold lookupBucket, accumulate. simpl.
  destruct (decide (ws' = ws)) as [->|Hws].
  - assert (day' ≠ day) as Hday by congruence.
    rewrite lookup_insert_eq. simpl. rewrite lookup_insert_ne by done.
    destruct (workspaceFolders d) as [wfs|]; simpl; [|done].
    destruct (wfs !! ws) as [w|]; simpl; [|done].
    by destruct (dates w).
  - rewrite lookup_insert_ne by done.
    by destruct (workspaceFolders d).
Qed.

Lemma onTick_not_running now s : running s = false → onTick now s = (s, []).
Proof. intros H. unfold onTick. by rewrite H. Qed.

Lemma onTick_idle now s :
  running s = true →
  idleTimeoutSeconds (config s) * 1000 ≤ now - lastActivity s →
  onTick now s
  = (set_lastTick now (set_idle true s), if idle s then [] else [UpdIdle true]).
Proof.
  intros Hr Hi. unfold onTick, idleCondition. rewrite Hr. simpl.
  by rewrite (proj2 (Z.leb_le _ _) Hi).
Qed.

Lemma onTick_short now s :
  running s = true →
  now - lastActivity s < idleTimeoutSeconds (config s) * 1000 →
  now - lastTick s < 1000 →
  onTick now s = (s, []).
Proof.
  intros Hr Hi Hd. unfold onTick, idleCondition. rewrite Hr. simpl.
  rewrite (proj2 (Z.leb_gt _ _) Hi).
  assert ((now - lastTick s) / 1000 ≤ 0) as Hle.
  { assert ((now - lastTick s) / 1000 < 1); [|lia].
    apply Z.div_lt_upper_bound; lia. }
  by rewrite (proj2 (Z.leb_le _ _) Hle).
Qed.

Lemma onTick_active now s :
  running s = true →
  now - lastActivity s < idleTimeoutSeconds (config s) * 1000 →
  1000 ≤ now - lastTick s →
  (onTick now s).1
  = set_data (accumulate (config s) (workspaceKeyOf s) (fileKeyOf s) (dateKeyFor now)
                ((now - lastTick s) / 1000) (data s))
      (set_lastTick now s).
Proof.
  intros Hr Hi Hd. unfold onTick, idleCondition. rewrite Hr. simpl.
  rewrite (proj2 (Z.leb_gt _ _) Hi).
  assert (1 ≤ (now - lastTick s) / 1000) as Hge.
  { apply Z.div_le_lower_bound; lia. }
  assert (0 < (now - lastTick s) / 1000) as Hgt by lia.
  by rewrite (proj2 (Z.leb_gt _ _) Hgt).
Qed.
End tick.

Section tick_claims.
Context {host : PathHost}.

(** Where the entry is read as a number, the tick writes that number
    plus [δ]. *)
Lemma assigned_bumped m k δ n :
  entryNumber m k = Some n → assigned m k (bumped m k δ) = <[k := CNum (n + δ)]> m.
Proof.
  unfold entryNumber, assigned, bumped. intros Hn.
  destruct (m !! k) as [[x|[|c str]]|] eqn:Hk; simplify_eq; try done.
  case_decide as Hp; [|done]. destruct Hp as [Hi Hs]. simplify_eq.
  by rewrite Hi, Hs.
Qed.

Lemma entryNumber_numbers m k :
  allNumbers m → plainKey k →
  entryNumber m k = Some (from_option countValue 0 (m !! k)).
Proof.
  intros Hm Hp. unfold entryNumber.
  destruct (m !! k) as [c|] eqn:Hk; simpl.
  - destruct (Hm k c Hk) as [n ->]. done.
  - by rewrite decide_True.
Qed.

Lemma selectedMap_addDelta cfg ws fk δ b :
  selectedMap cfg (addDelta cfg ws fk δ b)
  = (λ m, assigned m (entryKeyFor cfg ws fk) (bumped m (entryKeyFor cfg ws fk) δ))
      <$> selectedMap cfg b.
Proof. unfold selectedMap, addDelta, entryKeyFor. by destruct (aggregateBy cfg). Qed.

Lemma addDelta_balanced cfg ws fk δ b :
  plainKey (entryKeyFor cfg ws fk) →
  bucketBalanced b → bucketBalanced (addDelta cfg ws fk δ b).
Proof.
  unfold bucketBalanced, addDelta, entryKeyFor.
  intros Hp (files & folders & Hf & Hd & Hnf & Hnd & Ht).
  pose proof (assigned_bumped _ _ δ _ (entryNumber_numbers _ _ Hnf Hp)) as Hfiles.
  pose proof (assigned_bumped _ _ δ _ (entryNumber_numbers _ _ Hnd Hp)) as Hfolders.
  destruct (aggregateBy cfg); simpl; rewrite Hf, Hd, Ht; simpl;
    [rewrite Hfolders|rewrite Hfiles];
    eexists _, _; (split; [done|]); (split; [done|]);
    (split; [done || by apply allNumbers_insert|]);
    (split; [done || by apply allNumbers_insert|]);
    rewrite sumValues_insert; simpl; f_equal; lia.
Qed.

Lemma emptyBucket_balanced : bucketBalanced emptyBucket.
Proof.
  exists ∅, ∅. simpl. rewrite sumValues_empty.
  repeat split; try done; apply allNumbers_empty.
Qed.

Lemma workspaceKeyOf_none s : activeWorkspace s = None → workspaceKeyOf s = "untitled".
Proof. unfold workspaceKeyOf. by intros ->. Qed.

(** X29. A tick whose key names no property of [Object.prototype]
    keeps the balance: every bucket whose total is the sum of the
    numbers in its two maps is such a bucket after the tick, and the
    bucket that the tick creates is one. *)
Theorem onTick_keeps_balance (now : Z) (s : TimeService) :
  plainKey (entryKeyFor (config s) (workspaceKeyOf s) (fileKeyOf s)) →
  ∀ ws day b',
    from_option bucketBalanced True (lookupBucket (data s) ws day) →
    lookupBucket (data (onTick now s).1) ws day = Some b' →
    bucketBalanced b'.
Proof.
  intros Hp ws day b' Hb.
  destruct (running s) eqn:Hr;
    [|rewrite onTick_not_running by done; simpl; intros H; by rewrite H in Hb].
  destruct (Z_le_gt_dec (idleTimeoutSeconds (config s) * 1000) (now - lastActivity s)) as [Hi|Hi].
  { rewrite onTick_idle by done. simpl. intros H; by rewrite H in Hb. }
  destruct (Z_lt_ge_dec (now - lastTick s) 1000) as [Hd|Hd].
  { rewrite onTick_short by (done || lia). simpl. intros H; by rewrite H in Hb. }
  rewrite onTick_active by (done || lia). simpl.
  destruct (decide ((ws, day) = (workspaceKeyOf s, dateKeyFor now))) as [[= -> ->]|Hne].
  - rewrite lookupBucket_accumulate. intros [= <-].
    apply addDelta_balanced; [done|]. unfold bucketOrEmpty.
    destruct (lookupBucket (data s) _ _); [done|apply emptyBucket_balanced].
  - rewrite lookupBucket_accumulate_other by done. intros H; by rewrite H in Hb.
Qed.

(** C2, as the code has it. A tick of a running service leaves the
    session idle exactly when it was idle already or at least
    [idleTimeoutSeconds] seconds have passed since the last activity, so
    at exactly that many seconds the session is idle; recorded activity
    clears the idle state. *)
Theorem onTick_idle_iff (now : Z) (s : TimeService) :
  running s = true →
  (idle (onTick now s).1 = true
   ↔ idle s = true ∨ idleTimeoutSeconds (config s) * 1000 ≤ now - lastActivity s)
  ∧ (∀ t1 t2, idle (markActivity t1 t2 s).1 = false)
  ∧ idleTimeoutSeconds defaultConfig = 300.
Proof.
  intros Hr. split; [|split; [|done]].
  - destruct (Z_le_gt_dec (idleTimeoutSeconds (config s) * 1000) (now - lastActivity s)) as [Hi|Hi].
    + rewrite onTick_idle by done. simpl. tauto.
    + destruct (Z_lt_ge_dec (now - lastTick s) 1000) as [Hd|Hd].
      * rewrite onTick_short by (done || lia). split; [auto|]. intros [?|?]; [done|lia].
      * rewrite onTick_active by (done || lia). simpl. split; [auto|]. intros [?|?]; [done|lia].
  - intros t1 t2. unfold markActivity. simpl. by destruct (idle s) eqn:E.
Qed.

(** C3. A tick taken while the idle condition holds changes nothing but
    [lastTick], which becomes the time of the tick, and the idle flag,
    which is set; the data is as it was. When activity resumes, [lastTick]
    restarts at the time of the activity, so the next tick adds the
    whole seconds since the activity and nothing of the time before. *)
Theorem onTick_idle_frame (now : Z) (s : TimeService) :
  running s = true →
  idleTimeoutSeconds (config s) * 1000 ≤ now - lastActivity s →
  let s1 := (onTick now s).1 in
  data s1 = data s
  ∧ lastTick s1 = now
  ∧ idle s1 = true
  ∧ s1 = set_lastTick now (set_idle true s)
  ∧ ∀ t1 t2 t3,
      let s2 := (markActivity t1 t2 s1).1 in
      data s2 = data s
      ∧ lastTick s2 = t2
      ∧ data (onTick t3 s2).1
        = if decide (t3 - t1 < idleTimeoutSeconds (config s) * 1000 ∧ 1000 ≤ t3 - t2)
          then accumulate (config s) (workspaceKeyOf s) (fileKeyOf s) (dateKeyFor t3)
                 ((t3 - t2) / 1000) (data s)
          else data s.
Proof.
  intros Hr Hi s1. subst s1. rewrite onTick_idle by done. simpl.
  do 4 (split; [done|]).
  intros t1 t2 t3. unfold markActivity. simpl.
  do 2 (split; [done|]).
  set (s2 := set_lastTick t2 (set_idle false (set_lastActivity t1 (set_lastTick now (set_idle true s))))).
  case_decide as Hc.
  - destruct Hc as [Hc1 Hc2]. rewrite onTick_active by done. done.
  - destruct (Z_le_gt_dec (idleTimeoutSeconds (config s2) * 1000) (t3 - lastActivity s2)) as [Hi'|Hi'].
    + rewrite onTick_idle; done.
    + destruct (Z_lt_ge_dec (t3 - lastTick s2) 1000) as [Hd|Hd].
      * rewrite onTick_short; [done|done|lia|lia].
      * exfalso. apply Hc. simpl in *. lia.
Qed.

End tick_claims.

Lemma onTick_keeps_balance_witness :
  ∃ b', lookupBucket (data (@onTick posixHost 9000 (@onTick posixHost 2500 exampleService).1).1)
          "untitled" "1970-01-01" = Some b'
        ∧ bucketBalanced b'.
Proof.
  pose (s1 := (@onTick posixHost 2500 exampleService).1).
  pose (b := {| totalSeconds := Some 2; byFile := Some ∅;
                byFolder := Some {["." := CNum 2]} |}).
  assert (bucketBalanced b) as Hb.
  { exists ∅, {["." := CNum 2]}. split; [done|]. split; [done|].
    split; [apply allNumbers_empty|]. split; [apply map_Forall_singleton; eauto|].
    vm_compute. reflexivity. }
  exists {| totalSeconds := Some 8; byFile := Some ∅;
            byFolder := Some {["." := CNum 8]} |}.
  assert (lookupBucket (data (@onTick posixHost 9000 s1).1) "untitled" "1970-01-01"
          = Some {| totalSeconds := Some 8; byFile := Some ∅;
                    byFolder := Some {["." := CNum 8]} |}) as Hlook
    by (vm_compute; reflexivity).
  split; [exact Hlook|].
  apply (onTick_keeps_balance (host := posixHost) 9000 s1
           (conj eq_refl eq_refl) "untitled" "1970-01-01" _ Hb Hlook).
Defined.

(** C2, as the specification words it, fails: with the default timeout
    and the last activity at time 0, the tick at exactly 300 seconds
    marks the session idle. *)
Lemma idle_at_exact_timeout :
  ¬ (∀ (host : PathHost) (now : Z) (s : TimeService),
       running s = true → idle s = false →
       (idle (onTick now s).1 = true
        ↔ idleTimeoutSeconds (config s) * 1000 < now - lastActivity s)).
Proof.
  intros H.
  destruct (H posixHost 300000 exampleService eq_refl eq_refl) as [Hlt _].
  specialize (Hlt eq_refl). vm_compute in Hlt. discriminate.
Qed.

Lemma onTick_idle_iff_witness :
  idle (@onTick posixHost 300000 exampleService).1 = true
  ∧ idle (@onTick posixHost 299999 exampleService).1 = false
  ∧ idle (markActivity 300001 300001 (@onTick posixHost 300000 exampleService).1).1 = false.
Proof.
  split; [|split].
  - apply (proj1 (onTick_idle_iff (host := posixHost) 300000 exampleService eq_refl)).
    right. vm_compute. congruence.
  - reflexivity.
  - apply (proj1 (proj2 (onTick_idle_iff (host := posixHost) 300000
                           (@onTick posixHost 300000 exampleService).1 eq_refl))).
Defined.

Lemma onTick_idle_frame_witness :
  data (@onTick posixHost 300000 exampleService).1 = data exampleService
  ∧ lastTick (@onTick posixHost 300000 exampleService).1 = 300000.
Proof.
  destruct (onTick_idle_frame (host := posixHost) 300000 exampleService)
    as (Hdata & Htick & _); [reflexivity | vm_compute; congruence |].
  split; assumption.
Defined.

(** ** The formatter *)

Lemma string_append_assoc (a b c : string) : (a ++ b) ++ c = a ++ b ++ c.
Proof.
  induction a as [|x a IH]; [done|].
  change (String x ((a ++ b) ++ c) = String x (a ++ b ++ c)). by f_equal.
Qed.

Lemma formatSecondsHuman_nonpositive n :
  n ≤ 0 → StatusBar.formatSecondsHuman (JsNum n) = "0s".
Proof.
  intros Hn. unfold StatusBar.formatSecondsHuman. simpl.
  destruct (n =? 0) eqn:E0; [done|].
  by rewrite (proj2 (Z.leb_le _ _) Hn).
Qed.

Lemma formatSecondsHuman_positive n :
  0 < n →
  StatusBar.formatSecondsHuman (JsNum n)
  = if 0 <? n / 3600 then
      Js.num_to_string (n / 3600) ++ "h " ++ Js.num_to_string (n mod 3600 / 60) ++ "m"
    else if 0 <? n mod 3600 / 60 then
      Js.num_to_string (n mod 3600 / 60) ++ "m " ++ Js.num_to_string (n mod 60) ++ "s"
    else Js.num_to_string (n mod 60) ++ "s".
Proof.
  intros Hn. unfold StatusBar.formatSecondsHuman. simpl.
  rewrite (proj2 (Z.eqb_neq _ _)) by lia.
  rewrite (proj2 (Z.leb_gt _ _)) by lia. simpl.
  by rewrite !Z.rem_mod_nonneg by lia.
Qed.

(** C9, as the code has it. The formatter gives ['0s'] for a number
    that is zero or less, for [NaN] and for a missing value; for a whole
    number of seconds up to 2^53 - 1, hours and minutes from 3600 seconds
    on, minutes and seconds from 60 to 3599, seconds below 60. The copy
    in the dashboard script gives the same string for every value. *)
Theorem formatSecondsHuman_spec :
  (∀ n, n ≤ 0 → StatusBar.formatSecondsHuman (JsNum n) = "0s")
  ∧ StatusBar.formatSecondsHuman JsNaN = "0s"
  ∧ StatusBar.formatSecondsHuman JsUndefined = "0s"
  ∧ (∀ n, 3600 ≤ n ≤ 9007199254740991 →
       StatusBar.formatSecondsHuman (JsNum n)
       = Js.num_to_string (n / 3600) ++ "h " ++ Js.num_to_string (n mod 3600 / 60) ++ "m")
  ∧ (∀ n, 60 ≤ n < 3600 →
       StatusBar.formatSecondsHuman (JsNum n)
       = Js.num_to_string (n mod 3600 / 60) ++ "m " ++ Js.num_to_string (n mod 60) ++ "s")
  ∧ (∀ n, 0 < n < 60 →
       StatusBar.formatSecondsHuman (JsNum n) = Js.num_to_string n ++ "s")
  ∧ (∀ s, Webview.formatSecondsHuman s = StatusBar.formatSecondsHuman s).
Proof.
  split; [apply formatSecondsHuman_nonpositive|].
  do 2 (split; [reflexivity|]).
  split; [|split; [|split]].
  - intros n [Hn _]. rewrite formatSecondsHuman_positive by lia.
    assert (1 ≤ n / 3600) by (apply Z.div_le_lower_bound; lia).
    by rewrite (proj2 (Z.ltb_lt _ _)) by lia.
  - intros n [Hlo Hhi]. rewrite formatSecondsHuman_positive by lia.
    rewrite (Z.div_small n 3600) by lia. simpl.
    rewrite (Z.mod_small n 3600) by lia.
    assert (1 ≤ n / 60) by (apply Z.div_le_lower_bound; lia).
    by rewrite (proj2 (Z.ltb_lt _ _)) by lia.
  - intros n [Hlo Hhi]. rewrite formatSecondsHuman_positive by lia.
    rewrite (Z.div_small n 3600) by lia. simpl.
    rewrite (Z.mod_small n 3600) by lia.
    rewrite (Z.div_small n 60) by lia. simpl.
    by rewrite (Z.mod_small n 60) by lia.
  - intros s. unfold Webview.formatSecondsHuman, StatusBar.formatSecondsHuman.
    destruct (falsy s || le_zero s); [done|].
    destruct s; [|done|done|done].
    repeat case_match; by rewrite ?string_append_assoc.
Qed.

(** C9, as the specification words it, fails: for a value that is not a
    number and not falsy, such as the text that a folder named
    ['constructor'] leaves in its entry, both copies give ['NaNs']. *)
Lemma formatSecondsHuman_of_text :
  ¬ (∀ s, (∀ n, s ≠ JsNum n) → StatusBar.formatSecondsHuman s = "0s")
  ∧ StatusBar.formatSecondsHuman JsOther = "NaNs"
  ∧ Webview.formatSecondsHuman JsOther = "NaNs".
Proof.
  split; [|done].
  intros H. specialize (H JsOther). by discriminate H.
Qed.

Example formatSecondsHuman_of_bar :
  Webview.formatSecondsHuman
    (@Dashboard.barArgument nodeEngine (CStr "function Object() { [native code] }2"))
  = "NaNs".
Proof. reflexivity. Qed.

Lemma formatSecondsHuman_witness :
  StatusBar.formatSecondsHuman (JsNum 3725) = "1h 2m"
  ∧ StatusBar.formatSecondsHuman (JsNum 125) = "2m 5s"
  ∧ Webview.formatSecondsHuman (JsNum 59) = "59s".
Proof.
  destruct formatSecondsHuman_spec as (_ & _ & _ & Hh & Hm & Hs & Hw).
  split; [|split].
  - rewrite (Hh 3725) by lia. reflexivity.
  - rewrite (Hm 125) by lia. reflexivity.
  - rewrite Hw, (Hs 59) by lia. reflexivity.
Defined.

(** ** Storage: the debounced save *)

Module StorageFacts.
Import Storage.

Lemma filter_other_nil (t : nat) :
  List.filter (λ t', negb (Nat.eqb t' t)) [t] = [].
Proof. simpl. by rewrite Nat.eqb_refl. Qed.

Lemma quiet_init store : quiet None (init store).
Proof. split; [done|by left]. Qed.

(** A [save] replaces the timer of the save before it. *)
Lemma quiet_save last d st : quiet last st → quiet (Some d) (save d st).
Proof.
  intros [Haw Harm]. split; [done|]. right.
  exists (nextTimer st), d. unfold save. simpl.
  destruct Harm as [Hnil|(t & d0 & Harm & Hst & _)].
  - rewrite Hnil. by destruct (saveTimer st).
  - rewrite Hst, Harm, filter_other_nil. done.
Qed.

(** In a quiet state the timer that fires writes the data of the last
    [save], and once its [update] has settled the state is quiet again. *)
Lemma quiet_fire last t st st' :
  quiet last st → timer_fires t st = Some st' →
  ∃ d, last = Some d
       ∧ written st' = (written st ++ [Some d])%list
       ∧ globalState st' = <[key := d]> (globalState st)
       ∧ ∃ st'', update_settles t st' = Some st'' ∧ quiet last st''
                 ∧ written st'' = written st' ∧ globalState st'' = globalState st'
                 ∧ resolved st'' = (resolved st ++ [t])%list.
Proof.
  intros [Haw Harm]. unfold timer_fires. case_bool_decide as Hin; [|done].
  intros [= <-].
  destruct Harm as [Hnil|(t0 & d & Harm & Hst & Hpd & Hlast)].
  { rewrite Hnil in Hin. by apply elem_of_nil in Hin. }
  rewrite Harm in Hin. apply list_elem_of_singleton in Hin as ->.
  exists d. simpl. rewrite Hpd. simpl.
  do 3 (split; [done|]).
  unfold update_settles. simpl. rewrite Haw. simpl.
  rewrite bool_decide_eq_true_2 by apply list_elem_of_here.
  eexists. split; [done|]. simpl. rewrite Nat.eqb_refl. simpl.
  repeat split. left. by rewrite Harm, filter_other_nil.
Qed.

Lemma run_app es1 es2 st :
  run (es1 ++ es2) st = run es1 st ≫= run es2.
Proof.
  revert st. induction es1 as [|e es1 IH]; intros st; [done|].
  simpl. destruct (step e st) as [st'|]; simpl; [apply IH|done].
Qed.

(** Along a trace without overlapping writes every value written is the
    data of the [save] called last before the write. *)
Lemma quiet_run (acts : list Action) (last : option Json.value) (st st' : State) :
  quiet last st →
  run (concat (map events acts)) st = Some st' →
  quiet (lastSaveOf acts last) st'
  ∧ written st' = (written st ++ expectedWrites acts last)%list
  ∧ Forall is_Some (expectedWrites acts last).
Proof.
  revert last st. induction acts as [|[d|t] acts IH]; intros last st Hq Hrun.
  - injection Hrun as <-. simpl. by rewrite app_nil_r.
  - simpl in Hrun. apply (IH (Some d)) in Hrun; [|by eapply quiet_save].
    simpl. done.
  - cbn [map concat events] in Hrun. rewrite run_app in Hrun.
    cbn [run step] in Hrun.
    destruct (timer_fires t st) as [st1|] eqn:Hfire; [|done].
    destruct (quiet_fire _ _ _ _ Hq Hfire)
      as (d & -> & Hw & _ & st2 & Hsettle & Hq2 & Hw2 & _).
    cbn [mbind option_bind] in Hrun. rewrite Hsettle in Hrun.
    cbn [mbind option_bind] in Hrun.
    apply (IH (Some d)) in Hrun as (Hq' & Hw' & Hall); [|done].
    cbn [lastSaveOf expectedWrites]. split; [done|]. split.
    + rewrite Hw', Hw2, Hw. by rewrite <- app_assoc.
    + by constructor.
Qed.

(** After a [save] in a quiet state its timer is the only one armed. *)
Lemma armed_save last d st : quiet last st → armed (save d st) = [nextTimer st].
Proof.
  intros [_ [Hnil|(t & d0 & Harm & Hst & _)]]; unfold save; simpl.
  - rewrite Hnil. by destruct (saveTimer st).
  - by rewrite Hst, Harm, filter_other_nil.
Qed.

(** A second [save] within the delay cancels the write of the first. *)
Lemma save_supersedes d1 d2 store :
  let st := save d2 (save d1 (init store)) in
  timer_fires 0 st = None
  ∧ ∃ st', timer_fires 1 st = Some st' ∧ written st' = [Some d2].
Proof. simpl. split; [done|]. eexists. split; done. Qed.

End StorageFacts.

(** C7. The code departs from the claim when a [save] arrives while the
    write of an earlier one is in flight: the earlier callback then
    clears [pendingData], and the timer of the later [save] writes
    [undefined], which removes the stored data; the data of the later
    [save] is never written. *)
Theorem save_during_write_loses_data (d1 d3 : Json.value)
    (store : gmap string Json.value) :
  let trace :=
    [Storage.Save d1; Storage.TimerFires 0; Storage.Save d3;
     Storage.UpdateSettles 0; Storage.TimerFires 1] in
  ∃ st,
    Storage.run trace (Storage.init store) = Some st
    ∧ Storage.lastSaved trace None = Some d3
    ∧ Storage.written st = [Some d1; None]
    ∧ Storage.globalState st !! Storage.key = None.
Proof.
  simpl. eexists. split; [reflexivity|]. simpl.
  do 2 (split; [reflexivity|]).
  by rewrite lookup_delete_eq.
Qed.

(** ** The shape of the stored data *)

Lemma json_get_encoded {A} (f : A → Json.value) (l : list (string * A)) (k : string) :
  Json.get k (map (λ kv, (kv.1, f kv.2)) l)
  = f <$> ((list_to_map l : gmap string A) !! k).
Proof.
  induction l as [|[k' v] l IH]; simpl; [by rewrite lookup_empty|].
  destruct (String.eqb_spec k k') as [->|Hne].
  - by rewrite lookup_insert_eq.
  - by rewrite lookup_insert_ne.
Qed.

Lemma json_get_encoded_map {A} (f : A → Json.value) (m : gmap string A) (k : string) :
  Json.get k (map (λ kv, (kv.1, f kv.2)) (map_to_list m)) = f <$> (m !! k).
Proof. by rewrite json_get_encoded, list_to_map_to_list. Qed.

(** Reading the total of a day through the stored value. *)
Lemma get_path_total d ws day b :
  lookupBucket d ws day = Some b →
  Json.get_path ["workspaceFolders"; ws; "dates"; day; "totalSeconds"] (encodeData d)
  = Json.Num <$> totalSeconds b.
Proof.
  unfold lookupBucket, encodeData. intros H.
  destruct (workspaceFolders d) as [wfs|]; simpl in *; [|done].
  rewrite json_get_encoded_map.
  destruct (wfs !! ws) as [w|]; simpl in *; [|done].
  destruct (dates w) as [ds|]; simpl in *; [|done].
  rewrite json_get_encoded_map. rewrite H. simpl.
  by destruct (totalSeconds b), (byFile b), (byFolder b).
Qed.

Lemma encodeData_not_flat d :
  workspaceFolders d ≠ None → Json.is_flat (encodeData d) = false.
Proof. unfold encodeData. by destruct (workspaceFolders d). Qed.

(** C10, as the specification words it, fails: after one tick the stored
    value has an object under its only key. *)
Lemma data_not_flat :
  ¬ (∀ (host : PathHost) (now : Z) (s : TimeService),
       Json.is_flat (encodeData (data (onTick now s).1)) = true).
Proof.
  intros H. specialize (H posixHost 2500 exampleService).
  vm_compute in H. discriminate.
Qed.

(** C10, as the code has it. The state is a nested map: after a tick that
    accumulates, the total of the day lies four objects deep, under
    [workspaceFolders], the workspace key, [dates] and the day key, and
    the stored value is not flat. *)
Theorem data_is_nested {host : PathHost} (now : Z) (s : TimeService) :
  running s = true →
  now - lastActivity s < idleTimeoutSeconds (config s) * 1000 →
  1000 ≤ now - lastTick s →
  let d' := data (onTick now s).1 in
  let total :=
    Js.num_or0 (totalSeconds (bucketOrEmpty (data s) (workspaceKeyOf s) (dateKeyFor now)))
    + (now - lastTick s) / 1000 in
  Json.get_path ["workspaceFolders"; workspaceKeyOf s; "dates"; dateKeyFor now; "totalSeconds"]
    (encodeData d')
  = Some (Json.Num total)
  ∧ Json.is_flat (encodeData d') = false.
Proof.
  intros Hr Hi Hd d' total. subst d' total.
  rewrite onTick_active by done. cbn [data set_data]. split.
  - rewrite (get_path_total _ _ _ _ (lookupBucket_accumulate _ _ _ _ _ _)).
    unfold addDelta. by destruct (aggregateBy (config s)).
  - by apply encodeData_not_flat.
Qed.

Lemma data_is_nested_witness :
  Json.get_path ["workspaceFolders"; "untitled"; "dates"; "1970-01-01"; "totalSeconds"]
    (encodeData (data (@onTick posixHost 2500 exampleService).1))
  = Some (Json.Num 2).
Proof.
  exact (proj1 (data_is_nested (host := posixHost) 2500 exampleService
                  eq_refl eq_refl ltac:(vm_compute; congruence))).
Defined.

(** ** Time series *)

Module JsDateFacts.
Import JsDate.

(** The month and the day of the month of a day number are in range. *)
Lemma civil_of_day_ranges day :
  1 ≤ c_month (civil_of_day day) ≤ 12 ∧ 1 ≤ c_date (civil_of_day day) ≤ 31.
Proof.
  unfold civil_of_day. simpl.
  set (z := day + 719468). set (doe := z - z / 146097 * 146097).
  assert (0 ≤ doe < 146097) as Hdoe.
  { unfold doe. pose proof (Z.mod_pos_bound z 146097). rewrite Z.mod_eq in H by lia. lia. }
  clearbody doe. clear z.
  destruct ((5 * (doe - (365 * ((doe - doe / 1460 + doe / 36524 - doe / 146096) / 365)
      + (doe - doe / 1460 + doe / 36524 - doe / 146096) / 365 / 4
      - (doe - doe / 1460 + doe / 36524 - doe / 146096) / 365 / 100)) + 2) / 153 <? 10) eqn:E;
    [apply Z.ltb_lt in E|apply Z.ltb_ge in E];
    Z.to_euclidean_division_equations; lia.
Qed.

(** The day number of a civil date that came from a day number, moved
    by [k] days. *)
Lemma day_of_civil_of_day day k :
  let c := civil_of_day day in
  day_of_civil (c_year c) (c_month c) (c_date c + k) = day + k.
Proof.
  unfold civil_of_day, day_of_civil. simpl.
  assert (∃ era doe, day + 719468 = era * 146097 + doe ∧ 0 ≤ doe < 146097
                     ∧ (day + 719468) / 146097 = era) as (era & doe & Hz & Hdoe & Hera).
  { exists ((day + 719468) / 146097), ((day + 719468) mod 146097).
    pose proof (Z.div_mod (day + 719468) 146097 ltac:(done)).
    pose proof (Z.mod_pos_bound (day + 719468) 146097 ltac:(done)). lia. }
  rewrite Hera. replace (day + 719468 - era * 146097) with doe by lia.
  set (yoe := (doe - doe / 1460 + doe / 36524 - doe / 146096) / 365).
  set (doy := doe - (365 * yoe + yoe / 4 - yoe / 100)).
  set (mp := (5 * doy + 2) / 153).
  assert (0 ≤ yoe ≤ 399 ∧ 0 ≤ doy ≤ 365 ∧ 0 ≤ mp ≤ 11) as (Hyoe & Hdoy & Hmp).
  { subst mp doy yoe. Z.to_euclidean_division_equations; lia. }
  set (m := if mp <? 10 then mp + 3 else mp - 9).
  assert ((if m <=? 2 then yoe + era * 400 + (if m <=? 2 then 1 else 0) - 1
           else yoe + era * 400 + (if m <=? 2 then 1 else 0)) = yoe + era * 400) as ->.
  { destruct (m <=? 2); lia. }
  assert ((if 2 <? m then m - 3 else m + 9) = mp) as ->.
  { subst m. destruct (mp <? 10) eqn:E; [apply Z.ltb_lt in E|apply Z.ltb_ge in E].
    - rewrite (proj2 (Z.ltb_lt _ _)) by lia. lia.
    - rewrite (proj2 (Z.ltb_ge _ _)) by lia. lia. }
  assert ((yoe + era * 400) / 400 = era) as ->.
  { rewrite Z.div_add by lia. rewrite Z.div_small by lia. lia. }
  replace (yoe + era * 400 - era * 400) with yoe by lia.
  clear Hmp Hdoy Hera. subst m. clearbody mp. subst doy. clearbody yoe. lia.
Qed.

(** [MakeDay] of the year, month and date of a time value, the date
    moved by [k], is the day of the time value moved by [k]. *)
Lemma MakeDay_shift t k :
  MakeDay (YearFromTime t) (MonthFromTime t) (DateFromTime t + k) = Day t + k.
Proof.
  unfold MakeDay, YearFromTime, MonthFromTime, DateFromTime.
  pose proof (civil_of_day_ranges (Day t)) as [Hm _]. cbv zeta.
  rewrite Z.div_small by lia. rewrite Z.mod_small by lia.
  rewrite Z.add_0_r. replace (c_month (civil_of_day (Day t)) - 1 + 1)
    with (c_month (civil_of_day (Day t))) by lia.
  apply day_of_civil_of_day.
Qed.

(** In a zone with a constant offset, [setDate(getDate() - i)] moves the
    time value back by [i] whole days. *)
Lemma setDate_back_fixed offset t i :
  @setDate (fixedZone offset) t (@getDate (fixedZone offset) t - i) = t - i * msPerDay.
Proof.
  unfold setDate, getDate, LocalTime, UTC, fixedZone, tza_utc, tza_local. cbv zeta.
  replace (DateFromTime (t + offset) - i) with (DateFromTime (t + offset) + - i) by lia.
  rewrite MakeDay_shift. unfold MakeDate, Day, TimeWithinDay, msPerDay.
  pose proof (Z.div_mod (t + offset) 86400000 ltac:(done)). lia.
Qed.

Lemma Day_back t i : Day (t - i * msPerDay) = Day t - i.
Proof.
  unfold Day, msPerDay. replace (t - i * 86400000) with (t + (- i) * 86400000) by lia.
  rewrite Z.div_add by done. lia.
Qed.

End JsDateFacts.

Section series_facts.
Context {tz : JsDate.TimeZone} {coll : Collation}.

Lemma length_countdown days : length (countdown days) = days.
Proof. unfold countdown. by rewrite length_map, length_rev, length_seq. Qed.

Lemma length_buildContiguous ds today days :
length (buildContiguous ds today days) = days.
Proof. unfold buildContiguous. by rewrite length_map, length_countdown. Qed.

Lemma length_makeRange today days : length (makeRange today days) = days.
Proof. unfold makeRange. by rewrite length_map, length_countdown. Qed.

(** The dates of a range do not depend on the data. *)
Lemma buildContiguous_dates ds today days :
map date (buildContiguous ds today days) = map date (makeRange today days).
Proof.
unfold buildContiguous, makeRange. rewrite !map_map.
apply map_ext. intros i. cbn [date]. reflexivity.
Qed.

(** Every entry of a range carries the recorded total of its date, and
  zero for a date without a record. *)
Lemma buildContiguous_seconds ds today days e :
e ∈ buildContiguous ds today days →
seconds e = from_option (λ b, Js.num_or0 (totalSeconds b)) 0 (ds !! date e).
Proof.
unfold buildContiguous. intros (i & -> & _)%list_elem_of_fmap. cbn [seconds date].
by destruct (ds !! _).
Qed.

Lemma makeRange_seconds today days e : e ∈ makeRange today days → seconds e = 0.
Proof. unfold makeRange. by intros (i & -> & _)%list_elem_of_fmap. Qed.

(** The entries of 'all' are the recorded days with their totals. *)
Lemma dayEntries_elem ds e :
e ∈ dayEntries ds
↔ ∃ b, ds !! date e = Some b ∧ seconds e = Js.num_or0 (totalSeconds b).
Proof.
unfold dayEntries. rewrite merge_sort_Permutation, list_elem_of_fmap. split.
- intros ([k b] & -> & Hin%elem_of_map_to_list). simpl. eauto.
- intros (b & Hb & Hs). exists (date e, b). split.
  + destruct e. simpl in *. by rewrite Hs.
  + by apply elem_of_map_to_list.
Qed.

Lemma dayEntries_length ds : length (dayEntries ds) = size ds.
Proof.
unfold dayEntries. rewrite merge_sort_Permutation, length_map.
apply length_map_to_list.
Qed.
End series_facts.

Section series_sorted.
Context {tz : JsDate.TimeZone} {coll : Collation}.
Hypothesis localeCompare_total :
∀ a b : string, localeCompare a b ≤ 0 ∨ localeCompare b a ≤ 0.

(** With a collation that compares any two keys, 'all' is in ascending
  order of its date keys. *)
Lemma dayEntries_sorted ds : Sorted entry_le (dayEntries ds).
Proof.
unfold dayEntries. apply Sorted_merge_sort.
intros a b. apply localeCompare_total.
Qed.
End series_sorted.

Lemma codeOrder_total (a b : string) :
  @localeCompare codeOrder a b ≤ 0 ∨ @localeCompare codeOrder b a ≤ 0.
Proof.
  simpl. rewrite (String.compare_antisym b a).
  destruct (String.compare a b); simpl; lia.
Qed.

(** The dates of a range in a zone with a constant offset: the [days]
    consecutive days that end with the day of the clock reading. *)
Lemma makeRange_dates_fixed offset today days :
  map date (@makeRange (fixedZone offset) today days)
  = map (λ i, JsDate.iso_date_of_day (JsDate.Day today - i)) (countdown days).
Proof.
  unfold makeRange. rewrite map_map. apply map_ext. intros i. cbn [date].
  unfold daysBefore, dateKeyFor, JsDate.iso_date_prefix.
  by rewrite JsDateFacts.setDate_back_fixed, JsDateFacts.Day_back.
Qed.

(** In a zone with a constant offset the three ranges are the 7, 30 and
    365 consecutive days that end today, each with its recorded total or
    zero, and 'all' is the recorded days in ascending order. *)
Theorem getTimeSeries_fixed_zone (offset : Z) (coll : Collation)
    (s : TimeService) (loaded : PersistedData) (workspaceUri : option string)
    (t7 t30 t1y : Z) :
  (∀ a b : string, localeCompare a b ≤ 0 ∨ localeCompare b a ≤ 0) →
  let r := @getTimeSeriesForWorkspaceRanges (fixedZone offset) coll
             s loaded workspaceUri t7 t30 t1y in
  let wsKey := Js.opt_str_or workspaceUri (Js.opt_str_or (activeWorkspace s) "untitled") in
  let ds := default ∅ (wfs ← workspaceFolders loaded; ws ← wfs !! wsKey; dates ws) in
  let recorded (e : SeriesEntry) :=
    seconds e = from_option (λ b, Js.num_or0 (totalSeconds b)) 0 (ds !! date e) in
  (∃ t30' t1y',
     map date (range7d r)
     = map (λ i, JsDate.iso_date_of_day (JsDate.Day t7 - i)) (countdown 7)
     ∧ map date (range30d r)
       = map (λ i, JsDate.iso_date_of_day (JsDate.Day t30' - i)) (countdown 30)
     ∧ map date (range1y r)
       = map (λ i, JsDate.iso_date_of_day (JsDate.Day t1y' - i)) (countdown 365)
     ∧ t30' ∈ [t7; t30] ∧ t1y' ∈ [t7; t1y])
  ∧ Forall recorded (range7d r)
  ∧ Forall recorded (range30d r)
  ∧ Forall recorded (range1y r)
  ∧ Sorted entry_le (rangeAll r)
  ∧ (∀ e, e ∈ rangeAll r
          ↔ ∃ b, ds !! date e = Some b ∧ seconds e = Js.num_or0 (totalSeconds b)).
Proof.
  intros Htotal r wsKey ds recorded. subst r. unfold getTimeSeriesForWorkspaceRanges.
  fold wsKey. subst ds recorded.
  destruct (wfs ← workspaceFolders loaded; ws ← wfs !! wsKey; dates ws) as [ds|];
    cbn [range7d range30d range1y rangeAll default].
  - split; [|repeat split].
    + exists t30, t1y. rewrite !buildContiguous_dates, !makeRange_dates_fixed.
      repeat split; set_solver.
    + apply Forall_forall. intros e. apply buildContiguous_seconds.
    + apply Forall_forall. intros e. apply buildContiguous_seconds.
    + apply Forall_forall. intros e. apply buildContiguous_seconds.
    + by apply dayEntries_sorted.
    + apply dayEntries_elem.
    + apply dayEntries_elem.
  - split; [|repeat split].
    + exists t7, t7. rewrite !makeRange_dates_fixed. repeat split; set_solver.
    + apply Forall_forall. intros e He.
      rewrite lookup_empty. by apply makeRange_seconds in He.
    + apply Forall_forall. intros e He.
      rewrite lookup_empty. by apply makeRange_seconds in He.
    + apply Forall_forall. intros e He.
      rewrite lookup_empty. by apply makeRange_seconds in He.
    + constructor.
    + by intros ?%elem_of_nil.
    + intros (b & Hb & _). by rewrite lookup_empty in Hb.
Qed.

(** The ranges have 7, 30 and 365 entries in every zone. *)
Lemma getTimeSeries_lengths {tz : JsDate.TimeZone} {coll : Collation}
    s loaded workspaceUri t7 t30 t1y :
  let r := getTimeSeriesForWorkspaceRanges s loaded workspaceUri t7 t30 t1y in
  length (range7d r) = 7%nat ∧ length (range30d r) = 30%nat
  ∧ length (range1y r) = 365%nat.
Proof.
  unfold getTimeSeriesForWorkspaceRanges.
  destruct (wfs ← workspaceFolders loaded; _) as [ds|];
    cbn [range7d range30d range1y];
    by rewrite ?length_buildContiguous, ?length_makeRange.
Qed.

(** C4. The code departs from the claim where the host's zone changes its
    offset: in Toronto, at 2025-11-04T00:30:00Z (19:30 local time on the
    3rd, the day after the clocks went back), the seven dates of '7d' run
    from 2025-10-28 to 2025-11-04 and leave out 2025-11-02. *)
Theorem getTimeSeries_skips_a_day (s : TimeService) (loaded : PersistedData)
    (workspaceUri : option string) :
  let now := 1762216200000 in
  let r := @getTimeSeriesForWorkspaceRanges toronto_autumn_2025 codeOrder
             s loaded workspaceUri now now now in
  dateKeyFor now = "2025-11-04"
  ∧ map date (range7d r)
    = ["2025-10-28"; "2025-10-29"; "2025-10-30"; "2025-10-31";
       "2025-11-01"; "2025-11-03"; "2025-11-04"]
  ∧ "2025-11-02" ∉ map date (range7d r).
Proof.
  intros now r.
  assert (map date (range7d r)
          = ["2025-10-28"; "2025-10-29"; "2025-10-30"; "2025-10-31";
             "2025-11-01"; "2025-11-03"; "2025-11-04"]) as Hdates.
  { subst r. unfold getTimeSeriesForWorkspaceRanges.
    destruct (wfs ← workspaceFolders loaded; _) as [ds|]; cbn [range7d];
      rewrite ?buildContiguous_dates; by vm_compute. }
  split; [by vm_compute|]. split; [done|].
  rewrite Hdates. intros Hin.
  repeat (apply elem_of_cons in Hin as [Hin|Hin]; [discriminate|]).
  by apply elem_of_nil in Hin.
Qed.

Example getTimeSeries_fixed_zone_toronto_winter :
  map date (range7d (@getTimeSeriesForWorkspaceRanges (fixedZone (-18000000)) codeOrder
                       exampleService emptyData None
                       1762216200000 1762216200000 1762216200000))
  = ["2025-10-29"; "2025-10-30"; "2025-10-31"; "2025-11-01";
     "2025-11-02"; "2025-11-03"; "2025-11-04"].
Proof.
  destruct (getTimeSeries_fixed_zone (-18000000) codeOrder exampleService emptyData None
              1762216200000 1762216200000 1762216200000 codeOrder_total)
    as ((_ & _ & H7 & _) & _).
  rewrite H7. by vm_compute.
Defined.

(** ** JSON: reading back what was written *)

Module JsonFacts.
Import Json.
Local Open Scope char_scope.
Local Open Scope list_scope.

Lemma value_ind' (P : value → Prop) :
  P Null → (∀ b, P (Bool b)) → (∀ n, P (Num n)) → (∀ m e, P (Dec m e)) →
  (∀ s, P (Str s)) →
  (∀ items, Forall P items → P (Arr items)) →
  (∀ members, Forall (λ kv, P (snd kv)) members → P (Obj members)) →
  ∀ v, P v.
Proof.
  intros HNull HBool HNum HDec HStr HArr HObj.
  fix IH 1. intros [ | b | n | m e | s | items | members];
    [exact HNull | apply HBool | apply HNum | apply HDec | apply HStr | | ].
  - apply HArr. induction items as [|x items IHi]; constructor; [apply IH|apply IHi].
  - apply HObj. induction members as [|[k x] members IHm]; constructor; [apply IH|apply IHm].
Qed.

(** *** Strings *)

Lemma read_chars_quote_char c fuel tail :
  read_chars (S fuel) (quote_char c ++ tail)
  = '(str, r) ← read_chars fuel tail; Some (c :: str, r).
Proof.
  destruct c as [[] [] [] [] [] [] [] []]; reflexivity.
Qed.

Lemma read_chars_quote_chars s fuel rest :
  (String.length s < fuel)%nat →
  read_chars fuel (quote_chars s ++ dquote :: rest) = Some (list_ascii_of_string s, rest).
Proof.
  revert fuel. induction s as [|c s IH]; intros fuel Hf.
  - destruct fuel; [simpl in Hf; lia|]. reflexivity.
  - destruct fuel; [simpl in Hf; lia|].
    cbn [quote_chars]. rewrite <- app_assoc, read_chars_quote_char.
    rewrite IH by (simpl in Hf; lia). reflexivity.
Qed.

Lemma length_quote_chars s : (String.length s ≤ length (quote_chars s))%nat.
Proof.
  induction s as [|c s IH]; simpl; [lia|].
  rewrite length_app.
  assert (1 ≤ length (quote_char c))%nat; [|lia].
  unfold quote_char. repeat case_match; simpl; lia.
Qed.

Lemma read_string_quote s rest :
  read_string (quote_chars s ++ dquote :: rest) = Some (s, rest).
Proof.
  unfold read_string. rewrite read_chars_quote_chars.
  - simpl. by rewrite string_of_list_ascii_of_string.
  - rewrite length_app. pose proof (length_quote_chars s). simpl. lia.
Qed.

(** *** Numbers *)

Lemma take_digits_app ds rest :
  forallb is_digit ds = true → delimited rest = true →
  take_digits (ds ++ rest) = (ds, rest).
Proof.
  intros Hds Hrest. induction ds as [|c ds IH]; simpl in *.
  - destruct rest as [|c rest]; [done|]. simpl in Hrest.
    apply andb_prop in Hrest as [Hc _]. cbn [take_digits]. by destruct (is_digit c).
  - apply andb_prop in Hds as [Hc Hds]. by rewrite Hc, IH.
Qed.

Lemma digits_of_uint d :
  forallb is_digit (list_ascii_of_string (NilEmpty.string_of_uint d)) = true.
Proof. induction d; simpl; auto. Qed.

Lemma to_uint_no_leading_zero p d : Pos.to_uint p ≠ Decimal.D0 d.
Proof.
  intros H.
  pose proof (DecimalZ.to_of (Decimal.Pos (Pos.to_uint p))) as Hn.
  change (Z.of_int (Decimal.Pos (Pos.to_uint p))) with (Z.of_int (Z.to_int (Z.pos p))) in Hn.
  rewrite DecimalZ.of_to in Hn. simpl in Hn. injection Hn as Hn.
  rewrite H in Hn.
  destruct (Decimal.uint_eq_dec (Decimal.nzhead (Decimal.D0 d)) Decimal.Nil) as [E|E].
  - apply unorm_0 in E. rewrite E in Hn.
    apply (DecimalPos.Unsigned.to_uint_nonzero p). by rewrite H.
  - rewrite unorm_nzhead in Hn by done. by apply (nzhead_nonzero (Decimal.D0 d) d).
Qed.

Lemma leading_zero_to_uint p :
  leading_zero (list_ascii_of_string (NilEmpty.string_of_uint (Pos.to_uint p))) = false.
Proof.
  pose proof (to_uint_no_leading_zero p) as H.
  destruct (Pos.to_uint p); try reflexivity.
  by destruct (H u).
Qed.

Lemma read_uint neg d rest :
  d ≠ Decimal.Nil →
  leading_zero (list_ascii_of_string (NilEmpty.string_of_uint d)) = false →
  delimited rest = true →
  read_unsigned neg (list_ascii_of_string (NilEmpty.string_of_uint d) ++ rest)
  = Some (Num (if neg then - Z.of_uint d else Z.of_uint d)%Z, rest).
Proof.
  intros Hd Hlz Hrest. unfold read_unsigned.
  rewrite take_digits_app; [|apply digits_of_uint|done].
  rewrite Hlz.
  assert (starts_fraction rest = false) as ->.
  { destruct rest as [|a rest]; [done|]. unfold delimited in Hrest.
    apply andb_prop in Hrest as [_ H]. by apply negb_true_iff in H. }
  rewrite string_of_list_ascii_of_string.
  assert (NilEmpty.string_of_uint d = NilZero.string_of_uint d) as -> by by destruct d.
  rewrite NilZero.usu by done. reflexivity.
Qed.

Lemma uint_digits_nonempty d :
  d ≠ Decimal.Nil →
  ∃ c tl, list_ascii_of_string (NilEmpty.string_of_uint d) = c :: tl ∧ is_digit c = true.
Proof. destruct d; [done| |..]; intros _; simpl; eauto. Qed.

Lemma read_num_digit c s :
  is_digit c = true → read_num (c :: s) = read_unsigned false (c :: s).
Proof. destruct c as [[] [] [] [] [] [] [] []]; (discriminate || reflexivity). Qed.

Lemma read_write_num n rest :
  delimited rest = true → read_num (write_num n ++ rest) = Some (Num n, rest).
Proof.
  intros Hrest. unfold write_num, Js.num_to_string.
  destruct n as [|p|p]; simpl.
  - apply (read_uint false (Decimal.D0 Decimal.Nil)); done.
  - assert (NilZero.string_of_uint (Pos.to_uint p) = NilEmpty.string_of_uint (Pos.to_uint p)) as ->.
    { pose proof (DecimalPos.Unsigned.to_uint_nonnil p). by destruct (Pos.to_uint p). }
    destruct (uint_digits_nonempty _ (DecimalPos.Unsigned.to_uint_nonnil p))
      as (c & tl & Heq & Hc).
    pose proof (read_uint false (Pos.to_uint p) rest (DecimalPos.Unsigned.to_uint_nonnil p)
                  (leading_zero_to_uint p) Hrest) as H.
    rewrite Heq in *. cbn [app] in *. rewrite read_num_digit by done. rewrite H.
    unfold Z.of_uint. by rewrite DecimalPos.Unsigned.of_to.
  - assert (NilZero.string_of_uint (Pos.to_uint p) = NilEmpty.string_of_uint (Pos.to_uint p)) as ->.
    { pose proof (DecimalPos.Unsigned.to_uint_nonnil p). by destruct (Pos.to_uint p). }
    rewrite (read_uint true (Pos.to_uint p) rest (DecimalPos.Unsigned.to_uint_nonnil p)
               (leading_zero_to_uint p) Hrest).
    unfold Z.of_uint. by rewrite DecimalPos.Unsigned.of_to.
Qed.

Lemma write_num_head n :
  ∃ c tl, write_num n = c :: tl ∧ (is_digit c = true ∨ c = "-").
Proof.
  unfold write_num, Js.num_to_string. destruct n as [|p|p]; simpl.
  - eauto.
  - destruct (uint_digits_nonempty _ (DecimalPos.Unsigned.to_uint_nonnil p)) as (c & tl & Heq & Hc).
    assert (NilZero.string_of_uint (Pos.to_uint p) = NilEmpty.string_of_uint (Pos.to_uint p)) as ->.
    { pose proof (DecimalPos.Unsigned.to_uint_nonnil p). by destruct (Pos.to_uint p). }
    eauto.
  - eauto.
Qed.

Lemma read_value_num_start c s fuel :
  is_digit c = true ∨ c = "-" →
  read_value (S fuel) (c :: s) = read_num (c :: s).
Proof.
  intros [H| ->]; [|reflexivity].
  destruct c as [[] [] [] [] [] [] [] []]; (discriminate || reflexivity).
Qed.

Lemma read_value_num n rest fuel :
  delimited rest = true →
  read_value (S fuel) (write_num n ++ rest) = Some (Num n, rest).
Proof.
  intros Hrest. destruct (write_num_head n) as (c & tl & Heq & Hc).
  pose proof (read_write_num n rest Hrest) as H. rewrite Heq in *.
  cbn [app] in *. rewrite read_value_num_start by done. by rewrite H.
Qed.

(** *** White space and the first character of a value *)

Lemma skip_ws_app pre s : forallb is_ws pre = true → skip_ws (pre ++ s) = skip_ws s.
Proof.
  induction pre as [|c pre IH]; [done|]. simpl.
  intros [Hc Hpre]%andb_prop. rewrite Hc. auto.
Qed.

Lemma newline_ws depth : forallb is_ws (newline depth) = true.
Proof.
  unfold newline, indent. cbn [forallb]. generalize (2 * depth)%nat. intros n.
  change (is_ws (ascii_of_N 10)) with true. cbn [andb].
  induction n as [|n IH]; [done|]. cbn [repeat forallb]. by rewrite IH.
Qed.

Lemma newline_delimited depth rest : delimited (newline depth ++ rest) = true.
Proof. reflexivity. Qed.

Lemma write_dec_head m e :
  ∃ c tl, write_dec m e = c :: tl ∧ (is_digit c = true ∨ c = "-").
Proof.
  unfold write_dec.
  destruct (write_num_head (Z.abs m)) as (c & tl & -> & Hc).
  destruct (m <? 0)%Z; [eauto|].
  repeat case_match; eauto.
Qed.

Lemma number_start c : is_digit c = true ∨ c = "-" → value_start c = true.
Proof.
  intros [Hc| ->]; [|reflexivity].
  destruct c as [[] [] [] [] [] [] [] []]; (discriminate || reflexivity).
Qed.

Lemma write_head depth v :
  ∃ c tl, write depth v = c :: tl ∧ value_start c = true.
Proof.
  destruct v as [ | [] | n | m e | s | [|x items] | [|kv members]]; simpl; eauto.
  - destruct (write_num_head n) as (c & tl & -> & Hc).
    exists c, tl. split; [done|]. by apply number_start.
  - destruct (write_dec_head m e) as (c & tl & -> & Hc).
    exists c, tl. split; [done|]. by apply number_start.
Qed.

Lemma skip_ws_start c tl : value_start c = true → skip_ws (c :: tl) = c :: tl.
Proof.
  unfold value_start. intros [[H _]%andb_prop _]%andb_prop. simpl.
  by apply negb_true_iff in H as ->.
Qed.

Lemma next_is_write pre depth v rest close :
  forallb is_ws pre = true → close = "]" ∨ close = "}" →
  next_is close (pre ++ write depth v ++ rest) = false.
Proof.
  intros Hpre Hclose. unfold next_is. rewrite skip_ws_app by done.
  destruct (write_head depth v) as (c & tl & -> & Hc). cbn [app].
  rewrite skip_ws_start by done.
  unfold value_start in Hc. apply andb_prop in Hc as [[_ H1]%andb_prop H2].
  apply negb_true_iff in H1, H2. by destruct Hclose as [-> | ->].
Qed.

Lemma next_is_quote pre s rest close :
  forallb is_ws pre = true → close = "]" ∨ close = "}" →
  next_is close (pre ++ quote s ++ rest) = false.
Proof.
  intros Hpre Hclose. unfold next_is. rewrite skip_ws_app by done.
  simpl. by destruct Hclose as [-> | ->].
Qed.

(** *** Reading back what was written *)

Lemma read_value_S fuel s :
  read_value (S fuel) s
  = match skip_ws s with
    | "n" :: "u" :: "l" :: "l" :: rest => Some (Null, rest)
    | "t" :: "r" :: "u" :: "e" :: rest => Some (Bool true, rest)
    | "f" :: "a" :: "l" :: "s" :: "e" :: rest => Some (Bool false, rest)
    | dquote :: rest => '(str, r) ← read_string rest; Some (Str str, r)
    | "[" :: rest =>
        if next_is "]" rest then Some (Arr [], after_next rest)
        else '(items, r) ← read_items fuel rest; Some (Arr items, r)
    | "{" :: rest =>
        if next_is "}" rest then Some (Obj [], after_next rest)
        else '(members, r) ← read_members fuel rest []; Some (Obj members, r)
    | rest => read_num rest
    end.
Proof. reflexivity. Qed.

Lemma read_items_S fuel s :
  read_items (S fuel) s
  = '(v, r) ← read_value fuel s;
    match skip_ws r with
    | "," :: r' => '(vs, r'') ← read_items fuel r'; Some (v :: vs, r'')
    | "]" :: r' => Some ([v], r')
    | _ => None
    end.
Proof. reflexivity. Qed.

Lemma read_members_S fuel s acc :
  read_members (S fuel) s acc
  = match skip_ws s with
    | dquote :: r0 =>
        '(k, r1) ← read_string r0;
        match skip_ws r1 with
        | ":" :: r2 =>
            '(v, r3) ← read_value fuel r2;
            let acc' := set_member k v acc in
            match skip_ws r3 with
            | "," :: r4 => read_members fuel r4 acc'
            | "}" :: r4 => Some (acc', r4)
            | _ => None
            end
        | _ => None
        end
    | _ => None
    end.
Proof. reflexivity. Qed.

Lemma read_items_written items :
  Forall reads_back items → forallb well_formed items = true → items ≠ [] →
  ∀ depth depth' pre rest fuel,
    forallb is_ws pre = true →
    (list_sum (map (λ x, S (size x)) items) ≤ fuel)%nat →
    read_items fuel
      (pre ++ join ("," :: newline depth) (map (write depth) items)
           ++ newline depth' ++ "]" :: rest)
    = Some (items, rest).
Proof.
  induction 1 as [|x items Hx Hitems IH]; [done|].
  intros [Hwx Hwf]%andb_prop _ depth depth' pre rest fuel Hpre Hfuel.
  change (S (size x) + list_sum (map (λ x, S (size x)) items) ≤ fuel)%nat in Hfuel.
  destruct fuel as [|fuel]; [lia|]. rewrite read_items_S.
  destruct items as [|y items].
  - cbn [map join]. rewrite Hx; [|done|done|apply newline_delimited|lia].
    cbn [mbind option_bind]. by rewrite skip_ws_app by apply newline_ws.
  - change (join ("," :: newline depth) (map (write depth) (x :: y :: items)))
      with (write depth x ++ ("," :: newline depth)
              ++ join ("," :: newline depth) (map (write depth) (y :: items))).
    rewrite <- !app_assoc.
    rewrite Hx; [|done|done|done|lia].
    cbn [mbind option_bind app skip_ws is_ws]. 
    replace (is_ws ",") with false by reflexivity.
    rewrite IH; [done|done|done|apply newline_ws|lia].
Qed.

Lemma set_member_fresh k v acc :
  fresh k acc = true → set_member k v acc = acc ++ [(k, v)].
Proof.
  induction acc as [|[k' v'] acc IH]; [done|]. cbn [fresh forallb fst].
  intros [Hk Hacc]%andb_prop. cbn [set_member].
  apply negb_true_iff in Hk as ->. by rewrite IH.
Qed.

Lemma fresh_app k acc acc' :
  fresh k (acc ++ acc') = fresh k acc && fresh k acc'.
Proof. unfold fresh. apply forallb_app. Qed.

Lemma member_text_app depth k x tail :
  member_text depth (k, x) ++ tail
  = dquote :: quote_chars k ++ dquote :: ":" :: " " :: write depth x ++ tail.
Proof.
  unfold member_text, quote. cbn [fst snd app].
  rewrite <- !app_assoc. reflexivity.
Qed.

Lemma read_members_written members :
  Forall (λ kv, reads_back (snd kv)) members →
  forallb (λ kv, well_formed (snd kv)) members = true → members ≠ [] →
  ∀ acc depth depth' pre rest fuel,
    forallb is_ws pre = true →
    forallb (λ kv, fresh (fst kv) acc) members = true →
    distinct_keys members = true →
    (list_sum (map (λ kv, S (size (snd kv))) members) ≤ fuel)%nat →
    read_members fuel
      (pre ++ join ("," :: newline depth) (map (member_text depth) members)
           ++ newline depth' ++ "}" :: rest) acc
    = Some (acc ++ members, rest).
Proof.
  induction 1 as [|[k x] members Hx Hmembers IH]; [done|].
  intros [Hwx Hwf]%andb_prop _ acc depth depth' pre rest fuel Hpre Hacc Hdist Hfuel.
  change (S (size x) + list_sum (map (λ kv, S (size (snd kv))) members) ≤ fuel)%nat in Hfuel.
  cbn [forallb fst] in Hacc. apply andb_prop in Hacc as [Hk Hacc].
  cbn [distinct_keys fst] in Hdist. apply andb_prop in Hdist as [Hfresh Hdist].
  cbn [snd] in Hx, Hwx.
  destruct fuel as [|fuel]; [lia|]. rewrite read_members_S.
  rewrite skip_ws_app by done.
  assert (∀ tail,
            read_value fuel (" " :: write depth x ++ tail) = Some (x, tail) ∨ delimited tail = false)
    as Hval.
  { intros tail. destruct (delimited tail) eqn:E; [left|by right].
    apply (Hx Hwx depth [" "] tail fuel); [done|done|lia]. }
  destruct members as [|[k' y] members].
  - cbn [map join]. rewrite member_text_app. cbn [skip_ws].
    replace (is_ws dquote) with false by reflexivity.
    rewrite read_string_quote. cbn [mbind option_bind skip_ws].
    replace (is_ws ":") with false by reflexivity.
    destruct (Hval (newline depth' ++ "}" :: rest)) as [-> | ?]; [|done].
    cbn [mbind option_bind]. rewrite skip_ws_app by apply newline_ws.
    cbn [skip_ws]. replace (is_ws "}") with false by reflexivity.
    by rewrite set_member_fresh.
  - change (join ("," :: newline depth) (map (member_text depth) ((k, x) :: (k', y) :: members)))
      with (member_text depth (k, x) ++ ("," :: newline depth)
              ++ join ("," :: newline depth) (map (member_text depth) ((k', y) :: members))).
    rewrite <- !app_assoc, member_text_app. cbn [skip_ws].
    replace (is_ws dquote) with false by reflexivity.
    rewrite read_string_quote. cbn [mbind option_bind skip_ws].
    replace (is_ws ":") with false by reflexivity.
    match goal with
    | |- context [read_value fuel (" " :: write depth x ++ ?tail)] =>
        destruct (Hval tail) as [-> | ?]; [|done]
    end.
    cbn [mbind option_bind].
    change (("," :: newline depth) ++ ?t) with ("," :: newline depth ++ t).
    cbn [skip_ws]. replace (is_ws ",") with false by reflexivity.
    rewrite set_member_fresh by done.
    rewrite IH; [by rewrite <- app_assoc|done|done|apply newline_ws| |done|lia].
    clear -Hacc Hfresh.
    induction ((k', y) :: members) as [|[k2 v2] l IHl]; [done|].
    cbn [forallb fst fresh] in *.
    apply andb_prop in Hacc as [H1 H2]. apply andb_prop in Hfresh as [H3 H4].
    rewrite fresh_app, H1, IHl by done. cbn [fresh forallb fst andb].
    rewrite String.eqb_sym. by rewrite H3.
Qed.

(** Every well-formed value is read back from its text. *)
Lemma read_written v : reads_back v.
Proof.
  induction v as [ | b | n | m e | s | items IH | members IH] using value_ind';
    intros Hwf depth pre rest fuel Hpre Hrest Hfuel;
    (destruct fuel as [|fuel]; [simpl in Hfuel; lia|]);
    rewrite read_value_S, skip_ws_app by done.
  - reflexivity.
  - by destruct b.
  - destruct (write_head depth (Num n)) as (c & tl & Heq & Hc).
    rewrite <- read_value_S. cbn [write] in *.
    pose proof (read_value_num n rest fuel Hrest) as H.
    rewrite Heq in *. cbn [app] in *.
    rewrite read_value_S in *. by rewrite skip_ws_start in H |- * by done.
  - discriminate Hwf.
  - change (write depth (Str s) ++ rest) with (dquote :: (quote_chars s ++ [dquote]) ++ rest).
    rewrite <- app_assoc. cbn [app skip_ws].
    replace (is_ws dquote) with false by reflexivity.
    by rewrite read_string_quote.
  - destruct items as [|x items].
    + reflexivity.
    + cbn [write]. 
      change ("[" :: newline (S depth)
                ++ join ("," :: newline (S depth)) (map (write (S depth)) (x :: items))
                ++ newline depth ++ ["]"])
        with (["["] ++ newline (S depth)
                ++ join ("," :: newline (S depth)) (map (write (S depth)) (x :: items))
                ++ newline depth ++ ["]"]).
      rewrite <- !app_assoc. cbn [app skip_ws].
      replace (is_ws "[") with false by reflexivity.
      assert (next_is "]" (newline (S depth)
                ++ join ("," :: newline (S depth)) (map (write (S depth)) (x :: items))
                ++ newline depth ++ "]" :: rest) = false) as ->.
      { destruct items as [|y items].
        - apply next_is_write; [apply newline_ws|auto].
        - cbn [map join]. rewrite <- app_assoc.
          apply next_is_write; [apply newline_ws|auto]. }
      cbn [well_formed] in Hwf. cbn [size] in Hfuel.
      rewrite (read_items_written (x :: items) IH Hwf); [done|done|apply newline_ws|lia].
  - destruct members as [|[k x] members].
    + reflexivity.
    + cbn [write].
      change (map (λ kv, quote (fst kv) ++ ":" :: " " :: write (S depth) (snd kv)) ((k, x) :: members))
        with (map (member_text (S depth)) ((k, x) :: members)).
      change ("{" :: newline (S depth)
                ++ join ("," :: newline (S depth)) (map (member_text (S depth)) ((k, x) :: members))
                ++ newline depth ++ ["}"])
        with (["{"] ++ newline (S depth)
                ++ join ("," :: newline (S depth)) (map (member_text (S depth)) ((k, x) :: members))
                ++ newline depth ++ ["}"]).
      rewrite <- !app_assoc. cbn [app skip_ws].
      replace (is_ws "{") with false by reflexivity.
      assert (next_is "}" (newline (S depth)
                ++ join ("," :: newline (S depth)) (map (member_text (S depth)) ((k, x) :: members))
                ++ newline depth ++ "}" :: rest) = false) as ->.
      { destruct members as [|y members].
        - cbn [map join]. unfold member_text. rewrite <- app_assoc.
          apply next_is_quote; [apply newline_ws|auto].
        - cbn [map join]. unfold member_text at 1. rewrite <- !app_assoc.
          apply next_is_quote; [apply newline_ws|auto]. }
      cbn [well_formed] in Hwf. apply andb_prop in Hwf as [Hdist Hwf].
      cbn [size] in Hfuel.
      rewrite (read_members_written ((k, x) :: members) IH Hwf);
        [done|done|apply newline_ws| |done|lia].
      clear. induction ((k, x) :: members) as [|? l IHl]; [done|]. by cbn.
Qed.

(** *** The text of a value is at least as long as its size *)

Lemma join_bound {A} (f : A → nat) (g : A → list ascii) (sep : list ascii) (l : list A) :
  (1 ≤ length sep)%nat →
  Forall (λ a, (f a ≤ length (g a))%nat) l →
  (list_sum (map (λ a, S (f a)) l) ≤ S (length (join sep (map g l))))%nat.
Proof.
  intros Hsep. induction 1 as [|a l Ha Hl IH]; [simpl; lia|].
  change (list_sum (map (λ a, S (f a)) (a :: l)))
    with (S (f a) + list_sum (map (λ a, S (f a)) l))%nat.
  destruct l as [|b l].
  - simpl. lia.
  - change (join sep (map g (a :: b :: l))) with (g a ++ sep ++ join sep (map g (b :: l))).
    rewrite !length_app. lia.
Qed.

Lemma size_le_length v : ∀ depth, (size v ≤ length (write depth v))%nat.
Proof.
  induction v as [ | b | n | m e | s | items IH | members IH] using value_ind';
    intros depth.
  - simpl. lia.
  - destruct b; simpl; lia.
  - destruct (write_head depth (Num n)) as (c & tl & -> & _). simpl. lia.
  - destruct (write_head depth (Dec m e)) as (c & tl & -> & _). simpl. lia.
  - simpl. lia.
  - destruct items as [|x items]; [simpl; lia|].
    cbn [size write]. cbn [length]. rewrite !length_app.
    pose proof (join_bound size (write (S depth)) ("," :: newline (S depth)) (x :: items)) as H.
    cbn [length] in *. specialize (H ltac:(lia)).
    assert (Forall (λ a, (size a ≤ length (write (S depth) a))%nat) (x :: items)) as HF.
    { eapply Forall_impl; [exact IH|]. intros a Ha. apply Ha. }
    specialize (H HF). lia.
  - destruct members as [|kv members]; [simpl; lia|].
    cbn [size write]. cbn [length]. rewrite !length_app.
    pose proof (join_bound (λ kv, size (snd kv))
                  (λ kv, quote (fst kv) ++ ":" :: " " :: write (S depth) (snd kv))
                  ("," :: newline (S depth)) (kv :: members)) as H.
    cbn [length] in *. specialize (H ltac:(lia)).
    assert (Forall (λ a : string * value,
                      (size (snd a)
                       ≤ length (quote (fst a) ++ ":" :: " " :: write (S depth) (snd a)))%nat)
                   (kv :: members)) as HF.
    { eapply Forall_impl; [exact IH|]. intros a Ha. cbn beta.
      rewrite length_app. cbn [length]. specialize (Ha (S depth)). lia. }
    specialize (H HF). lia.
Qed.

(** [JSON.parse(JSON.stringify(v, null, 2))] is [v]. *)
Lemma parse_stringify v : well_formed v = true → parse (stringify v) = Some v.
Proof.
  intros Hwf. unfold parse, stringify.
  rewrite list_ascii_of_string_of_list_ascii.
  pose proof (read_written v Hwf 0%nat [] [] (S (length (write 0 v))) eq_refl eq_refl) as H.
  rewrite app_nil_r in H. cbn [app] in H.
  rewrite H by (pose proof (size_le_length v 0%nat); lia).
  reflexivity.
Qed.

End JsonFacts.

(** ** Export and import *)

Lemma fresh_encoded {A} (f : A → Json.value) (l : list (string * A)) k :
  k ∉ l.*1 → Json.fresh k (map (λ kv, (kv.1, f kv.2)) l) = true.
Proof.
  induction l as [|[k' a] l IH]; [done|]. cbn [fmap list_fmap fst].
  intros Hk. apply not_elem_of_cons in Hk as [Hne Hk].
  cbn [map Json.fresh forallb fst]. apply andb_true_intro. split.
  - apply negb_true_iff. by apply String.eqb_neq.
  - by apply IH.
Qed.

Lemma distinct_keys_encoded {A} (f : A → Json.value) (m : gmap string A) :
  Json.distinct_keys (map (λ kv, (kv.1, f kv.2)) (map_to_list m)) = true.
Proof.
  pose proof (NoDup_fst_map_to_list m) as Hnd.
  induction (map_to_list m) as [|[k a] l IH]; [done|].
  cbn [fmap list_fmap fst] in Hnd. apply NoDup_cons in Hnd as [Hk Hnd].
  cbn [map Json.distinct_keys fst]. apply andb_true_intro. split.
  - by apply fresh_encoded.
  - by apply IH.
Qed.

Lemma well_formed_encoded {A} (f : A → Json.value) (m : gmap string A) :
  map_Forall (λ _ a, Json.well_formed (f a) = true) m →
  forallb (λ kv, Json.well_formed kv.2) (map (λ kv, (kv.1, f kv.2)) (map_to_list m)) = true.
Proof.
  intros Hm. apply forallb_forall. intros [k v] Hin%in_map_iff.
  destruct Hin as ([k' a] & [= <- <-] & Hin). cbn [snd].
  apply list_elem_of_In, elem_of_map_to_list in Hin. by apply (Hm k').
Qed.

Lemma encodeCounts_well_formed m :
  safeCounts m → Json.well_formed (encodeCounts m) = true.
Proof.
  intros Hm. unfold encodeCounts. cbn [Json.well_formed].
  rewrite distinct_keys_encoded. by rewrite well_formed_encoded.
Qed.

Lemma encodeBucket_well_formed b :
  safeBucket b → Json.well_formed (encodeBucket b) = true.
Proof.
  intros (Ht & Hf & Hd). unfold encodeBucket.
  destruct (totalSeconds b) as [n|], (byFile b) as [files|], (byFolder b) as [folders|];
    cbn [from_option] in *;
    try pose proof (encodeCounts_well_formed _ Hf) as H1;
    try pose proof (encodeCounts_well_formed _ Hd) as H2;
    cbn [app Json.well_formed forallb snd fst Json.distinct_keys Json.fresh] in *;
    rewrite ?Ht, ?H1, ?H2; reflexivity.
Qed.

Lemma encodeWorkspace_well_formed w :
  (∀ ds, dates w = Some ds → map_Forall (λ _ b, safeBucket b) ds) →
  Json.well_formed (encodeWorkspace w) = true.
Proof.
  intros Hw. unfold encodeWorkspace.
  destruct (dates w) as [ds|]; [|reflexivity].
  cbn [Json.well_formed forallb snd Json.distinct_keys Json.fresh fst].
  rewrite distinct_keys_encoded, well_formed_encoded; [reflexivity|].
  intros k b Hb. apply encodeBucket_well_formed. by apply (Hw ds eq_refl k).
Qed.

(** The stored form of data with safe counts is well formed, so that it
    is read back from its text. *)
Lemma encodeData_well_formed d :
  safeData d → Json.well_formed (encodeData d) = true.
Proof.
  intros Hd. unfold encodeData.
  destruct (workspaceFolders d) as [wfs|] eqn:Hwfs; [|reflexivity].
  cbn [Json.well_formed forallb snd Json.distinct_keys Json.fresh fst].
  rewrite distinct_keys_encoded, well_formed_encoded; [reflexivity|].
  intros ws w Hw. apply encodeWorkspace_well_formed. intros ds Hds day b Hb.
  apply (Hd ws day). unfold lookupBucket. rewrite Hwfs. simpl. rewrite Hw. simpl.
  rewrite Hds. simpl. done.
Qed.

Lemma parse_stringify_data d :
  safeData d → Json.parse (Json.stringify (encodeData d)) = Some (encodeData d).
Proof. intros Hd. by apply JsonFacts.parse_stringify, encodeData_well_formed. Qed.


(** X30. With no write in flight, importing what was just exported
    writes back the value that was stored: [exportToJson] is
    [JSON.stringify] of the loaded value, [importFromJson] parses it and
    hands it to [save], and when the timer of that [save] has fired the
    store holds the value it held before. This is for a stored value
    whose numbers are whole and held exactly by a double and whose
    objects have no key twice. *)
Theorem import_export_roundtrip_quiet (st : Storage.State) (last : option Json.value) :
  Storage.quiet last st →
  Json.well_formed (Storage.load st) = true →
  let t := Storage.nextTimer st in
  Storage.exportToJson st = Json.stringify (Storage.load st)
  ∧ Storage.importFromJson (Storage.exportToJson st) st
    = Some (Storage.save (Storage.load st) st)
  ∧ ∃ st2 st3,
      Storage.timer_fires t (Storage.save (Storage.load st) st) = Some st2
      ∧ Storage.update_settles t st2 = Some st3
      ∧ Storage.written st3 = (Storage.written st ++ [Some (Storage.load st)])%list
      ∧ Storage.load st3 = Storage.load st
      ∧ (is_Some (Storage.globalState st !! Storage.key) →
         Storage.globalState st3 = Storage.globalState st).
Proof.
  intros Hq Hwf t. split; [done|]. split.
  { unfold Storage.importFromJson, Storage.exportToJson.
    by rewrite JsonFacts.parse_stringify. }
  pose proof (StorageFacts.quiet_save last (Storage.load st) st Hq) as Hq1.
  pose proof (StorageFacts.armed_save last (Storage.load st) st Hq) as Harm.
  destruct (Storage.timer_fires t (Storage.save (Storage.load st) st)) as [st2|] eqn:Hfire.
  2: { unfold Storage.timer_fires in Hfire. rewrite Harm in Hfire.
       rewrite bool_decide_eq_true_2 in Hfire by apply list_elem_of_here. done. }
  destruct (StorageFacts.quiet_fire _ _ _ _ Hq1 Hfire)
    as (d & [= <-] & Hw & Hgs & st3 & Hsettle & _ & Hw3 & Hgs3 & _).
  exists st2, st3. split; [done|]. split; [done|]. split; [by rewrite Hw3, Hw|].
  assert (Storage.globalState st3 = <[Storage.key := Storage.load st]> (Storage.globalState st))
    as Hstore by by rewrite Hgs3, Hgs.
  split.
  - unfold Storage.load at 1. by rewrite Hstore, lookup_insert_eq.
  - intros [v Hv]. rewrite Hstore. apply insert_id.
    unfold Storage.load. by rewrite Hv.
Qed.

Example exampleStored_encodes :
  encodeData (data (@onTick posixHost 2500 exampleService).1) = exampleStored.
Proof. by vm_compute. Qed.

Lemma import_export_roundtrip_quiet_witness :
  let st := Storage.init {[Storage.key := exampleStored]} in
  Storage.load st = exampleStored
  ∧ ∃ st2 st3,
      Storage.timer_fires 0 (Storage.save (Storage.load st) st) = Some st2
      ∧ Storage.update_settles 0 st2 = Some st3
      ∧ Storage.load st3 = Storage.load st.
Proof.
  intros st.
  destruct (import_export_roundtrip_quiet st None (StorageFacts.quiet_init _))
    as (_ & _ & st2 & st3 & Hfire & Hsettle & _ & Hload & _);
    [by vm_compute|].
  split; [by vm_compute|].
  exists st2, st3. split; [exact Hfire|]. split; [exact Hsettle|exact Hload].
Defined.

(** C8. Importing what was just exported, while the write of an
    earlier [save] is in flight, loses the stored data: the callback of
    the earlier [save] clears [pendingData] after its [await], and the
    timer of the import then writes [undefined], which removes the
    stored value. *)
Theorem import_during_write_loses_data :
  let st0 := Storage.init {[Storage.key := exampleStored]} in
  ∃ st1 st2 st3,
    Storage.run [Storage.Save exampleStored; Storage.TimerFires 0] st0 = Some st1
    ∧ Storage.load st1 = exampleStored
    ∧ Storage.importFromJson (Storage.exportToJson st1) st1 = Some st2
    ∧ Storage.run [Storage.UpdateSettles 0; Storage.TimerFires 1; Storage.UpdateSettles 1] st2
      = Some st3
    ∧ Storage.written st3 = [Some exampleStored; None]
    ∧ Storage.globalState st3 !! Storage.key = None
    ∧ Storage.load st3 = Json.Obj []
    ∧ Storage.load st3 ≠ Storage.load st0.
Proof.
  intros st0.
  assert (Json.parse (Json.stringify exampleStored) = Some exampleStored) as Hparse
    by by vm_compute.
  eexists _, _, _. split; [reflexivity|]. split; [reflexivity|].
  split.
  { unfold Storage.importFromJson, Storage.exportToJson.
    change (Storage.load _) with exampleStored. rewrite Hparse. reflexivity. }
  split; [reflexivity|].
  split; [reflexivity|]. split; [reflexivity|]. split; [reflexivity|].
  discriminate.
Qed.

(** * Further properties *)

(** ** Sums over the data *)

Lemma sumWith_empty {A} (f : A → Z) : sumWith f ∅ = 0.
Proof. unfold sumWith. by rewrite map_fold_empty. Qed.

Lemma sumWith_insert_fresh {A} (f : A → Z) (m : gmap string A) k a :
  m !! k = None → sumWith f (<[k := a]> m) = f a + sumWith f m.
Proof.
  intros Hk. unfold sumWith. rewrite map_fold_insert_L; [done| |done].
  intros. lia.
Qed.

Lemma sumWith_insert {A} (f : A → Z) (m : gmap string A) k a :
  sumWith f (<[k := a]> m) = sumWith f m + f a - from_option f 0 (m !! k).
Proof.
  destruct (m !! k) as [a0|] eqn:Hk; simpl.
  - rewrite <- (insert_delete_eq m k a).
    rewrite sumWith_insert_fresh by apply lookup_delete_eq.
    rewrite <- (insert_id m k a0) at 2 by done.
    rewrite <- (insert_delete_eq m k a0).
    rewrite sumWith_insert_fresh by apply lookup_delete_eq. lia.
  - rewrite sumWith_insert_fresh by done. lia.
Qed.

Section service_facts.
Context {host : PathHost}.

Lemma addDelta_total cfg ws fk δ b :
  Js.num_or0 (totalSeconds (addDelta cfg ws fk δ b)) = Js.num_or0 (totalSeconds b) + δ.
Proof. unfold addDelta. by destruct (aggregateBy cfg). Qed.

(** An accumulation adds its seconds to the sum of all totals. *)
Lemma grandTotal_accumulate cfg ws fk day δ d :
  grandTotal (accumulate cfg ws fk day δ d) = grandTotal d + δ.
Proof.
  unfold grandTotal, accumulate. cbn [workspaceFolders from_option id].
  rewrite sumWith_insert. unfold workspaceTotal at 2. cbn [dates from_option id].
  rewrite sumWith_insert, addDelta_total.
  destruct (workspaceFolders d) as [wfs|]; cbn [from_option id].
  - destruct (wfs !! ws) as [w|] eqn:Hw; cbn [from_option id dates].
    + unfold workspaceTotal at 2.
      destruct (dates w) as [ds|]; cbn [from_option id].
      * destruct (ds !! day) as [b|]; unfold Js.num_or0;
          cbn [from_option id totalSeconds emptyBucket]; lia.
      * rewrite lookup_empty. unfold Js.num_or0.
        cbn [from_option id totalSeconds emptyBucket]. rewrite !sumWith_empty. lia.
    + rewrite lookup_empty. unfold Js.num_or0.
      cbn [from_option id totalSeconds emptyBucket]. rewrite !sumWith_empty. lia.
  - rewrite !lookup_empty. unfold Js.num_or0.
    cbn [from_option id totalSeconds emptyBucket dates]. rewrite !lookup_empty.
    cbn [from_option id totalSeconds emptyBucket dates]. rewrite !sumWith_empty. lia.
Qed.

(** The three things a tick can do. *)
Lemma onTick_cases now s :
  (onTick now s).1 = s
  ∨ (running s = true
     ∧ idleTimeoutSeconds (config s) * 1000 ≤ now - lastActivity s
     ∧ (onTick now s).1 = set_lastTick now (set_idle true s))
  ∨ (running s = true
     ∧ now - lastActivity s < idleTimeoutSeconds (config s) * 1000
     ∧ 1000 ≤ now - lastTick s
     ∧ (onTick now s).1
       = set_data (accumulate (config s) (workspaceKeyOf s) (fileKeyOf s) (dateKeyFor now)
                     ((now - lastTick s) / 1000) (data s))
           (set_lastTick now s)).
Proof.
  destruct (running s) eqn:Hr; [|left; by rewrite onTick_not_running].
  destruct (Z_le_gt_dec (idleTimeoutSeconds (config s) * 1000) (now - lastActivity s)) as [Hi|Hi].
  { right. left. by rewrite onTick_idle. }
  destruct (Z_lt_ge_dec (now - lastTick s) 1000) as [Hd|Hd].
  { left. rewrite onTick_short; [done|done|lia|lia]. }
  right. right. rewrite onTick_active; [|done|lia|lia].
  repeat split; (done || lia).
Qed.

(** What an event can do to the data and to the clock of the last tick:
    only a tick that accumulates changes the data, and the clock of the
    last tick is left alone or set to a reading that the event
    brought. *)
Lemma serviceStep_cases e s :
  let s' := (serviceStep e s).1 in
  config s' = config s
  ∧ ((data s' = data s ∧ (lastTick s' = lastTick s ∨ lastTick s' ∈ readings e))
     ∨ ∃ now, e = Ticked now ∧ 1000 ≤ now - lastTick s ∧ lastTick s' = now
              ∧ data s' = accumulate (config s) (workspaceKeyOf s) (fileKeyOf s)
                            (dateKeyFor now) ((now - lastTick s) / 1000) (data s)).
Proof.
  destruct e as [t1 t2| |now|t1 t2|ed t1 t2]; cbn [serviceStep readings].
  - unfold start. destruct (running s); cbn; (split; [done|]); left; split; try done.
    + by left.
    + right. set_solver.
  - unfold stopService. destruct (running s); cbn; (split; [done|]); left; split; try done;
      by left.
  - destruct (onTick_cases now s) as [->|[(_ & _ & ->)|(_ & _ & Hd & ->)]]; cbn.
    + split; [done|]. left. split; [done|by left].
    + split; [done|]. left. split; [done|]. right. set_solver.
    + split; [done|]. right. by exists now.
  - destruct (running s); [|cbn; split; [done|]; left; split; [done|by left]].
    unfold markActivity. cbn. destruct (idle s); cbn; (split; [done|]); left; split; try done.
    + right. set_solver.
    + by left.
  - destruct (running s); [|cbn; split; [done|]; left; split; [done|by left]].
    destruct ed as [[f wf]|]; cbn.
    + unfold markActivity. cbn. destruct (idle s); cbn; (split; [done|]); left; split;
        try done.
      * right. set_solver.
      * by left.
    + split; [done|]. left. split; [done|by left].
Qed.
End service_facts.

(** ** Runs of the service *)

Lemma last_cons_default (y : Z) (l : list Z) (d : Z) :
  List.last (y :: l) d = List.last l y.
Proof.
  revert y d. induction l as [|z l IH]; intros y d; [done|].
  change (List.last (z :: l) d = List.last (z :: l) y). by rewrite !IH.
Qed.

Lemma last_app_default (l1 l2 : list Z) lo :
  List.last (l1 ++ l2) lo = List.last l2 (List.last l1 lo).
Proof.
  revert lo. induction l1 as [|y l1 IH]; intros lo; [done|].
  change (List.last (y :: (l1 ++ l2)) lo = List.last l2 (List.last (y :: l1) lo)).
  by rewrite !last_cons_default, IH.
Qed.

Lemma clockOrdered_last lo l :
  clockOrdered lo l = true → lo ≤ List.last l lo ∧ ∀ x, x ∈ l → lo ≤ x ∧ x ≤ List.last l lo.
Proof.
  revert lo. induction l as [|y l IH]; intros lo H.
  - split; [simpl; lia|]. by intros x ?%elem_of_nil.
  - cbn [clockOrdered] in H. apply andb_true_iff in H as [Hy Hl%IH].
    apply Z.leb_le in Hy. destruct Hl as [Hlast Hall].
    rewrite last_cons_default.
    split; [lia|]. intros x [->|Hx]%elem_of_cons; [lia|].
    destruct (Hall x Hx). lia.
Qed.

Lemma clockOrdered_app lo l1 l2 :
  clockOrdered lo (l1 ++ l2) = clockOrdered lo l1 && clockOrdered (List.last l1 lo) l2.
Proof.
  revert lo. induction l1 as [|y l1 IH]; intros lo; [done|].
  cbn [app clockOrdered]. by rewrite IH, andb_assoc, last_cons_default.
Qed.

Section run_facts.
Context {host : PathHost}.

Lemma serviceStep_bound e lo s :
  lastTick s ≤ lo → clockOrdered lo (readings e) = true →
  let s' := (serviceStep e s).1 in
  lastTick s ≤ lastTick s' ∧ lastTick s' ≤ List.last (readings e) lo
  ∧ 0 ≤ grandTotal (data s') - grandTotal (data s)
  ∧ 1000 * (grandTotal (data s') - grandTotal (data s)) ≤ lastTick s' - lastTick s.
Proof.
  intros Hlo Hord. destruct (clockOrdered_last _ _ Hord) as [Hlast Hall].
  destruct (serviceStep_cases e s) as [_ [[Hd [Ht|Ht]]|(now & -> & Hge & Ht & Hd)]];
    cbn zeta; rewrite Hd.
  - rewrite Ht. lia.
  - destruct (Hall _ Ht). lia.
  - rewrite grandTotal_accumulate, Ht. cbn [readings List.last] in *.
    apply Z.leb_le in Hord || (apply andb_true_iff in Hord as [Hord _]; apply Z.leb_le in Hord).
    pose proof (Z.mul_div_le (now - lastTick s) 1000).
    assert (1 ≤ (now - lastTick s) / 1000) by (apply Z.div_le_lower_bound; lia).
    lia.
Qed.

Lemma runService_bound es : ∀ lo s,
  lastTick s ≤ lo → clockOrdered lo (concat (map readings es)) = true →
  let s' := runService es s in
  lastTick s' ≤ List.last (concat (map readings es)) lo
  ∧ 0 ≤ grandTotal (data s') - grandTotal (data s)
  ∧ 1000 * (grandTotal (data s') - grandTotal (data s)) ≤ lastTick s' - lastTick s.
Proof.
  induction es as [|e es IH]; intros lo s Hlo Hord; cbn zeta.
  - cbn. lia.
  - cbn [map concat] in *. rewrite clockOrdered_app in Hord.
    apply andb_true_iff in Hord as [He Hes].
    destruct (serviceStep_bound e lo s Hlo He) as (H1 & H2 & H3 & H4).
    destruct (IH _ _ H2 Hes) as (H5 & H6 & H7).
    cbn [runService]. rewrite last_app_default. lia.
Qed.
End run_facts.

Lemma opt_str_or_nonempty a b : b ≠ "" → Js.opt_str_or a b ≠ "".
Proof. intros Hb. destruct a as [[|c a]|]; simpl; done. Qed.

Section counted_facts.
Context {host : PathHost}.

Lemma folderKeyFor_nonempty ws fk : fk ≠ "" → folderKeyFor ws fk ≠ "".
Proof.
  intros Hfk. unfold folderKeyFor.
  destruct (if String.prefix "file://" ws then uri_fsPath ws else Some ws) as [root|];
    [|done].
  by destruct (Js.split_head path_sep (path_relative root fk)).
Qed.

Lemma entryKeyFor_nonempty cfg ws fk : fk ≠ "" → entryKeyFor cfg ws fk ≠ "".
Proof.
  intros Hfk. unfold entryKeyFor.
  destruct (aggregateBy cfg); first [done | by apply folderKeyFor_nonempty].
Qed.

Lemma bump_entries (m : gmap string Count) k δ :
  k ≠ "" → 1 ≤ δ →
  map_Forall (λ k c, k ≠ "" ∧ ∃ n, c = CNum n ∧ 1 ≤ n) m →
  map_Forall (λ k c, k ≠ "" ∧ ∃ n, c = CNum n ∧ 1 ≤ n)
    (<[k := CNum (from_option countValue 0 (m !! k) + δ)]> m).
Proof.
  intros Hk Hδ Hm. apply map_Forall_insert_2; [|done]. split; [done|].
  eexists. split; [done|].
  destruct (m !! k) as [v|] eqn:Hv; simpl; [|lia].
  destruct (Hm _ _ Hv) as (_ & n & -> & Hn). simpl. lia.
Qed.

Lemma counted_numbers (m : gmap string Count) :
  map_Forall (λ k c, k ≠ "" ∧ ∃ n, c = CNum n ∧ 1 ≤ n) m → allNumbers m.
Proof. intros Hm k c Hc. destruct (Hm k c Hc) as (_ & n & -> & _). eauto. Qed.

(** Adding a second or more to a fresh bucket, or to a bucket that ticks
    made, under a key that names no property of [Object.prototype],
    gives a bucket that ticks made. *)
Lemma addDelta_countedBy cfg ws fk δ b :
  fk ≠ "" → 1 ≤ δ → plainKey (entryKeyFor cfg ws fk) →
  b = emptyBucket ∨ countedBy cfg b →
  countedBy cfg (addDelta cfg ws fk δ b).
Proof.
  intros Hfk Hδ Hp Hb.
  assert (∃ m, selectedMap cfg b = Some m
               ∧ totalSeconds b = Some (sumValues m)
               ∧ 0 ≤ sumValues m
               ∧ match aggregateBy cfg with
                 | file => byFolder b = Some ∅
                 | folder => byFile b = Some ∅
                 end
               ∧ map_Forall (λ k c, k ≠ "" ∧ ∃ n, c = CNum n ∧ 1 ≤ n) m)
    as (m & Hsel & Ht & Hs & Ho & Hm).
  { destruct Hb as [->|(m & Hsel & Ht & Hs & Ho & Hm)].
    - exists ∅. unfold selectedMap. destruct (aggregateBy cfg); cbn;
        rewrite sumValues_empty;
        (split; [done|]); (split; [done|]); (split; [lia|]); (split; [done|]);
        apply map_Forall_empty.
    - exists m. split; [done|]. split; [done|]. split; [lia|]. by split. }
  pose proof (entryKeyFor_nonempty cfg ws fk Hfk) as Hkey.
  pose proof (assigned_bumped _ _ δ _ (entryNumber_numbers _ _ (counted_numbers _ Hm) Hp))
    as Hnew.
  exists (<[entryKeyFor cfg ws fk
            := CNum (from_option countValue 0 (m !! entryKeyFor cfg ws fk) + δ)]> m).
  split; [by rewrite selectedMap_addDelta, Hsel; cbn; rewrite Hnew|].
  rewrite sumValues_insert. cbn [countValue].
  split.
  { unfold addDelta. destruct (aggregateBy cfg); cbn; rewrite Ht; cbn; f_equal; lia. }
  split; [lia|].
  split; [unfold addDelta; by destruct (aggregateBy cfg)|].
  by apply bump_entries.
Qed.

(** The key of the entry that a tick would write names no property of
    [Object.prototype]; nothing is asked of another event. *)
Lemma serviceStep_wellCounted e s :
  match e with
  | Ticked _ => plainKey (entryKeyFor (config s) (workspaceKeyOf s) (fileKeyOf s))
  | _ => True
  end →
  wellCounted (config s) (data s) →
  wellCounted (config (serviceStep e s).1) (data (serviceStep e s).1).
Proof.
  intros Hp Hs.
  destruct (serviceStep_cases e s) as [-> [[-> _]|(now & -> & Hge & _ & ->)]]; [done|].
  assert (1 ≤ (now - lastTick s) / 1000) by (apply Z.div_le_lower_bound; lia).
  intros ws day b Hb.
  destruct (decide ((ws, day) = (workspaceKeyOf s, dateKeyFor now))) as [[= -> ->]|Hne].
  - rewrite lookupBucket_accumulate in Hb. injection Hb as <-.
    split; [by apply opt_str_or_nonempty|].
    apply addDelta_countedBy; [by apply opt_str_or_nonempty|done|done|].
    unfold bucketOrEmpty.
    destruct (lookupBucket (data s) (workspaceKeyOf s) (dateKeyFor now)) as [b0|] eqn:Hb0;
      [right|by left].
    by destruct (Hs _ _ _ Hb0).
  - rewrite lookupBucket_accumulate_other in Hb by done. by apply (Hs ws day b).
Qed.

Lemma runService_config es s : config (runService es s) = config s.
Proof.
  revert s. induction es as [|e es IH]; intros s; [done|].
  cbn [runService]. rewrite IH. by destruct (serviceStep_cases e s) as [-> _].
Qed.

Lemma runService_wellCounted es s :
  plainRun es s →
  wellCounted (config s) (data s) → wellCounted (config s) (data (runService es s)).
Proof.
  revert s. induction es as [|e es IH]; intros s Hp Hs; [done|].
  cbn [runService]. destruct Hp as [Hp Hrest].
  pose proof (serviceStep_wellCounted e s Hp Hs) as Hs'.
  apply (IH _ Hrest) in Hs'. by destruct (serviceStep_cases e s) as [<- _].
Qed.

Lemma wellCounted_empty cfg : wellCounted cfg emptyData.
Proof. intros ws day b Hb. discriminate. Qed.
End counted_facts.

(** ** The service over a run of events *)

Lemma stopped_run {host : PathHost} es s :
  running s = false → Forall (λ e, isStart e = false) es → runService es s = s.
Proof.
  intros Hr Hes. induction Hes as [|e es He _ IH]; [done|].
  cbn [runService].
  assert ((serviceStep e s).1 = s) as ->; [|done].
  destruct e; cbn [serviceStep]; try discriminate.
  - unfold stopService. by rewrite Hr.
  - by rewrite onTick_not_running.
  - by rewrite Hr.
  - by rewrite Hr.
Qed.

(** X1. While the service is stopped nothing reaches it: after [stop()],
    ticks that are still delivered, editor events and further calls of
    [stop()] leave every field as it was, the data included. *)
Theorem stopped_service_ignores_events {host : PathHost}
    (es : list ServiceEvent) (s : TimeService) :
  Forall (λ e, isStart e = false) es →
  let s' := (stopService s).1 in
  running s' = false ∧ data s' = data s ∧ runService es s' = s'.
Proof.
  intros Hes s'.
  assert (running s' = false ∧ data s' = data s) as [Hr Hd].
  { subst s'. unfold stopService. by destruct (running s) eqn:E. }
  split; [done|]. split; [done|]. by apply stopped_run.
Qed.

Lemma stopped_service_ignores_events_witness :
  let s' := (stopService exampleService).1 in
  @runService posixHost
    [Ticked 5000; Active 6000 6000; EditorChanged (Some ("/w/a.ts", None)) 7000 7000;
     Ticked 9000; Stopped] s' = s'.
Proof.
  intros s'.
  apply (@stopped_service_ignores_events posixHost
           [Ticked 5000; Active 6000 6000; EditorChanged (Some ("/w/a.ts", None)) 7000 7000;
            Ticked 9000; Stopped] exampleService).
  repeat constructor.
Defined.

(** X2. Time during which the service was stopped is not counted: after
    [stop()] and [start()], the first tick that accumulates adds the
    whole seconds since the second clock reading of [start()], and
    nothing of the time before it. *)
Theorem restart_counts_from_start {host : PathHost} (s : TimeService) (t1 t2 now : Z) :
  now - t1 < idleTimeoutSeconds (config s) * 1000 →
  1000 ≤ now - t2 →
  let s1 := (start t1 t2 (stopService s).1).1 in
  running s1 = true ∧ idle s1 = false ∧ data s1 = data s
  ∧ grandTotal (data (onTick now s1).1) = grandTotal (data s) + (now - t2) / 1000.
Proof.
  intros Hi Hd s1.
  assert (running s1 = true ∧ idle s1 = false ∧ data s1 = data s
          ∧ lastActivity s1 = t1 ∧ lastTick s1 = t2 ∧ config s1 = config s)
    as (Hr & Hidle & Hdata & Ha & Ht & Hc).
  { subst s1. unfold start, stopService.
    destruct (running s) eqn:E; cbn; rewrite ?E; cbn; done. }
  do 3 (split; [done|]).
  rewrite onTick_active by (rewrite ?Ha, ?Ht, ?Hc; done).
  cbn [data set_data]. by rewrite grandTotal_accumulate, Ht, Hdata.
Qed.

Lemma restart_counts_from_start_witness :
  grandTotal (data (@onTick posixHost 9500
                      (start 7000 7000 (stopService exampleService).1).1).1)
  = grandTotal (data exampleService) + (9500 - 7000) / 1000.
Proof.
  apply (@restart_counts_from_start posixHost exampleService 7000 7000 9500);
    vm_compute; done.
Defined.

(** X3. [stop()] of a running service clears both timers and hands the
    data to the storage: nothing is written before the delay of [save]
    has passed, and when the timer of that [save] has fired the store
    holds the data of the service. [stop()] of a stopped service does
    nothing and saves nothing. *)
Theorem stop_saves_final_state (s : TimeService) (st : Storage.State)
    (last : option Json.value) :
  Storage.quiet last st →
  if running s then
    ∃ s' st',
      stop s st = (s', st', [UpdRunning false])
      ∧ running s' = false ∧ tickTimer s' = None ∧ persistTimer s' = None
      ∧ data s' = data s
      ∧ Storage.globalState st' = Storage.globalState st
      ∧ Storage.written st' = Storage.written st
      ∧ ∃ st2 st3,
          Storage.timer_fires (Storage.nextTimer st) st' = Some st2
          ∧ Storage.update_settles (Storage.nextTimer st) st2 = Some st3
          ∧ Storage.written st3 = (Storage.written st ++ [Some (encodeData (data s))])%list
          ∧ Storage.load st3 = encodeData (data s)
  else stop s st = (s, st, []).
Proof.
  intros Hq. unfold stop, stopService.
  destruct (running s) eqn:Hr; [|done]. cbn [negb].
  eexists _, _. split; [reflexivity|]. cbn.
  do 6 (split; [done|]).
  pose proof (StorageFacts.quiet_save last (encodeData (data s)) st Hq) as Hq1.
  pose proof (StorageFacts.armed_save last (encodeData (data s)) st Hq) as Harm.
  unfold persist.
  destruct (Storage.timer_fires (Storage.nextTimer st)
              (Storage.save (encodeData (data s)) st)) as [st2|] eqn:Hfire.
  2: { unfold Storage.timer_fires in Hfire. rewrite Harm in Hfire.
       rewrite bool_decide_eq_true_2 in Hfire by apply list_elem_of_here. done. }
  destruct (StorageFacts.quiet_fire _ _ _ _ Hq1 Hfire)
    as (d & [= <-] & Hw & Hgs & st3 & Hsettle & _ & Hw3 & Hgs3 & _).
  exists st2, st3. split; [done|]. split; [done|].
  split; [by rewrite Hw3, Hw|].
  unfold Storage.load. by rewrite Hgs3, Hgs, lookup_insert_eq.
Qed.

Lemma stop_saves_final_state_witness :
  ∃ s' st',
    stop exampleService (Storage.init ∅) = (s', st', [UpdRunning false])
    ∧ ∃ st2 st3,
        Storage.timer_fires 0 st' = Some st2
        ∧ Storage.update_settles 0 st2 = Some st3
        ∧ Storage.load st3 = encodeData (data exampleService).
Proof.
  destruct (stop_saves_final_state exampleService (Storage.init ∅) None
              (StorageFacts.quiet_init ∅))
    as (s' & st' & Hstop & _ & _ & _ & _ & _ & _ & st2 & st3 & Hf & Hs & _ & Hl).
  exists s', st'. split; [exact Hstop|].
  exists st2, st3. split; [exact Hf|]. split; [exact Hs|exact Hl].
Defined.

(** X4. Activity does not move the clock of the last tick unless the
    session was idle: when activity is recorded in a session that is not
    marked idle, the next tick counts every whole second since the tick
    before it, however long that is and however long ago the activity
    before this one was. *)
Theorem activity_keeps_tick_clock {host : PathHost} (s : TimeService) (t1 t2 now : Z) :
  running s = true → idle s = false →
  now - t1 < idleTimeoutSeconds (config s) * 1000 →
  1000 ≤ now - lastTick s →
  markActivity t1 t2 s = (set_lastActivity t1 s, [])
  ∧ data (onTick now (markActivity t1 t2 s).1).1
    = accumulate (config s) (workspaceKeyOf s) (fileKeyOf s) (dateKeyFor now)
        ((now - lastTick s) / 1000) (data s)
  ∧ grandTotal (data (onTick now (markActivity t1 t2 s).1).1)
    = grandTotal (data s) + (now - lastTick s) / 1000.
Proof.
  intros Hr Hidle Hi Hd.
  assert (markActivity t1 t2 s = (set_lastActivity t1 s, [])) as ->.
  { unfold markActivity. cbn [idle set_lastActivity]. by rewrite Hidle. }
  split; [done|]. cbn [fst].
  rewrite onTick_active by done.
  cbn [data set_data]. split; [done|]. apply grandTotal_accumulate.
Qed.

Lemma activity_keeps_tick_clock_witness :
  grandTotal (data (@onTick posixHost 28800000
                      (markActivity 28799000 28799000 exampleService).1).1)
  = grandTotal (data exampleService) + 28800.
Proof.
  destruct (@activity_keeps_tick_clock posixHost exampleService 28799000 28799000 28800000)
    as (_ & _ & H); [done|done|by vm_compute|by vm_compute|].
  exact H.
Defined.





Lemma serviceStep_bucket {host : PathHost} e s ws day b :
  lookupBucket (data s) ws day = Some b →
  ∃ b', lookupBucket (data (serviceStep e s).1) ws day = Some b'
        ∧ Js.num_or0 (totalSeconds b) ≤ Js.num_or0 (totalSeconds b').
Proof.
  intros Hb.
  destruct (serviceStep_cases e s) as [_ [[-> _]|(now & _ & Hge & _ & ->)]].
  { by exists b. }
  assert (1 ≤ (now - lastTick s) / 1000) by (apply Z.div_le_lower_bound; lia).
  destruct (decide ((ws, day) = (workspaceKeyOf s, dateKeyFor now))) as [[= -> ->]|Hne].
  - rewrite lookupBucket_accumulate. eexists. split; [done|].
    rewrite addDelta_total. unfold bucketOrEmpty. rewrite Hb. cbn. lia.
  - rewrite lookupBucket_accumulate_other by done. by exists b.
Qed.

(** X7. No bucket is ever removed or reduced: whatever events reach the
    service, a workspace and day that had a bucket still have one, and
    its total is not smaller than before. *)
Theorem bucket_never_shrinks {host : PathHost} (es : list ServiceEvent)
    (s : TimeService) (ws day : string) (b : DayBucket) :
  lookupBucket (data s) ws day = Some b →
  ∃ b', lookupBucket (data (runService es s)) ws day = Some b'
        ∧ Js.num_or0 (totalSeconds b) ≤ Js.num_or0 (totalSeconds b').
Proof.
  revert s b. induction es as [|e es IH]; intros s b Hb.
  { by exists b. }
  cbn [runService].
  destruct (serviceStep_bucket e s ws day b Hb) as (b1 & Hb1 & Hle).
  destruct (IH _ _ Hb1) as (b' & Hb' & Hle').
  exists b'. split; [done|lia].
Qed.

Lemma bucket_never_shrinks_witness :
  let s := (@onTick posixHost 2500 exampleService).1 in
  ∃ b', lookupBucket (data (@runService posixHost
                              [Ticked 4000; Stopped; Started 9000 9000; Ticked 12000] s))
          "untitled" "1970-01-01" = Some b'
        ∧ 2 ≤ Js.num_or0 (totalSeconds b').
Proof.
  intros s.
  apply (@bucket_never_shrinks posixHost
           [Ticked 4000; Stopped; Started 9000 9000; Ticked 12000] s
           "untitled" "1970-01-01"
           {| totalSeconds := Some 2; byFile := Some ∅;
              byFolder := Some {["." := CNum 2]} |}).
  by vm_compute.
Defined.

(** X8. The service never counts more time than has passed: when the
    readings of the clock do not go back, the seconds added to the data
    over any run of events are at most the time between the clock of the
    last tick before the run and after it, and that clock never passes
    the last reading. The sum of all totals never goes down. *)
Theorem runService_never_overcounts {host : PathHost} (es : list ServiceEvent)
    (s : TimeService) :
  clockOrdered (lastTick s) (concat (map readings es)) = true →
  let s' := runService es s in
  0 ≤ grandTotal (data s') - grandTotal (data s)
  ∧ 1000 * (grandTotal (data s') - grandTotal (data s)) ≤ lastTick s' - lastTick s
  ∧ lastTick s' ≤ List.last (concat (map readings es)) (lastTick s).
Proof.
  intros Hord s'.
  destruct (runService_bound es (lastTick s) s (Z.le_refl _) Hord) as (H1 & H2 & H3).
  done.
Qed.

Lemma runService_never_overcounts_witness :
  let es := [Ticked 2500; Active 3000 3000; Ticked 400000; Active 500000 500000;
             Ticked 503000] in
  let s' := @runService posixHost es exampleService in
  1000 * (grandTotal (data s') - grandTotal (data exampleService))
  ≤ lastTick s' - lastTick exampleService.
Proof.
  intros es s'.
  destruct (@runService_never_overcounts posixHost es exampleService) as (_ & H & _);
    [by vm_compute|].
  exact H.
Defined.

(** X9. What the ticks write is well formed, as long as no tick finds
    a key that names a property of [Object.prototype]: if every bucket
    of the data has the map that the configuration selects, a total
    equal to the sum of that map, an empty other map, and only entries
    with a key that is not empty and a number of at least one second,
    under a workspace key that is not empty, then the same holds after
    any such run of events. *)
Theorem runService_keeps_buckets_counted {host : PathHost} (es : list ServiceEvent)
    (s : TimeService) :
  wellCounted (config s) (data s) →
  plainRun es s →
  ∀ ws day b,
    lookupBucket (data (runService es s)) ws day = Some b →
    ws ≠ ""
    ∧ ∃ m,
        selectedMap (config s) b = Some m
        ∧ totalSeconds b = Some (sumValues m)
        ∧ 1 ≤ sumValues m
        ∧ match aggregateBy (config s) with
          | file => byFolder b = Some ∅
          | folder => byFile b = Some ∅
          end
        ∧ ∀ k c, m !! k = Some c → k ≠ "" ∧ ∃ n, c = CNum n ∧ 1 ≤ n.
Proof.
  intros Hs Hp ws day b Hb.
  destruct (runService_wellCounted es s Hp Hs ws day b Hb)
    as (Hws & m & Hsel & Ht & Hn & Ho & Hm).
  split; [done|]. exists m. done.
Qed.

Lemma runService_keeps_buckets_counted_witness :
  let s := newTimeService defaultConfig 0 in
  let es := [Started 1762216200000 1762216200000;
             EditorChanged (Some ("/w/src/a.ts", Some "/w")) 1762216200100 1762216200100;
             Ticked 1762216202500] in
  let b := {| totalSeconds := Some 2; byFile := Some ∅;
              byFolder := Some {["src" := CNum 2]} |} in
  lookupBucket (data (@runService posixHost es s)) "/w" "2025-11-04" = Some b
  ∧ ∃ m, byFolder b = Some m ∧ totalSeconds b = Some (sumValues m).
Proof.
  intros s es b.
  assert (@plainRun posixHost es s) as Hp by (by vm_compute).
  assert (lookupBucket (data (@runService posixHost es s)) "/w" "2025-11-04" = Some b)
    as Hb by (by vm_compute).
  split; [exact Hb|].
  destruct (@runService_keeps_buckets_counted posixHost es s (wellCounted_empty _) Hp
              "/w" "2025-11-04" b Hb) as (_ & m & Hsel & Ht & _).
  exists m. split; [exact Hsel|exact Ht].
Defined.

(** ** What the status bar and the dashboard show *)

Lemma Zsum_perm (l l' : list Z) : l ≡ₚ l' → foldr Z.add 0 l = foldr Z.add 0 l'.
Proof. induction 1; simpl; lia. Qed.

Lemma sumWith_list {A} (f : A → Z) (m : gmap string A) :
  sumWith f m = foldr Z.add 0 (map (λ kv, f kv.2) (map_to_list m)).
Proof.
  unfold sumWith. rewrite map_fold_foldr.
  induction (map_to_list m) as [|[k a] l IH]; [done|]. simpl. by rewrite IH.
Qed.

Lemma fold_left_sum {A} (g : A → Z) (l : list A) (a : Z) :
  fold_left (λ acc x, acc + g x) l a = a + foldr Z.add 0 (map g l).
Proof.
  revert a. induction l as [|x l IH]; intros a; simpl; [lia|]. rewrite IH. lia.
Qed.

Lemma countValue_orZero c : countValue (Dashboard.orZero c) = countValue c.
Proof. by destruct c as [n|[|x str]]. Qed.

Lemma values_perm {engine : JsEngine} (m : gmap string Count) :
  Dashboard.values (Dashboard.buildBucketsPayload m)
  ≡ₚ map (λ kv, Dashboard.orZero kv.2) (map_to_list m).
Proof.
  unfold Dashboard.buildBucketsPayload, Dashboard.sortedBars. cbn [Dashboard.values].
  rewrite merge_sort_Permutation, map_map. done.
Qed.

Lemma values_sum {engine : JsEngine} (m : gmap string Count) :
  foldr Z.add 0 (map countValue (Dashboard.values (Dashboard.buildBucketsPayload m)))
  = sumValues m.
Proof.
  change (sumValues m) with (sumWith countValue m). rewrite sumWith_list.
  apply Zsum_perm. rewrite values_perm, map_map.
  erewrite map_ext; [done|]. intros [k c]. apply countValue_orZero.
Qed.

Lemma opt_str_or_idem a b : Js.opt_str_or a (Js.opt_str_or a b) = Js.opt_str_or a b.
Proof. by destruct a as [[|c a]|]. Qed.

(** X10. The bars of the dashboard add up to its total, as long as no
    tick finds a key that names a property of [Object.prototype]: when
    the data is as ticks of this configuration leave it, the values that
    the page draws for today, one bar for each folder or file, are
    numbers of at least one second and sum to the number shown as 'Total
    today', after any such run of events and for any workspace, with or
    without a bucket for today. *)
Theorem dashboard_bars_add_up {host : PathHost} (page : JsEngine)
    (es : list ServiceEvent) (s : TimeService) (now : Z) :
  wellCounted (config s) (data s) →
  plainRun es s →
  let s' := runService es s in
  let today := Commands.showDashboardToday s' (data s') now in
  let bars :=
    Dashboard.values (@Dashboard.buildBucketsPayload page (Commands.buckets today)) in
  Forall (λ c, ∃ n, c = CNum n ∧ 1 ≤ n) bars
  ∧ foldr Z.add 0 (map countValue bars) = Commands.today_totalSeconds today.
Proof.
  intros Hs Hp s' today bars. subst bars today. unfold Commands.showDashboardToday.
  cbn [Commands.buckets Commands.today_totalSeconds]. rewrite values_sum.
  rewrite (@values_perm page).
  unfold getTodaySummaryForWorkspace.
  destruct (lookupBucket (data s') _ (dateKeyFor now)) as [b|] eqn:Hb.
  - subst s'. rewrite runService_config.
    destruct (runService_wellCounted es s Hp Hs _ _ _ Hb)
      as (_ & m & Hsel & Ht & _ & _ & Hm).
    unfold dashboardBuckets. rewrite Hsel, Ht. cbn [default from_option id Js.num_or0].
    split; [|done].
    apply Forall_forall. intros c Hin%list_elem_of_In%in_map_iff.
    destruct Hin as ([k c0] & <- & Hin%list_elem_of_In%elem_of_map_to_list).
    destruct (Hm k c0 Hin) as (_ & n & -> & Hn). cbn. eauto.
  - unfold dashboardBuckets, selectedMap. destruct (aggregateBy (config s')); cbn;
      rewrite map_to_list_empty, sumValues_empty; by split.
Qed.

Lemma dashboard_bars_add_up_witness :
  let es := [Started 1762216200000 1762216200000;
             EditorChanged (Some ("/w/src/a.ts", Some "/w")) 1762216200100 1762216200100;
             Ticked 1762216202500;
             EditorChanged (Some ("/w/test/b.ts", Some "/w")) 1762216203000 1762216203000;
             Ticked 1762216209500] in
  let s' := @runService posixHost es (newTimeService defaultConfig 0) in
  let today := Commands.showDashboardToday s' (data s') 1762216209500 in
  let bars :=
    Dashboard.values (@Dashboard.buildBucketsPayload nodeEngine (Commands.buckets today)) in
  foldr Z.add 0 (map countValue bars) = Commands.today_totalSeconds today
  ∧ bars = [CNum 7; CNum 2]
  ∧ Commands.today_totalSeconds today = 9.
Proof.
  intros es s' today bars. split; [|by vm_compute].
  apply (@dashboard_bars_add_up posixHost nodeEngine es (newTimeService defaultConfig 0)
           1762216209500).
  - apply wellCounted_empty.
  - by vm_compute.
Defined.

(** X11. Once the store holds the data of the service, the status bar
    shows the tick: after a tick that accumulates, and on the same UTC
    day, the text is 'TimeZap: ', the formatted sum of the day's previous
    total of the active workspace and the seconds of the tick, and
    ' (live)'. *)
Theorem refresh_after_tick {host : PathHost} (s : TimeService) (now now' : Z) :
  running s = true →
  now - lastActivity s < idleTimeoutSeconds (config s) * 1000 →
  1000 ≤ now - lastTick s →
  dateKeyFor now' = dateKeyFor now →
  let s' := (onTick now s).1 in
  let before :=
    Js.num_or0 (totalSeconds
      (getTodaySummaryForWorkspace s (data s) (activeWorkspace s) now')) in
  refreshText s' (data s') now'
  = "TimeZap: "
    ++ StatusBar.formatSecondsHuman (JsNum (before + (now - lastTick s) / 1000))
    ++ " (live)".
Proof.
  intros Hr Hi Hd Hday s' before. subst s' before.
  rewrite onTick_active by done.
  unfold refreshText, getTodaySummaryForWorkspace.
  cbn [data set_data running set_lastTick activeWorkspace].
  rewrite Hr, !opt_str_or_idem, Hday.
  change (Js.opt_str_or (activeWorkspace s) "untitled") with (workspaceKeyOf s).
  rewrite lookupBucket_accumulate, addDelta_total. unfold bucketOrEmpty.
  by destruct (lookupBucket (data s) (workspaceKeyOf s) (dateKeyFor now)).
Qed.

Lemma refresh_after_tick_witness :
  refreshText (@onTick posixHost 75000 exampleService).1
    (data (@onTick posixHost 75000 exampleService).1) 80000
  = "TimeZap: 1m 15s (live)".
Proof.
  rewrite (@refresh_after_tick posixHost exampleService 75000 80000);
    by vm_compute.
Defined.

(** X12. Without seconds for today the status bar shows zero: when the
    loaded data has no bucket for the active workspace (['untitled']
    without one) and today's UTC date, or a bucket without a positive
    total, the text is 'TimeZap: 0s', followed by ' (live)' while the
    service runs. *)
Theorem refresh_without_seconds (s : TimeService) (loaded : PersistedData) (now : Z) :
  from_option (λ b, Js.num_or0 (totalSeconds b)) 0
    (lookupBucket loaded (Js.opt_str_or (activeWorkspace s) "untitled") (dateKeyFor now))
  ≤ 0 →
  refreshText s loaded now = if running s then "TimeZap: 0s (live)" else "TimeZap: 0s".
Proof.
  intros Hle. unfold refreshText, getTodaySummaryForWorkspace.
  rewrite opt_str_or_idem.
  destruct (lookupBucket loaded _ (dateKeyFor now)) as [b|]; cbn in Hle |- *.
  - rewrite formatSecondsHuman_nonpositive by done. by destruct (running s).
  - by destruct (running s).
Qed.

Lemma refresh_without_seconds_witness :
  refreshText exampleService emptyData 5000 = "TimeZap: 0s (live)".
Proof. apply (refresh_without_seconds exampleService emptyData 5000). by vm_compute. Defined.

(** ** More on the time series *)

Section series_more.
Context {tz : JsDate.TimeZone} {coll : Collation}.

(** X13. With one reading of the clock the ranges agree where they
    overlap, in every time zone: '7d' is the last seven entries of '30d',
    and '30d' the last thirty of '1y'. *)
Theorem series_ranges_nest (s : TimeService) (loaded : PersistedData)
    (workspaceUri : option string) (t : Z) :
  let r := getTimeSeriesForWorkspaceRanges s loaded workspaceUri t t t in
  range7d r = drop 23 (range30d r) ∧ range30d r = drop 335 (range1y r).
Proof.
  unfold getTimeSeriesForWorkspaceRanges.
  destruct (wfs ← workspaceFolders loaded; _) as [ds|];
    cbn [range7d range30d range1y]; unfold buildContiguous, makeRange;
    rewrite !skipn_map; split; f_equal.
Qed.

(** X14. 'all' holds one entry for each recorded day of the workspace,
    and the total that the dashboard shows for it is the sum of the
    totals of those days; for a workspace without a record, or without
    dates, 'all' is empty and the total is zero. *)
Theorem series_all_total (s : TimeService) (loaded : PersistedData)
    (workspaceUri : option string) (t7 t30 t1y : Z) :
  let r := getTimeSeriesForWorkspaceRanges s loaded workspaceUri t7 t30 t1y in
  let wsKey := Js.opt_str_or workspaceUri (Js.opt_str_or (activeWorkspace s) "untitled") in
  let w := workspaceFolders loaded ≫= (.!! wsKey) in
  length (rangeAll r) = size (default ∅ (w ≫= dates))
  ∧ Dashboard.seriesTotal (rangeAll r) = from_option workspaceTotal 0 w.
Proof.
  unfold getTimeSeriesForWorkspaceRanges.
  destruct (workspaceFolders loaded) as [wfs|]; cbn; [|done].
  destruct (wfs !! _) as [w|]; cbn; [|done].
  unfold workspaceTotal.
  destruct (dates w) as [ds|]; cbn [rangeAll default from_option id].
  - split; [apply dayEntries_length|].
    unfold Dashboard.seriesTotal. rewrite fold_left_sum, sumWith_list.
    unfold dayEntries. rewrite Z.add_0_l. apply Zsum_perm.
    rewrite merge_sort_Permutation, map_map. done.
  - split; [done|]. by rewrite sumWith_empty.
Qed.

(** X15. A workspace that has no record, or a record without dates,
    gets ranges of zeros: every entry of '7d', '30d' and '1y' holds zero
    seconds, so the total shown for each of them is zero. *)
Theorem series_unknown_workspace (s : TimeService) (loaded : PersistedData)
    (workspaceUri : option string) (t7 t30 t1y : Z) :
  let wsKey := Js.opt_str_or workspaceUri (Js.opt_str_or (activeWorkspace s) "untitled") in
  (workspaceFolders loaded ≫= (.!! wsKey)) ≫= dates = None →
  let r := getTimeSeriesForWorkspaceRanges s loaded workspaceUri t7 t30 t1y in
  Forall (λ e, seconds e = 0) (range7d r ++ range30d r ++ range1y r)
  ∧ rangeAll r = []
  ∧ Dashboard.seriesTotal (range7d r) = 0
  ∧ Dashboard.seriesTotal (range30d r) = 0
  ∧ Dashboard.seriesTotal (range1y r) = 0.
Proof.
  intros wsKey Hnone r. subst r. unfold getTimeSeriesForWorkspaceRanges. fold wsKey.
  assert ((wfs ← workspaceFolders loaded; ws ← wfs !! wsKey; dates ws) = None) as ->.
  { destruct (workspaceFolders loaded) as [wfs|]; [|done]. exact Hnone. }
  cbn [range7d range30d range1y rangeAll].
  assert (∀ days, Forall (λ e, seconds e = 0) (makeRange t7 days)) as Hz.
  { intros days. apply Forall_forall. intros e. apply makeRange_seconds. }
  assert (∀ l, Forall (λ e, seconds e = 0) l → Dashboard.seriesTotal l = 0) as Hsum.
  { intros l Hl. unfold Dashboard.seriesTotal. rewrite fold_left_sum.
    induction Hl as [|e l He _ IH]; [done|]. simpl in *. lia. }
  split; [by rewrite !Forall_app|]. split; [done|]. by rewrite !Hsum.
Qed.

Lemma daysBefore_zero t :
  JsDate.tza_local (JsDate.LocalTime t) = JsDate.tza_utc t → daysBefore t 0 = t.
Proof.
  intros Hz. unfold daysBefore, JsDate.setDate, JsDate.getDate. cbv zeta.
  replace (JsDate.DateFromTime (JsDate.LocalTime t) - 0)
    with (JsDate.DateFromTime (JsDate.LocalTime t) + 0) by lia.
  rewrite JsDateFacts.MakeDay_shift. unfold JsDate.UTC. rewrite Z.add_0_r.
  assert (JsDate.MakeDate (JsDate.Day (JsDate.LocalTime t))
            (JsDate.TimeWithinDay (JsDate.LocalTime t)) = JsDate.LocalTime t) as ->.
  { unfold JsDate.MakeDate, JsDate.Day, JsDate.TimeWithinDay, JsDate.msPerDay.
    pose proof (Z.div_mod (JsDate.LocalTime t) 86400000 ltac:(done)). lia. }
  rewrite Hz. unfold JsDate.LocalTime. lia.
Qed.

(** X16. The series and the summary agree on today: when the local time
    of the reading is read back with the offset it was made with, the
    last entry of '7d', '30d' and '1y' carries the UTC date of the
    reading and the total that [getTodaySummaryForWorkspace] reports for
    the same workspace at the same reading. *)
Theorem series_ends_with_today (s : TimeService) (loaded : PersistedData)
    (workspaceUri : option string) (t : Z) :
  JsDate.tza_local (JsDate.LocalTime t) = JsDate.tza_utc t →
  let r := getTimeSeriesForWorkspaceRanges s loaded workspaceUri t t t in
  let today :=
    {| date := dateKeyFor t;
       seconds := Js.num_or0 (totalSeconds
                    (getTodaySummaryForWorkspace s loaded workspaceUri t)) |} in
  last (range7d r) = Some today ∧ last (range30d r) = Some today
  ∧ last (range1y r) = Some today.
Proof.
  intros Hz r today. subst r today.
  unfold getTimeSeriesForWorkspaceRanges, getTodaySummaryForWorkspace, lookupBucket.
  set (wsKey := Js.opt_str_or workspaceUri _).
  assert (∀ (f : Z → SeriesEntry) days,
            last (map f (countdown (S days))) = Some (f 0)) as Hlast.
  { intros f days. unfold countdown. cbn [seq rev]. rewrite !map_app. cbn [map].
    apply last_snoc. }
  destruct (wfs ← workspaceFolders loaded; ws ← wfs !! wsKey; dates ws) as [ds|] eqn:Hds.
  - assert ((workspaceFolders loaded ≫= λ wfs, wfs !! wsKey ≫= λ w, dates w ≫= λ ds0,
              ds0 !! dateKeyFor t)
            = ds !! dateKeyFor t) as ->.
    { destruct (workspaceFolders loaded) as [wfs|]; [|done]. cbn in *.
      destruct (wfs !! wsKey) as [w|]; [|done]. cbn in *. by rewrite Hds. }
    cbn [range7d range30d range1y]. unfold buildContiguous.
    rewrite !Hlast, daysBefore_zero by done.
    by destruct (ds !! dateKeyFor t).
  - assert ((workspaceFolders loaded ≫= λ wfs, wfs !! wsKey ≫= λ w, dates w ≫= λ ds0,
              ds0 !! dateKeyFor t) = None) as ->.
    { destruct (workspaceFolders loaded) as [wfs|]; [|done]. cbn in *.
      destruct (wfs !! wsKey) as [w|]; [|done]. cbn in *. by rewrite Hds. }
    cbn [range7d range30d range1y]. unfold makeRange.
    by rewrite !Hlast, daysBefore_zero by done.
Qed.
End series_more.

Lemma series_unknown_workspace_witness :
  Dashboard.seriesTotal
    (range30d (@getTimeSeriesForWorkspaceRanges toronto_autumn_2025 codeOrder
                 exampleService emptyData (Some "/w") 0 0 0))
  = 0.
Proof.
  destruct (@series_unknown_workspace toronto_autumn_2025 codeOrder
              exampleService emptyData (Some "/w") 0 0 0)
    as (_ & _ & _ & H & _); [done|].
  exact H.
Defined.

Lemma series_ends_with_today_witness :
  last (range7d (@getTimeSeriesForWorkspaceRanges toronto_autumn_2025 codeOrder
                   exampleService emptyData None
                   1762216200000 1762216200000 1762216200000))
  = Some {| date := "2025-11-04"; seconds := 0 |}.
Proof.
  destruct (@series_ends_with_today toronto_autumn_2025 codeOrder
              exampleService emptyData None 1762216200000) as (H & _ & _);
    [by vm_compute|].
  rewrite H. by vm_compute.
Defined.

(** ** More on the debounced save *)

Module StorageMore.
Import Storage.

Lemma elem_of_filter_other (t t' : nat) (l : list nat) :
  t ∈ List.filter (λ x, negb (Nat.eqb x t')) l ↔ t ∈ l ∧ t ≠ t'.
Proof.
  rewrite !list_elem_of_In, filter_In, negb_true_iff, Nat.eqb_neq. done.
Qed.

(** Handles are given out in increasing order: one that is armed,
    waiting or resolved is below the next one. *)
Lemma step_fresh e st st' :
  step e st = Some st' →
  (∀ t, t ∈ armed st ∨ t ∈ awaiting st ∨ t ∈ resolved st → (t < nextTimer st)%nat) →
  ∀ t, t ∈ armed st' ∨ t ∈ awaiting st' ∨ t ∈ resolved st' → (t < nextTimer st')%nat.
Proof.
  intros Hstep Hf t. destruct e as [d|t0|t0]; cbn [step] in Hstep.
  - injection Hstep as <-. unfold save. cbn.
    rewrite elem_of_app, list_elem_of_singleton.
    intros [[Ht| ->]|Ht]; [|lia|].
    + assert (t ∈ armed st) as Ht'.
      { destruct (saveTimer st); [by apply elem_of_filter_other in Ht as [? _]|done]. }
      specialize (Hf t (or_introl Ht')). lia.
    + specialize (Hf t (or_intror Ht)). lia.
  - unfold timer_fires in Hstep. case_bool_decide as Hin; [|done].
    injection Hstep as <-. cbn.
    rewrite elem_of_filter_other, elem_of_app, list_elem_of_singleton.
    intros [[Ht _]|[[Ht| ->]|Ht]]; apply Hf; auto.
  - unfold update_settles in Hstep. case_bool_decide as Hin; [|done].
    injection Hstep as <-. cbn.
    rewrite elem_of_filter_other, elem_of_app, list_elem_of_singleton.
    intros [Ht|[[Ht _]|[Ht| ->]]]; apply Hf; auto.
Qed.

Lemma run_fresh es : ∀ st st',
  run es st = Some st' →
  (∀ t, t ∈ armed st ∨ t ∈ awaiting st ∨ t ∈ resolved st → (t < nextTimer st)%nat) →
  ∀ t, t ∈ armed st' ∨ t ∈ awaiting st' ∨ t ∈ resolved st' → (t < nextTimer st')%nat.
Proof.
  induction es as [|e es IH]; intros st st' Hrun Hf.
  - by injection Hrun as <-.
  - cbn [run] in Hrun. destruct (step e st) as [st1|] eqn:Hstep; [|done].
    cbn in Hrun. eapply IH; [done|]. by eapply step_fresh.
Qed.

(** A handle that was given out and is neither armed, nor waiting, nor
    resolved stays so: its timer was cleared, and nothing can resolve
    the promise that waits for it. *)
Lemma step_abandoned e st st' t :
  step e st = Some st' →
  (t < nextTimer st)%nat ∧ (t ∉ armed st) ∧ (t ∉ awaiting st) ∧ (t ∉ resolved st) →
  (t < nextTimer st')%nat ∧ (t ∉ armed st') ∧ (t ∉ awaiting st') ∧ (t ∉ resolved st').
Proof.
  intros Hstep (Hlt & Ha & Hw & Hr). destruct e as [d|t0|t0]; cbn [step] in Hstep.
  - injection Hstep as <-. unfold save. cbn. split; [lia|]. split; [|done].
    rewrite elem_of_app, list_elem_of_singleton. intros [Ht|Ht]; [|lia].
    destruct (saveTimer st); [by apply elem_of_filter_other in Ht as [? _]|done].
  - unfold timer_fires in Hstep. case_bool_decide as Hin; [|done].
    injection Hstep as <-. cbn. split; [done|].
    rewrite elem_of_filter_other, elem_of_app, list_elem_of_singleton.
    split; [by intros [? _]|]. split; [|done]. intros [?| ->]; done.
  - unfold update_settles in Hstep. case_bool_decide as Hin; [|done].
    injection Hstep as <-. cbn. split; [done|]. split; [done|].
    rewrite elem_of_filter_other, elem_of_app, list_elem_of_singleton.
    split; [by intros [? _]|]. intros [?| ->]; done.
Qed.

Lemma run_abandoned es : ∀ st st' t,
  run es st = Some st' →
  (t < nextTimer st)%nat ∧ (t ∉ armed st) ∧ (t ∉ awaiting st) ∧ (t ∉ resolved st) →
  (t < nextTimer st')%nat ∧ (t ∉ armed st') ∧ (t ∉ awaiting st') ∧ (t ∉ resolved st').
Proof.
  induction es as [|e es IH]; intros st st' t Hrun Hab.
  - by injection Hrun as <-.
  - cbn [run] in Hrun. destruct (step e st) as [st1|] eqn:Hstep; [|done].
    cbn in Hrun. eapply IH; [done|]. by eapply step_abandoned.
Qed.

(** After a burst of calls of [save] in a quiet state the timer of the
    last call is the only one armed. *)
Lemma saves_quiet ds : ∀ last st,
  quiet last st →
  ∃ st1, run (map Save ds) st = Some st1
         ∧ quiet (lastSaveOf (map DoSave ds) last) st1
         ∧ nextTimer st1 = (nextTimer st + length ds)%nat
         ∧ written st1 = written st ∧ globalState st1 = globalState st
         ∧ resolved st1 = resolved st.
Proof.
  induction ds as [|d ds IH]; intros last st Hq.
  - exists st. rewrite Nat.add_0_r. done.
  - destruct (IH (Some d) (save d st) (StorageFacts.quiet_save _ _ _ Hq))
      as (st1 & Hrun & Hq1 & Hn & Hw & Hg & Hr).
    exists st1. cbn [map run step mbind option_bind]. split; [done|].
    split; [exact Hq1|].
    cbn in Hn. cbn [length]. split; [lia|]. done.
Qed.

(** A burst of calls of [save] in a quiet state, then the timer of the
    last call: one write, of the data of the last call. *)
Lemma burst_writes_once (ds : list Json.value) (d : Json.value)
    (st : State) (last : option Json.value) :
  quiet last st →
  let t := (nextTimer st + length ds)%nat in
  ∃ st1 st2 st3,
    run (map Save ds) st = Some st1
    ∧ timer_fires t (save d st1) = Some st2
    ∧ update_settles t st2 = Some st3
    ∧ written st3 = (written st ++ [Some d])%list
    ∧ load st3 = d
    ∧ resolved st3 = (resolved st ++ [t])%list
    ∧ armed st3 = [] ∧ pendingData st3 = None ∧ awaiting st3 = []
    ∧ nextTimer st3 = S t.
Proof.
  intros Hq t.
  destruct (saves_quiet ds last st Hq) as (st1 & Hrun & Hq1 & Hn & Hw & Hg & Hr).
  pose proof (StorageFacts.quiet_save _ d st1 Hq1) as Hq2.
  pose proof (StorageFacts.armed_save _ d st1 Hq1) as Harm.
  rewrite Hn in Harm. fold t in Harm.
  destruct (timer_fires t (save d st1)) as [st2|] eqn:Hfire.
  2: { unfold timer_fires in Hfire. rewrite Harm in Hfire.
       rewrite bool_decide_eq_true_2 in Hfire by apply list_elem_of_here. done. }
  destruct (StorageFacts.quiet_fire _ _ _ _ Hq2 Hfire)
    as (d' & [= <-] & Hw2 & Hgs & st3 & Hsettle & [Haw3 _] & Hw3 & Hgs3 & Hr3).
  exists st1, st2, st3. do 3 (split; [done|]).
  split; [by rewrite Hw3, Hw2; cbn; rewrite Hw|].
  split; [unfold load; by rewrite Hgs3, Hgs, lookup_insert_eq|].
  split; [by rewrite Hr3; cbn; rewrite Hr|].
  unfold update_settles in Hsettle. case_bool_decide; [|done].
  injection Hsettle as <-. cbn.
  unfold timer_fires in Hfire. case_bool_decide; [|done].
  injection Hfire as <-. cbn in *. rewrite Harm, StorageFacts.filter_other_nil.
  by rewrite Hn.
Qed.

End StorageMore.

(** X17. A call of [save] that is followed by another before its timer
    has fired never returns: its timer is cleared and its promise is
    resolved by nothing that can happen later, so whoever awaits it
    (the [persist()] of the service, 'timezap.resetData',
    [importFromJson]) waits for ever, and its data is written only if a
    later call passes it again. *)
Theorem superseded_save_never_resolves (store : gmap string Json.value)
    (before after : list Storage.Event) (d1 d2 : Json.value)
    (st st' : Storage.State) :
  Storage.run before (Storage.init store) = Some st →
  Storage.run after (Storage.save d2 (Storage.save d1 st)) = Some st' →
  (Storage.nextTimer st ∉ Storage.resolved st')
  ∧ (Storage.nextTimer st ∉ Storage.armed st')
  ∧ Storage.timer_fires (Storage.nextTimer st) st' = None.
Proof.
  intros Hbefore Hafter.
  assert (∀ t, t ∈ Storage.armed st ∨ t ∈ Storage.awaiting st ∨ t ∈ Storage.resolved st →
               (t < Storage.nextTimer st)%nat) as Hfresh.
  { eapply StorageMore.run_fresh; [exact Hbefore|].
    cbn. intros t [Ht|[Ht|Ht]]; by apply elem_of_nil in Ht. }
  destruct (StorageMore.run_abandoned after _ st' (Storage.nextTimer st) Hafter)
    as (_ & Ha & _ & Hr).
  { unfold Storage.save. cbn. split; [lia|].
    rewrite elem_of_app, list_elem_of_singleton.
    rewrite StorageMore.elem_of_filter_other.
    split; [intros [[_ ?]|?]; [done|lia]|].
    split; intros Ht.
    - specialize (Hfresh _ (or_intror (or_introl Ht))). lia.
    - specialize (Hfresh _ (or_intror (or_intror Ht))). lia. }
  split; [done|]. split; [done|].
  unfold Storage.timer_fires. by rewrite bool_decide_eq_false_2.
Qed.

Lemma superseded_save_never_resolves_witness :
  let st' :=
    {| Storage.pendingData := None; Storage.saveTimer := None;
       Storage.armed := []; Storage.awaiting := []; Storage.nextTimer := 2;
       Storage.globalState := {[Storage.key := Json.Num 2]};
       Storage.written := [Some (Json.Num 2)]; Storage.resolved := [1%nat] |} in
  O ∉ Storage.resolved st'.
Proof.
  intros st'.
  apply (superseded_save_never_resolves ∅ []
           [Storage.TimerFires 1; Storage.UpdateSettles 1]
           (Json.Num 1) (Json.Num 2) (Storage.init ∅) st');
    by vm_compute.
Defined.

(** X18. A burst of saves costs one write: when [save] is called any
    number of times in a quiet state and the timer of the last call then
    fires, the store is written once, with the data of the last call,
    which is what [load] returns afterwards; only the last call
    returns. *)
Theorem debounced_saves_write_once (ds : list Json.value) (d : Json.value)
    (st : Storage.State) (last : option Json.value) :
  Storage.quiet last st →
  let t := (Storage.nextTimer st + length ds)%nat in
  ∃ st',
    Storage.run (map Storage.Save ds
                 ++ [Storage.Save d; Storage.TimerFires t; Storage.UpdateSettles t])%list st
    = Some st'
    ∧ Storage.written st' = (Storage.written st ++ [Some d])%list
    ∧ Storage.load st' = d
    ∧ Storage.resolved st' = (Storage.resolved st ++ [t])%list
    ∧ Storage.armed st' = [] ∧ Storage.pendingData st' = None.
Proof.
  intros Hq t.
  destruct (StorageMore.burst_writes_once ds d st last Hq)
    as (st1 & st2 & st3 & Hrun & Hf & Hs & Hw & Hl & Hr & Ha & Hp & _).
  exists st3. rewrite StorageFacts.run_app, Hrun. cbn [mbind option_bind].
  cbn [Storage.run Storage.step mbind option_bind]. fold t in Hf, Hs. rewrite Hf.
  cbn [mbind option_bind]. rewrite Hs. done.
Qed.

Lemma debounced_saves_write_once_witness :
  ∃ st',
    Storage.run [Storage.Save (Json.Num 1); Storage.Save (Json.Num 2);
                 Storage.Save (Json.Num 3); Storage.TimerFires 2;
                 Storage.UpdateSettles 2] (Storage.init ∅) = Some st'
    ∧ Storage.written st' = [Some (Json.Num 3)].
Proof.
  destruct (debounced_saves_write_once [Json.Num 1; Json.Num 2] (Json.Num 3)
              (Storage.init ∅) None (StorageFacts.quiet_init ∅))
    as (st' & Hrun & Hw & _).
  exists st'. split; [exact Hrun|exact Hw].
Defined.

(** X19. 'timezap.resetData' empties the store and nothing else: the
    data that the service holds is not cleared, and the next [persist()]
    of the service writes it back over the empty object. *)
Theorem reset_then_persist_restores (s : TimeService) (st : Storage.State)
    (last : option Json.value) :
  Storage.quiet last st →
  let t := Storage.nextTimer st in
  ∃ st2 st3 st5 st6,
    Storage.timer_fires t (Commands.resetData st) = Some st2
    ∧ Storage.update_settles t st2 = Some st3
    ∧ Storage.load st3 = Json.Obj []
    ∧ Storage.timer_fires (S t) (persist s st3) = Some st5
    ∧ Storage.update_settles (S t) st5 = Some st6
    ∧ Storage.load st6 = encodeData (data s)
    ∧ Storage.written st6
      = (Storage.written st ++ [Some (Json.Obj []); Some (encodeData (data s))])%list.
Proof.
  intros Hq t. unfold Commands.resetData, persist.
  destruct (StorageMore.burst_writes_once [] (Json.Obj []) st last Hq)
    as (st1 & st2 & st3 & Hrun & Hf & Hs & Hw & Hl & _ & Ha & _ & Haw & Hn).
  cbn [map length Storage.run] in Hrun, Hf, Hs, Hn. injection Hrun as <-.
  rewrite Nat.add_0_r in Hf, Hs, Hn. fold t in Hf, Hs, Hn.
  assert (Storage.quiet None st3) as Hq3 by (split; [done|by left]).
  destruct (StorageMore.burst_writes_once [] (encodeData (data s)) st3 None Hq3)
    as (st4 & st5 & st6 & Hrun6 & Hf6 & Hs6 & Hw6 & Hl6 & _).
  cbn [map length Storage.run] in Hrun6, Hf6, Hs6. injection Hrun6 as <-.
  rewrite Nat.add_0_r, Hn in Hf6, Hs6.
  exists st2, st3, st5, st6. do 6 (split; [done|]).
  rewrite Hw6, Hw. by rewrite <- app_assoc.
Qed.

Lemma reset_then_persist_restores_witness :
  ∃ st2 st3 st5 st6,
    Storage.timer_fires 0 (Commands.resetData (Storage.init {[Storage.key := exampleStored]}))
    = Some st2
    ∧ Storage.update_settles 0 st2 = Some st3
    ∧ Storage.load st3 = Json.Obj []
    ∧ Storage.timer_fires 1 (persist (@onTick posixHost 2500 exampleService).1 st3) = Some st5
    ∧ Storage.update_settles 1 st5 = Some st6
    ∧ Storage.load st6 = encodeData (data (@onTick posixHost 2500 exampleService).1).
Proof.
  destruct (reset_then_persist_restores (@onTick posixHost 2500 exampleService).1
              (Storage.init {[Storage.key := exampleStored]}) None
              (StorageFacts.quiet_init _))
    as (st2 & st3 & st5 & st6 & H1 & H2 & H3 & H4 & H5 & H6 & _).
  exists st2, st3, st5, st6. repeat (split; [assumption|]). assumption.
Defined.

(** ** The script of the dashboard page *)

Lemma webview_format_eq s :
  Webview.formatSecondsHuman s = StatusBar.formatSecondsHuman s.
Proof.
  unfold Webview.formatSecondsHuman, StatusBar.formatSecondsHuman.
  destruct (falsy s || le_zero s); [done|].
  destruct s; [|done|done|done].
  repeat case_match; by rewrite ?string_append_assoc.
Qed.

Section bars.
Context {engine : JsEngine}.

Lemma bar_le_total : Total Dashboard.bar_le.
Proof.
  intros a b. unfold Dashboard.bar_le.
  destruct (Dashboard.barNumber a.2), (Dashboard.barNumber b.2); try (by left). lia.
Qed.

(** Among numbers the comparison of the page is the order of the
    numbers, so that what it sorts is in descending order. *)
Lemma sorted_numbers (l : list (string * Count)) :
  Forall (λ e, ∃ n, e.2 = CNum n) l →
  Sorted Dashboard.bar_le l →
  StronglySorted (λ x y, countValue y ≤ countValue x) (map snd l).
Proof.
  intros Hnum Hs.
  change (map snd l) with (snd <$> l).
  apply (StronglySorted_fmap _ (λ a b, countValue b.2 ≤ countValue a.2)); [done|].
  apply Sorted_StronglySorted; [intros a b c; lia|].
  induction Hs as [|a l Hs IH Hhd]; [constructor|].
  apply Forall_cons in Hnum as [[n Hn] Hnum].
  constructor; [by apply IH|].
  destruct Hhd as [|b l Hab]; constructor.
  apply Forall_cons in Hnum as [[n' Hn'] _].
  unfold Dashboard.bar_le in Hab. rewrite Hn, Hn' in Hab |- *. cbn in *. lia.
Qed.

(** X20. [buildBucketsPayload] keeps every bucket and orders them by
    time: when the values are numbers they are in descending order; each
    label stands at the position of its value, the labels are the keys
    of the buckets, each once, a value is the entry of its key (0 in
    place of an empty string), and a formatted label is the key, a dash
    and the formatted value. *)
Theorem buildBucketsPayload_sorted (buckets : gmap string Count) :
  let p := Dashboard.buildBucketsPayload buckets in
  (allNumbers buckets →
   StronglySorted (λ x y, countValue y ≤ countValue x) (Dashboard.values p))
  ∧ length (Dashboard.labels p) = size buckets
  ∧ length (Dashboard.values p) = size buckets
  ∧ NoDup (Dashboard.labels p)
  ∧ (∀ k v, (k, v) ∈ zip (Dashboard.labels p) (Dashboard.values p)
            ↔ ∃ c, buckets !! k = Some c ∧ v = Dashboard.orZero c)
  ∧ Dashboard.formattedLabels p
    = zip_with
        (λ k v, k ++ Dashboard.dash
                  ++ Webview.formatSecondsHuman (Dashboard.barArgument v))
        (Dashboard.labels p) (Dashboard.values p).
Proof.
  unfold Dashboard.buildBucketsPayload, Dashboard.sortedBars.
  cbn [Dashboard.values Dashboard.labels Dashboard.formattedLabels].
  set (l0 := map (λ kv, (kv.1, Dashboard.orZero kv.2)) (map_to_list buckets)).
  set (l := merge_sort Dashboard.bar_le l0).
  assert (l ≡ₚ l0) as Hperm by apply merge_sort_Permutation.
  assert (zip (map fst l) (map snd l) = l) as Hzip.
  { clear. induction l as [|[k v] l IH]; [done|]. simpl. by rewrite IH. }
  assert (fst <$> l0 = fst <$> map_to_list buckets) as Hkeys.
  { subst l0. clear. induction (map_to_list buckets) as [|[k v] l IH]; [done|].
    cbn. by rewrite <- IH. }
  split; [|split; [|split; [|split; [|split]]]].
  - intros Hnum. apply sorted_numbers.
    + rewrite Hperm. subst l0. apply Forall_forall.
      intros e Hin%list_elem_of_In%in_map_iff.
      destruct Hin as ([k c] & <- & Hin%list_elem_of_In%elem_of_map_to_list).
      destruct (Hnum k c Hin) as [n ->]. cbn. eauto.
    + apply (@Sorted_merge_sort _ _ _ bar_le_total).
  - rewrite length_map, Hperm. subst l0. by rewrite length_map, length_map_to_list.
  - rewrite length_map, Hperm. subst l0. by rewrite length_map, length_map_to_list.
  - change (map fst l) with (fst <$> l). rewrite Hperm, Hkeys.
    apply NoDup_fst_map_to_list.
  - intros k v. rewrite Hzip, Hperm. subst l0. split.
    + intros Hin%list_elem_of_In%in_map_iff.
      destruct Hin as ([k' c] & [= <- <-] & Hin%list_elem_of_In%elem_of_map_to_list).
      by exists c.
    + intros (c & Hc & ->). apply list_elem_of_In, in_map_iff.
      exists (k, c). split; [done|]. by apply list_elem_of_In, elem_of_map_to_list.
  - clear. induction l as [|[k v] l IH]; [done|]. simpl. by rewrite IH.
Qed.
End bars.

(** X21. The series chart shows whole minutes: each point is the number
    of minutes nearest to the seconds of its day, half a minute going
    up, so that a day with less than thirty seconds is drawn at zero and
    its tooltip reads '0s', and the tooltip of a day below an hour shows
    the rounded minutes and no seconds. *)
Theorem seriesMinutes_nearest (arr : list SeriesEntry) :
  Forall2 (λ e m, -30 ≤ seconds e - 60 * m < 30) arr (Dashboard.seriesMinutes arr)
  ∧ (∀ x, x < 30 → Dashboard.tooltip (Dashboard.roundMinutes x) = "0s")
  ∧ (∀ x, 30 ≤ x < 3570 →
       Dashboard.tooltip (Dashboard.roundMinutes x)
       = Js.num_to_string (Dashboard.roundMinutes x) ++ "m 0s").
Proof.
  split; [|split].
  - unfold Dashboard.seriesMinutes, Dashboard.roundMinutes.
    induction arr as [|e arr IH]; constructor; [|done].
    Z.to_euclidean_division_equations; lia.
  - intros x Hx. unfold Dashboard.tooltip, Dashboard.roundMinutes.
    rewrite webview_format_eq. apply formatSecondsHuman_nonpositive.
    Z.to_euclidean_division_equations; lia.
  - intros x Hx. unfold Dashboard.tooltip, Dashboard.roundMinutes.
    set (m := (x + 30) / 60).
    assert (1 ≤ m ≤ 59) as Hm by (subst m; Z.to_euclidean_division_equations; lia).
    rewrite webview_format_eq, formatSecondsHuman_positive by lia.
    rewrite (Z.div_small (m * 60) 3600) by lia. cbn [Z.ltb Z.compare].
    rewrite (Z.mod_small (m * 60) 3600) by lia.
    rewrite Z.div_mul by done.
    rewrite (proj2 (Z.ltb_lt 0 m)) by lia.
    rewrite Z.mod_mul by done. done.
Qed.

Lemma seriesMinutes_nearest_witness :
  Dashboard.tooltip (Dashboard.roundMinutes 29) = "0s"
  ∧ Dashboard.tooltip (Dashboard.roundMinutes 90) = "2m 0s".
Proof.
  destruct (seriesMinutes_nearest []) as (_ & H0 & Hm).
  split; [apply H0; lia|].
  rewrite (Hm 90) by lia. reflexivity.
Defined.

(** ** Date keys *)

Module DateKeyFacts.
Import JsDate.

Lemma allFrom_spec (check : Z → bool) (fuel : nat) : ∀ i,
  allFrom check i fuel = true → ∀ j, i ≤ j < i + Z.of_nat fuel → check j = true.
Proof.
  induction fuel as [|fuel IH]; intros i H j Hj; [lia|].
  cbn [allFrom] in H. apply andb_prop in H as [Hi Hrest].
  destruct (decide (j = i)) as [->|Hne]; [done|].
  apply (IH (i + 1)); [done|lia].
Qed.

Lemma padded_below (width : nat) (bound : Z) :
  allFrom (λ n, (String.length (Js.pad_left width n) =? width)%nat
                && (digits_value 0 (Js.pad_left width n) =? n)
                && forallb Json.is_digit (list_ascii_of_string (Js.pad_left width n)))
    0 (Z.to_nat bound) = true →
  ∀ n, 0 ≤ n < bound →
    String.length (Js.pad_left width n) = width
    ∧ digits_value 0 (Js.pad_left width n) = n
    ∧ forallb Json.is_digit (list_ascii_of_string (Js.pad_left width n)) = true.
Proof.
  intros Hall n Hn.
  pose proof (allFrom_spec _ _ _ Hall n ltac:(lia)) as H. cbv beta in H.
  apply andb_prop in H as [[H1 H2]%andb_prop H3].
  by apply Nat.eqb_eq in H1; apply Z.eqb_eq in H2.
Qed.

Lemma pad4 n :
  0 ≤ n ≤ 9999 →
  String.length (Js.pad_left 4 n) = 4%nat ∧ digits_value 0 (Js.pad_left 4 n) = n
  ∧ forallb Json.is_digit (list_ascii_of_string (Js.pad_left 4 n)) = true.
Proof. intros Hn. apply (padded_below 4 10000); [by vm_compute|lia]. Qed.

Lemma pad2 n :
  0 ≤ n ≤ 99 →
  String.length (Js.pad_left 2 n) = 2%nat ∧ digits_value 0 (Js.pad_left 2 n) = n
  ∧ forallb Json.is_digit (list_ascii_of_string (Js.pad_left 2 n)) = true.
Proof. intros Hn. apply (padded_below 2 100); [by vm_compute|lia]. Qed.

Lemma keyFields_parts (a b c : string) :
  String.length a = 4%nat → String.length b = 2%nat → String.length c = 2%nat →
  String.length (a ++ "-" ++ b ++ "-" ++ c) = 10%nat
  ∧ keyFields (a ++ "-" ++ b ++ "-" ++ c)
    = (digits_value 0 a, digits_value 0 b, digits_value 0 c).
Proof.
  intros Ha Hb Hc.
  destruct a as [|a1 [|a2 [|a3 [|a4 [|]]]]]; try discriminate.
  destruct b as [|b1 [|b2 [|]]]; try discriminate.
  destruct c as [|c1 [|c2 [|]]]; try discriminate.
  split; reflexivity.
Qed.

(** For the years 0 to 9999 the key of a day is its year, month and day
    of the month in four, two and two digits. *)
Lemma iso_date_fields day :
  0 ≤ c_year (civil_of_day day) ≤ 9999 →
  String.length (iso_date_of_day day) = 10%nat
  ∧ keyFields (iso_date_of_day day)
    = (c_year (civil_of_day day), c_month (civil_of_day day), c_date (civil_of_day day)).
Proof.
  intros Hy. pose proof (JsDateFacts.civil_of_day_ranges day) as [Hm Hd].
  unfold iso_date_of_day. cbv zeta.
  rewrite (proj2 (Z.leb_le 0 _)) by lia.
  rewrite (proj2 (Z.leb_le _ 9999)) by lia. cbn [andb].
  destruct (pad4 (c_year (civil_of_day day))) as (Hl4 & Hv4 & _); [lia|].
  destruct (pad2 (c_month (civil_of_day day))) as (Hl2 & Hv2 & _); [lia|].
  destruct (pad2 (c_date (civil_of_day day))) as (Hl2' & Hv2' & _); [lia|].
  destruct (keyFields_parts _ _ _ Hl4 Hl2 Hl2') as [Hlen Hf].
  split; [exact Hlen|]. rewrite Hf. by rewrite Hv4, Hv2, Hv2'.
Qed.

Lemma iso_date_inj day day' :
  0 ≤ c_year (civil_of_day day) ≤ 9999 →
  0 ≤ c_year (civil_of_day day') ≤ 9999 →
  iso_date_of_day day = iso_date_of_day day' → day = day'.
Proof.
  intros Hy Hy' Heq.
  destruct (iso_date_fields day Hy) as [_ Hf].
  destruct (iso_date_fields day' Hy') as [_ Hf'].
  rewrite Heq, Hf' in Hf.
  pose proof (JsDateFacts.day_of_civil_of_day day 0) as H.
  pose proof (JsDateFacts.day_of_civil_of_day day' 0) as H'.
  cbv zeta in H, H'.
  remember (civil_of_day day) as c eqn:Ec. remember (civil_of_day day') as c' eqn:Ec'.
  injection Hf as Hyy Hmm Hdd. rewrite Hyy, Hmm, Hdd in H'. lia.
Qed.

End DateKeyFacts.

(** X22. For a time value in the years 0 to 9999 the key of its day is
    ten characters long and spells, in the form YYYY-MM-DD, the year,
    the month and the day of the month of the time value in UTC. *)
Theorem dateKeyFor_spells_utc_date (t : Z) :
  0 ≤ JsDate.YearFromTime t ≤ 9999 →
  String.length (dateKeyFor t) = 10%nat
  ∧ keyFields (dateKeyFor t)
    = (JsDate.YearFromTime t, JsDate.MonthFromTime t + 1, JsDate.DateFromTime t).
Proof.
  intros Hy. unfold dateKeyFor, JsDate.iso_date_prefix.
  destruct (DateKeyFacts.iso_date_fields (JsDate.Day t) Hy) as [Hl Hf].
  split; [exact Hl|]. rewrite Hf.
  unfold JsDate.YearFromTime, JsDate.MonthFromTime, JsDate.DateFromTime.
  do 2 f_equal. lia.
Qed.

Lemma dateKeyFor_spells_utc_date_witness :
  keyFields (dateKeyFor 1762216200000) = (2025, 11, 4).
Proof.
  destruct (dateKeyFor_spells_utc_date 1762216200000) as [_ H]; [by vm_compute|].
  rewrite H. by vm_compute.
Defined.

(** X23. Day buckets are UTC days: in the years 0 to 9999 two time
    values get the same key exactly when they lie on the same day of
    UTC, whatever the time zone of the host. *)
Theorem dateKeyFor_same_day (a b : Z) :
  0 ≤ JsDate.YearFromTime a ≤ 9999 →
  0 ≤ JsDate.YearFromTime b ≤ 9999 →
  dateKeyFor a = dateKeyFor b ↔ JsDate.Day a = JsDate.Day b.
Proof.
  intros Ha Hb. unfold dateKeyFor, JsDate.iso_date_prefix. split.
  - by apply DateKeyFacts.iso_date_inj.
  - by intros ->.
Qed.

Lemma dateKeyFor_same_day_witness :
  dateKeyFor 1762216200000 = dateKeyFor 1762300799999
  ∧ dateKeyFor 1762216200000 ≠ dateKeyFor 1762300800000.
Proof.
  split.
  - apply (proj2 (dateKeyFor_same_day 1762216200000 1762300799999
                    ltac:(by vm_compute) ltac:(by vm_compute))).
    by vm_compute.
  - assert (0 ≤ JsDate.YearFromTime 1762216200000 ≤ 9999) as Ha by (by vm_compute).
    assert (0 ≤ JsDate.YearFromTime 1762300800000 ≤ 9999) as Hb by (by vm_compute).
    intros H.
    pose proof (proj1 (dateKeyFor_same_day 1762216200000 1762300800000 Ha Hb) H) as HD.
    vm_compute in HD. discriminate HD.
Defined.

(** ** The order of date keys *)

Module DateOrderFacts.
Import JsDate DateKeyFacts.

Lemma digits_value_acc s : ∀ acc,
  digits_value acc s = acc * 10 ^ Z.of_nat (String.length s) + digits_value 0 s.
Proof.
  induction s as [|c s IH]; intros acc.
  - cbn. lia.
  - cbn [digits_value String.length]. rewrite IH, (IH (10 * 0 + _)).
    rewrite Nat2Z.inj_succ, Z.pow_succ_r by lia. lia.
Qed.

Lemma is_digit_value c :
  Json.is_digit c = true → 0 ≤ Z.of_N (N_of_ascii c) - 48 ≤ 9.
Proof.
  destruct c as [[] [] [] [] [] [] [] []]; cbv; intros; try discriminate;
    split; discriminate.
Qed.

Lemma digits_value_bound s :
  forallb Json.is_digit (list_ascii_of_string s) = true →
  0 ≤ digits_value 0 s < 10 ^ Z.of_nat (String.length s).
Proof.
  induction s as [|c s IH]; [cbn; lia|].
  cbn [list_ascii_of_string forallb]. intros [Hc Hs%IH]%andb_true_iff.
  apply is_digit_value in Hc.
  cbn [digits_value String.length]. rewrite digits_value_acc.
  rewrite Nat2Z.inj_succ, Z.pow_succ_r by lia. nia.
Qed.

(** Strings of digits of the same length compare as the numbers they
    spell. *)
Lemma compare_digits s : ∀ s',
  String.length s = String.length s' →
  forallb Json.is_digit (list_ascii_of_string s) = true →
  forallb Json.is_digit (list_ascii_of_string s') = true →
  String.compare s s' = (digits_value 0 s ?= digits_value 0 s').
Proof.
  induction s as [|c s IH]; intros [|c' s'] Hlen; try discriminate; [done|].
  cbn [list_ascii_of_string forallb String.length] in *.
  intros [Hc Hs]%andb_true_iff [Hc' Hs']%andb_true_iff.
  injection Hlen as Hlen.
  pose proof (digits_value_bound s Hs) as Hb.
  pose proof (digits_value_bound s' Hs') as Hb'. rewrite <- Hlen in Hb'.
  apply is_digit_value in Hc, Hc'.
  cbn [String.compare digits_value].
  rewrite (digits_value_acc s), (digits_value_acc s'), <- Hlen.
  rewrite (IH s' Hlen Hs Hs'). unfold Ascii.compare.
  set (p := 10 ^ Z.of_nat (String.length s)) in *.
  set (v := Z.of_N (N_of_ascii c)) in *. set (v' := Z.of_N (N_of_ascii c')) in *.
  assert ((N_of_ascii c ?= N_of_ascii c')%N = (v ?= v')) as -> by (symmetry; apply N2Z.inj_compare).
  destruct (Z.compare_spec v v') as [->|Hlt|Hgt].
  - destruct (Z.compare_spec (digits_value 0 s) (digits_value 0 s')); symmetry;
      [apply Z.compare_eq_iff|apply Z.compare_lt_iff|apply Z.compare_gt_iff]; lia.
  - symmetry. apply Z.compare_lt_iff. nia.
  - symmetry. apply Z.compare_gt_iff. nia.
Qed.

Lemma compare_app a : ∀ a' s s',
  String.length a = String.length a' →
  String.compare (a ++ s) (a' ++ s')
  = match String.compare a a' with
    | Eq => String.compare s s'
    | r => r
    end.
Proof.
  induction a as [|c a IH]; intros [|c' a'] s s' Hlen; try discriminate; [done|].
  injection Hlen as Hlen.
  change (String.compare (String c (a ++ s)) (String c' (a' ++ s'))
          = match String.compare (String c a) (String c' a') with
            | Eq => String.compare s s'
            | r => r
            end).
  cbn [String.compare]. destruct (Ascii.compare c c'); [by apply IH|done|done].
Qed.

Lemma dayRank_step_era z0 :
  0 ≤ z0 < 146097 → dayRank (z0 - 719468) < dayRank (z0 + 1 - 719468).
Proof.
  intros Hz.
  assert (allFrom (λ n, dayRank (n - 719468) <? dayRank (n + 1 - 719468))
            0 (Z.to_nat 146097) = true) as Hall by (by vm_compute).
  apply Z.ltb_lt, (allFrom_spec _ _ _ Hall z0). lia.
Qed.

Lemma civil_of_day_era day k :
  civil_of_day (day + 146097 * k)
  = {| c_year := c_year (civil_of_day day) + 400 * k;
       c_month := c_month (civil_of_day day);
       c_date := c_date (civil_of_day day) |}.
Proof.
  unfold civil_of_day. cbv zeta.
  replace (day + 146097 * k + 719468) with (day + 719468 + k * 146097) by lia.
  rewrite Z.div_add by done.
  replace (day + 719468 + k * 146097 - ((day + 719468) / 146097 + k) * 146097)
    with (day + 719468 - (day + 719468) / 146097 * 146097) by lia.
  cbn [c_year c_month c_date]. f_equal. lia.
Qed.

Lemma dayRank_era day k : dayRank (day + 146097 * k) = dayRank day + 400000000 * k.
Proof.
  unfold dayRank. cbv zeta. rewrite civil_of_day_era. cbn [c_year c_month c_date]. lia.
Qed.

Lemma dayRank_step day : dayRank day < dayRank (day + 1).
Proof.
  pose proof (Z.div_mod (day + 719468) 146097 ltac:(done)) as Hdm.
  pose proof (Z.mod_pos_bound (day + 719468) 146097 ltac:(done)) as Hb.
  pose proof (dayRank_step_era _ Hb) as Hstep.
  pose proof (dayRank_era ((day + 719468) mod 146097 - 719468)
                ((day + 719468) / 146097)) as H1.
  pose proof (dayRank_era ((day + 719468) mod 146097 + 1 - 719468)
                ((day + 719468) / 146097)) as H2.
  replace ((day + 719468) mod 146097 - 719468 + 146097 * ((day + 719468) / 146097))
    with day in H1 by lia.
  replace ((day + 719468) mod 146097 + 1 - 719468 + 146097 * ((day + 719468) / 146097))
    with (day + 1) in H2 by lia.
  lia.
Qed.

Lemma dayRank_mono day day' : day < day' → dayRank day < dayRank day'.
Proof.
  intros Hlt.
  replace day' with (day + 1 + Z.of_nat (Z.to_nat (day' - day - 1))) by lia.
  induction (Z.to_nat (day' - day - 1)) as [|n IH].
  - rewrite Z.add_0_r. apply dayRank_step.
  - rewrite Nat2Z.inj_succ.
    replace (day + 1 + Z.succ (Z.of_nat n)) with (day + 1 + Z.of_nat n + 1) by lia.
    pose proof (dayRank_step (day + 1 + Z.of_nat n)). lia.
Qed.

Lemma dayRank_compare day day' : (dayRank day ?= dayRank day') = (day ?= day').
Proof.
  destruct (Z.compare_spec day day') as [->|Hlt|Hgt].
  - apply Z.compare_refl.
  - apply Z.compare_lt_iff. by apply dayRank_mono.
  - apply Z.compare_gt_iff. by apply dayRank_mono.
Qed.

(** For the years 0 to 9999 the keys of two days compare, character by
    character, as the days. *)
Lemma iso_date_compare day day' :
  0 ≤ c_year (civil_of_day day) ≤ 9999 →
  0 ≤ c_year (civil_of_day day') ≤ 9999 →
  String.compare (iso_date_of_day day) (iso_date_of_day day') = (day ?= day').
Proof.
  intros Hy Hy'. rewrite <- dayRank_compare. unfold dayRank. cbv zeta.
  pose proof (JsDateFacts.civil_of_day_ranges day) as [Hm Hd].
  pose proof (JsDateFacts.civil_of_day_ranges day') as [Hm' Hd'].
  unfold iso_date_of_day. cbv zeta.
  rewrite !(proj2 (Z.leb_le 0 _)) by lia.
  rewrite !(proj2 (Z.leb_le _ 9999)) by lia. cbn [andb].
  remember (civil_of_day day) as c eqn:Ec. remember (civil_of_day day') as c' eqn:Ec'.
  destruct (DateKeyFacts.pad4 (c_year c)) as (Hl4 & Hv4 & Hg4); [lia|].
  destruct (DateKeyFacts.pad2 (c_month c)) as (Hl2 & Hv2 & Hg2); [lia|].
  destruct (DateKeyFacts.pad2 (c_date c)) as (Hl1 & Hv1 & Hg1); [lia|].
  destruct (DateKeyFacts.pad4 (c_year c')) as (Hl4' & Hv4' & Hg4'); [lia|].
  destruct (DateKeyFacts.pad2 (c_month c')) as (Hl2' & Hv2' & Hg2'); [lia|].
  destruct (DateKeyFacts.pad2 (c_date c')) as (Hl1' & Hv1' & Hg1'); [lia|].
  rewrite compare_app by congruence.
  rewrite (compare_app "-" "-") by done.
  rewrite compare_app by congruence.
  rewrite (compare_app "-" "-") by done.
  change (String.compare "-" "-") with Eq. cbv iota.
  rewrite (compare_digits (Js.pad_left 4 (c_year c))) by (done || congruence).
  rewrite (compare_digits (Js.pad_left 2 (c_month c))) by (done || congruence).
  rewrite (compare_digits (Js.pad_left 2 (c_date c))) by (done || congruence).
  rewrite Hv4, Hv2, Hv1, Hv4', Hv2', Hv1'.
  destruct (Z.compare_spec (c_year c) (c_year c')) as [Ey|Ey|Ey];
    [destruct (Z.compare_spec (c_month c) (c_month c')) as [Em|Em|Em];
      [destruct (Z.compare_spec (c_date c) (c_date c')) as [Ed|Ed|Ed]|..]|..];
    symmetry;
    first [apply Z.compare_eq_iff; lia|apply Z.compare_lt_iff; lia|apply Z.compare_gt_iff; lia].
Qed.

End DateOrderFacts.

(** X24. Date keys sort as days: in the years 0 to 9999 the comparison
    that puts 'all' in order, taken by character codes, places the key
    of one time value before the key of another exactly when its UTC day
    is not the later one. *)
Theorem dateKeyFor_order (a b : Z) :
  0 ≤ JsDate.YearFromTime a ≤ 9999 →
  0 ≤ JsDate.YearFromTime b ≤ 9999 →
  @entry_le codeOrder {| date := dateKeyFor a; seconds := 0 |}
    {| date := dateKeyFor b; seconds := 0 |}
  ↔ JsDate.Day a ≤ JsDate.Day b.
Proof.
  intros Ha Hb. unfold entry_le, codeOrder, localeCompare. cbn [date].
  unfold dateKeyFor, JsDate.iso_date_prefix.
  rewrite DateOrderFacts.iso_date_compare by done.
  destruct (Z.compare_spec (JsDate.Day a) (JsDate.Day b)); lia.
Qed.

Lemma dateKeyFor_order_witness :
  @entry_le codeOrder {| date := dateKeyFor 951782400000; seconds := 0 |}
    {| date := dateKeyFor 1762216200000; seconds := 0 |}.
Proof.
  apply (dateKeyFor_order 951782400000 1762216200000); by vm_compute.
Defined.

(** X25. A tick books its seconds under the day on which it runs: when
    the tick before it ran on an earlier UTC day, the bucket of that
    earlier day is left as it was, and all the seconds since then, those
    before midnight included, go to the bucket of the new day. *)
Theorem tick_after_midnight {host : PathHost} (s : TimeService) (now : Z) :
  running s = true →
  now - lastActivity s < idleTimeoutSeconds (config s) * 1000 →
  1000 ≤ now - lastTick s →
  0 ≤ JsDate.YearFromTime (lastTick s) ≤ 9999 →
  0 ≤ JsDate.YearFromTime now ≤ 9999 →
  JsDate.Day (lastTick s) < JsDate.Day now →
  let ws := workspaceKeyOf s in
  let d' := data (onTick now s).1 in
  lookupBucket d' ws (dateKeyFor (lastTick s))
  = lookupBucket (data s) ws (dateKeyFor (lastTick s))
  ∧ Js.num_or0 (totalSeconds (bucketOrEmpty d' ws (dateKeyFor now)))
    = Js.num_or0 (totalSeconds (bucketOrEmpty (data s) ws (dateKeyFor now)))
      + (now - lastTick s) / 1000.
Proof.
  intros Hr Hi Hd Hy Hy' Hday ws d'. subst d'.
  rewrite onTick_active by done. cbn [data set_data]. fold ws. split.
  - apply lookupBucket_accumulate_other. intros [= Hkey].
    unfold dateKeyFor, JsDate.iso_date_prefix in Hkey.
    apply DateKeyFacts.iso_date_inj in Hkey; [lia|done|done].
  - unfold bucketOrEmpty at 1. rewrite lookupBucket_accumulate. cbn [default from_option id].
    apply addDelta_total.
Qed.

Lemma tick_after_midnight_witness :
  let s := (start 86399000 86399000 (newTimeService defaultConfig 0)).1 in
  let d' := data (@onTick posixHost 86401000 s).1 in
  lookupBucket d' "untitled" "1970-01-01" = None
  ∧ Js.num_or0 (totalSeconds (bucketOrEmpty d' "untitled" "1970-01-02")) = 2.
Proof.
  intros s d'.
  destruct (@tick_after_midnight posixHost s 86401000) as [H1 H2];
    [done|by vm_compute|by vm_compute|by vm_compute|by vm_compute|by vm_compute|].
  split; [exact H1|exact H2].
Defined.

(** ** Ticks: the day, the key and the seconds *)

Section tick_keys.
Context {host : PathHost}.

(** C1, as the code has it. A tick of a running service that is not
    idle, one whole second or more after the previous tick, adds the
    elapsed whole seconds to the bucket of the active workspace
    (['untitled'] without one) and of the day of the tick in UTC, whose
    key spells that date as YYYY-MM-DD: to its total and to one entry of
    one map, the entry of the active file in [byFile] when aggregating
    by file, otherwise the entry in [byFolder] of the first segment of
    the path of the file relative to the workspace (['.'] when it is
    empty, the file key when the path cannot be computed). This is for a
    bucket that has the map, and an entry that holds a number or is
    missing under a key that names no property of [Object.prototype].
    Every other bucket is as it was. *)
Theorem onTick_accumulates (now : Z) (s : TimeService) (m : gmap string Count) (n : Z) :
  running s = true →
  now - lastActivity s < idleTimeoutSeconds (config s) * 1000 →
  1000 ≤ now - lastTick s →
  let δ := (now - lastTick s) / 1000 in
  let ws := Js.opt_str_or (activeWorkspace s) "untitled" in
  let f := Js.opt_str_or (activeFile s) "untitled" in
  let day := dateKeyFor now in
  let key :=
    match aggregateBy (config s) with
    | file => f
    | folder =>
        match (if String.prefix "file://" ws then uri_fsPath ws else Some ws) with
        | Some root => Js.str_or (Js.split_head path_sep (path_relative root f)) "."
        | None => f
        end
    end in
  let before := bucketOrEmpty (data s) ws day in
  selectedMap (config s) before = Some m →
  entryNumber m key = Some n →
  let d' := data (onTick now s).1 in
  (0 ≤ JsDate.YearFromTime now ≤ 9999 →
   String.length day = 10%nat
   ∧ keyFields day
     = (JsDate.YearFromTime now, JsDate.MonthFromTime now + 1, JsDate.DateFromTime now))
  ∧ (∃ after,
       lookupBucket d' ws day = Some after
       ∧ totalSeconds after = Some (Js.num_or0 (totalSeconds before) + δ)
       ∧ selectedMap (config s) after = Some (<[key := CNum (n + δ)]> m)
       ∧ match aggregateBy (config s) with
         | file => byFolder after = byFolder before
         | folder => byFile after = byFile before
         end)
  ∧ (∀ ws' day', (ws', day') ≠ (ws, day) →
       lookupBucket d' ws' day' = lookupBucket (data s) ws' day').
Proof.
  intros Hr Hi Hd δ ws f day key before Hsel Hn d'.
  subst d'. rewrite onTick_active by done. cbn [data set_data].
  change (workspaceKeyOf s) with ws. change (fileKeyOf s) with f. fold δ day.
  assert (key = entryKeyFor (config s) ws f) as Hkey.
  { subst key. unfold entryKeyFor, folderKeyFor. by destruct (aggregateBy (config s)). }
  split; [|split].
  - intros Hy. unfold day, dateKeyFor, JsDate.iso_date_prefix.
    destruct (DateKeyFacts.iso_date_fields (JsDate.Day now) Hy) as [Hl Hf].
    split; [exact Hl|]. rewrite Hf.
    unfold JsDate.YearFromTime, JsDate.MonthFromTime, JsDate.DateFromTime.
    do 2 f_equal. lia.
  - eexists. split; [apply lookupBucket_accumulate|]. fold before.
    split; [unfold addDelta; by destruct (aggregateBy (config s))|].
    split.
    + rewrite selectedMap_addDelta, Hsel. cbn [fmap option_fmap option_map].
      rewrite <- Hkey. by rewrite (assigned_bumped _ _ _ _ Hn).
    + unfold addDelta. by destruct (aggregateBy (config s)).
  - intros ws' day' Hne. by apply lookupBucket_accumulate_other.
Qed.
End tick_keys.

Lemma onTick_accumulates_witness :
  let s := @runService posixHost
             [Started 1762216200000 1762216200000;
              EditorChanged (Some ("/w/src/a.ts", Some "/w")) 1762216200100 1762216200100]
             (newTimeService defaultConfig 0) in
  keyFields (dateKeyFor 1762216202500) = (2025, 11, 4)
  ∧ ∃ after,
      lookupBucket (data (@onTick posixHost 1762216202500 s).1) "/w" "2025-11-04" = Some after
      ∧ totalSeconds after = Some 2
      ∧ byFolder after = Some {["src" := CNum 2]}
      ∧ byFile after = Some ∅.
Proof.
  intros s.
  assert (dateKeyFor 1762216202500 = "2025-11-04") as Hday by (vm_compute; reflexivity).
  assert (0 ≤ JsDate.YearFromTime 1762216202500 ≤ 9999) as Hy by (vm_compute; split; discriminate).
  destruct (@onTick_accumulates posixHost 1762216202500 s ∅ 0)
    as (Hkey & (after & Hlook & Htotal & Hsel & Hfile) & _);
    [reflexivity | vm_compute; reflexivity | vm_compute; discriminate
    | vm_compute; reflexivity | vm_compute; reflexivity |].
  split.
  - destruct (Hkey Hy) as [_ ->]. vm_compute. reflexivity.
  - exists after. rewrite Hday in Hlook.
    split; [exact Hlook|]. split; [exact Htotal|]. split; [exact Hsel|exact Hfile].
Defined.

(** C1, as the specification words it, fails: at 19:30 on 3 November
    2025 in Toronto, a tick for a file that lies in the root of its
    workspace records nothing under the calendar day of the user; its
    seconds go to the bucket of 4 November, the day in UTC, and there to
    the entry named after the file, not after a folder. *)
Lemma onTick_day_and_folder :
  let s := @runService posixHost
             [Started 1762216200000 1762216200000;
              EditorChanged (Some ("/w/a.ts", Some "/w")) 1762216200100 1762216200100]
             (newTimeService defaultConfig 0) in
  let now := 1762216202500 in
  let d' := data (@onTick posixHost now s).1 in
  @calendarDayOf toronto_autumn_2025 now = "2025-11-03"
  ∧ @topLevelFolderOf posixHost "/w" "/w/a.ts" = "."
  ∧ lookupBucket d' "/w" (@calendarDayOf toronto_autumn_2025 now) = None
  ∧ lookupBucket d' "/w" "2025-11-04"
    = Some {| totalSeconds := Some 2; byFile := Some ∅;
              byFolder := Some {["a.ts" := CNum 2]} |}
  ∧ ¬ (∃ after m,
         lookupBucket d' "/w" (@calendarDayOf toronto_autumn_2025 now) = Some after
         ∧ byFolder after = Some m
         ∧ m !! @topLevelFolderOf posixHost "/w" "/w/a.ts" = Some (CNum 2)).
Proof.
  intros s now d'.
  assert (@calendarDayOf toronto_autumn_2025 now = "2025-11-03") as Hday
    by (vm_compute; reflexivity).
  assert (lookupBucket d' "/w" "2025-11-03" = None) as Hnone by (vm_compute; reflexivity).
  split; [exact Hday|]. split; [vm_compute; reflexivity|].
  rewrite Hday. split; [exact Hnone|]. split; [vm_compute; reflexivity|].
  intros (after & m & Hlook & _). rewrite Hnone in Hlook. discriminate.
Qed.

Section timer.
Context {host : PathHost}.



End timer.


(** C6. A tick breaks the balance of a bucket when the folder of the
    active file is named as a property of [Object.prototype]: with two
    seconds counted under ['src'] the bucket is balanced, and after a
    tick for a file under ['constructor'] its total is 4 while the
    entry of ['constructor'] holds the text of the inherited function
    followed by the digit 2. *)
Theorem onTick_breaks_balance :
  let s1 := @runService posixHost
              [Started 1762216200000 1762216200000;
               EditorChanged (Some ("/w/src/a.ts", Some "/w")) 1762216200100 1762216200100;
               Ticked 1762216202500;
               EditorChanged (Some ("/w/constructor/b.ts", Some "/w"))
                 1762216203000 1762216203000]
              (newTimeService defaultConfig 0) in
  let s2 := (@onTick posixHost 1762216205000 s1).1 in
  ∃ b1 b2,
    lookupBucket (data s1) "/w" "2025-11-04" = Some b1
    ∧ bucketBalanced b1
    ∧ lookupBucket (data s2) "/w" "2025-11-04" = Some b2
    ∧ totalSeconds b2 = Some 4
    ∧ byFile b2 = Some ∅
    ∧ byFolder b2
      = Some {["src" := CNum 2;
               "constructor" := CStr "function Object() { [native code] }2"]}
    ∧ ¬ bucketBalanced b2.
Proof.
  intros s1 s2.
  exists {| totalSeconds := Some 2; byFile := Some ∅; byFolder := Some {["src" := CNum 2]} |},
         {| totalSeconds := Some 4; byFile := Some ∅;
            byFolder := Some {["src" := CNum 2;
                               "constructor" := CStr "function Object() { [native code] }2"]} |}.
  split; [vm_compute; reflexivity|].
  split.
  { exists ∅, {["src" := CNum 2]}. cbn [byFile byFolder totalSeconds].
    split; [done|]. split; [done|]. split; [apply allNumbers_empty|].
    split; [apply map_Forall_singleton; eauto|].
    vm_compute. reflexivity. }
  split; [vm_compute; reflexivity|].
  split; [done|]. split; [done|]. split; [done|].
  intros (files & folders & _ & Hd & _ & Hn & _).
  cbn [byFolder] in Hd. injection Hd as <-.
  destruct (Hn "constructor" (CStr "function Object() { [native code] }2")) as [n Hc];
    [vm_compute; reflexivity|discriminate].
Qed.

(** X26. [importFromJson] replaces the stored value: text that
    [JSON.parse] rejects makes it fail before anything is scheduled, and
    for text that parses nothing is written until the delay of [save]
    has passed, after which the store holds the parsed value in place of
    what it held, with nothing of the old value merged in. *)
Theorem import_replaces_store (json : string) (st : Storage.State)
    (last : option Json.value) :
  Storage.quiet last st →
  match Json.parse json with
  | None => Storage.importFromJson json st = None
  | Some d =>
      ∃ st1 st2 st3,
        Storage.importFromJson json st = Some st1
        ∧ Storage.globalState st1 = Storage.globalState st
        ∧ Storage.timer_fires (Storage.nextTimer st) st1 = Some st2
        ∧ Storage.update_settles (Storage.nextTimer st) st2 = Some st3
        ∧ Storage.load st3 = d
        ∧ Storage.written st3 = (Storage.written st ++ [Some d])%list
  end.
Proof.
  intros Hq. unfold Storage.importFromJson.
  destruct (Json.parse json) as [d|]; [|done]. cbn [mbind option_bind].
  destruct (StorageMore.burst_writes_once [] d st last Hq)
    as (st0 & st2 & st3 & Hrun & Hf & Hs & Hw & Hl & _).
  cbn [map length Storage.run] in Hrun, Hf, Hs. injection Hrun as <-.
  rewrite Nat.add_0_r in Hf, Hs.
  exists (Storage.save d st), st2, st3. done.
Qed.

Lemma import_replaces_store_witness :
  ∃ st1 st2 st3,
    Storage.importFromJson "[1.5, 1e3, {}]" (Storage.init {[Storage.key := exampleStored]})
    = Some st1
    ∧ Storage.timer_fires 0 st1 = Some st2
    ∧ Storage.update_settles 0 st2 = Some st3
    ∧ Storage.load st3 = Json.Arr [Json.Dec 15 (-1); Json.Num 1000; Json.Obj []].
Proof.
  pose proof (import_replaces_store "[1.5, 1e3, {}]"
                (Storage.init {[Storage.key := exampleStored]})
                None (StorageFacts.quiet_init _)) as H.
  assert (Json.parse "[1.5, 1e3, {}]"
          = Some (Json.Arr [Json.Dec 15 (-1); Json.Num 1000; Json.Obj []])) as Hp
    by (by vm_compute).
  rewrite Hp in H. destruct H as (st1 & st2 & st3 & H1 & _ & H2 & H3 & H4 & _).
  exists st1, st2, st3. split; [exact H1|]. split; [exact H2|]. split; [exact H3|exact H4].
Defined.

(** ** The dashboard page *)

Section page_facts.
Context {engine : JsEngine}.

Lemma onData_total_line p st :
  Page.seriesTotalText (Page.onData p st) = Page.seriesTotalText st.
Proof.
  unfold Page.onData. cbv zeta.
  destruct (Page.series (default _ p)) as [r|]; [done|].
  cbn. by destruct (Page.seriesChart st).
Qed.

Lemma run_data_total_line ps st :
  Page.seriesTotalText (Page.run (map Page.Data ps) st) = Page.seriesTotalText st.
Proof.
  revert st. induction ps as [|p ps IH]; intros st; [done|].
  cbn [map Page.run Page.step]. by rewrite IH, onData_total_line.
Qed.

(** X27. The line with the total of the series changes only when a
    range button is clicked: 'data' messages, however many, leave it
    alone. A page that was sent data and never clicked still reads
    'Total (selected range): Loading…', and after a click the line
    keeps the total of the series that was there at the click, for the
    clicked range, while a later message redraws the chart from its own
    series. *)
Theorem page_total_line_only_on_click (ps : list (option Page.Payload)) :
  Page.seriesTotalText (Page.run (map Page.Data ps) Page.initial)
  = "Total (selected range): Loading" ++ Page.ellipsis
  ∧ (∀ k r st,
       Page.latestSeries st = Some r →
       Page.seriesTotalText (Page.run (Page.Click k :: map Page.Data ps) st)
       = (("Total (" ++ Page.rangeName k) ++ "): ")
         ++ Webview.formatSecondsHuman (JsNum (Dashboard.seriesTotal (Page.rangeOf k r))))
  ∧ (∀ k r st t r',
       Page.latestSeries st = Some r →
       let st' := Page.run [Page.Click k; Page.Data (Page.posted t r')] st in
       Page.seriesTotalText st'
       = (("Total (" ++ Page.rangeName k) ++ "): ")
         ++ Webview.formatSecondsHuman (JsNum (Dashboard.seriesTotal (Page.rangeOf k r)))
       ∧ option_map Page.s_data (Page.seriesChart st')
         = Some (Dashboard.seriesMinutes (Page.rangeOf k r'))
       ∧ option_map Page.s_labels (Page.seriesChart st')
         = Some (map date (Page.rangeOf k r'))).
Proof.
  split; [apply run_data_total_line|]. split.
  - intros k r st Hr. cbn [Page.run Page.step]. rewrite run_data_total_line.
    unfold Page.onClick. cbn. by rewrite Hr.
  - intros k r st t r' Hr st'. subst st'. cbn [Page.run Page.step]. split.
    + rewrite onData_total_line. unfold Page.onClick. cbn. by rewrite Hr.
    + unfold Page.onClick. cbn. rewrite Hr. done.
Qed.
End page_facts.

Lemma page_total_line_only_on_click_witness :
  let r := {| range7d := []; range30d := []; range1y := [];
              rangeAll := [{| date := "1970-01-01"; seconds := 90 |}] |} in
  let t := {| Commands.today_totalSeconds := 90;
              Commands.buckets := {["." := CNum 90]} |} in
  let st := @Page.run nodeEngine [Page.Data (Page.posted t r)] Page.initial in
  Page.seriesTotalText st = "Total (selected range): Loading" ++ Page.ellipsis
  ∧ option_map Page.s_data (Page.seriesChart st) = Some [2]
  ∧ Page.seriesTotalText (@Page.run nodeEngine [Page.Click Page.RAll] st)
    = "Total (all): 1m 30s".
Proof.
  intros r t st.
  destruct (@page_total_line_only_on_click nodeEngine [Page.posted t r]) as (H1 & _ & _).
  destruct (@page_total_line_only_on_click nodeEngine []) as (_ & H2 & _).
  split; [exact H1|]. split; [by vm_compute|].
  change (@Page.run nodeEngine [Page.Click Page.RAll] st)
    with (@Page.run nodeEngine (Page.Click Page.RAll :: map Page.Data []) st).
  rewrite (H2 Page.RAll r st); [by vm_compute|done].
Defined.

(** X28. The dashboard and the status bar show the same amount for
    today: from the same loaded data and clock reading, the line 'Total
    today: ' of the page, fed with what 'timezap.showDashboard' posts,
    and the text of the status bar, 'TimeZap: ' with ' (live)' appended
    while the service runs, carry the same formatted total of the active
    workspace. *)
Theorem dashboard_and_status_bar_agree {engine : JsEngine} (s : TimeService)
    (loaded : PersistedData) (now : Z) (r : Ranges) (st : Page.State) :
  let amount :=
    StatusBar.formatSecondsHuman
      (JsNum (Commands.today_totalSeconds (Commands.showDashboardToday s loaded now))) in
  Page.summaryText (Page.onData (Page.posted (Commands.showDashboardToday s loaded now) r) st)
  = "Total today: " ++ amount
  ∧ refreshText s loaded now
    = "TimeZap: " ++ (if running s then amount ++ " (live)" else amount).
Proof.
  intros amount. subst amount. split.
  - unfold Page.onData, Page.posted. cbn. by rewrite webview_format_eq.
  - unfold refreshText, Commands.showDashboardToday, getTodaySummaryForWorkspace.
    cbn [Commands.today_totalSeconds Js.opt_str_or]. by rewrite opt_str_or_idem.
Qed.
